(** * k8s-bigip-ctlr, pkg/crmanager/resourceConfig.go

    A shallow embedding of the resource-configuration engine of the
    controller: name formatting, virtual addresses, the sorted profile
    list, dependency tracking, data-group flattening, and the policy
    rule merge / unmerge engine with the Go heap it mutates. *)

From Stdlib Require Import ZArith Ascii String List Lia DecimalString.
From stdpp Require Import base option list gmap strings sorting.

Local Open Scope string_scope.
Local Open Scope list_scope.

(** ** Go strings

    A Go string is a sequence of bytes; [string] is a sequence of
    [ascii], one per byte.  [==] is [String.eqb], [<] is the bytewise
    lexicographic order, [String.ltb]. *)
Module GoStrings.

(** [strings.HasPrefix]. *)
Definition HasPrefix (s p : string) : bool := String.prefix p s.

(** [strings.HasSuffix]: [p] is a prefix of the reversed [s]. *)
Definition HasSuffix (s suffix : string) : bool :=
  String.prefix (String.rev suffix) (String.rev s).

(** [strings.Contains]: some tail of [s] starts with [substr]. *)
Fixpoint Contains (s substr : string) : bool :=
  String.prefix substr s ||
  match s with
  | EmptyString => false
  | String _ r => Contains r substr
  end.

(** [strings.NewReplacer] with one-byte old and new strings builds a
    byte table; the first pair naming a byte wins. *)
Fixpoint replaceByte (pairs : list (ascii * ascii)) (c : ascii) : ascii :=
  match pairs with
  | [] => c
  | (o, n) :: rest => if Ascii.eqb o c then n else replaceByte rest c
  end.

Fixpoint ReplacerReplace (pairs : list (ascii * ascii)) (s : string) : string :=
  match s with
  | EmptyString => EmptyString
  | String c r => String (replaceByte pairs c) (ReplacerReplace pairs r)
  end.

(** [fmt.Sprintf("%d", n)] for a Go integer. *)
Definition formatInt (n : Z) : string := NilZero.string_of_int (Z.to_int n).

(** [strings.Split(s, sep)] for a one-byte separator: always at least
    one field. *)
Fixpoint splitGo (sep : ascii) (cur : string) (s : string) : list string :=
  match s with
  | EmptyString => [String.rev cur]
  | String c r =>
      if Ascii.eqb c sep then String.rev cur :: splitGo sep EmptyString r
      else splitGo sep (String c cur) r
  end.

Definition Split (s : string) (sep : ascii) : list string := splitGo sep EmptyString s.


(** [strings.IndexByte(s, c) >= 0]. *)
Fixpoint hasByte (c : ascii) (s : string) : bool :=
  match s with
  | EmptyString => false
  | String x r => Ascii.eqb x c || hasByte c r
  end.
End GoStrings.

(** ** Naming utilities *)
Module Naming.
Import GoStrings.

(** [AS3NameFormatter]: the replacer of the source, pair by pair. *)
Definition as3Replacer : list (ascii * ascii) :=
  [ ("."%char, "_"%char); (":"%char, "_"%char); ("/"%char, "_"%char);
    ("%"%char, "."%char); ("-"%char, "_"%char); ("="%char, "_"%char) ].

Definition AS3NameFormatter (name : string) : string :=
  ReplacerReplace as3Replacer name.

(** [strings.Trim(ip, "[]")]: strips leading and trailing brackets. *)
Definition isBracket (c : ascii) : bool := Ascii.eqb c "["%char || Ascii.eqb c "]"%char.

Fixpoint trimLeft (s : string) : string :=
  match s with
  | String c r => if isBracket c then trimLeft r else s
  | EmptyString => EmptyString
  end.

Definition trimBrackets (s : string) : string :=
  String.rev (trimLeft (String.rev (trimLeft s))).

Definition formatVirtualServerName (ip : string) (port : Z) : string :=
  "f5_crd_virtualserver_" +:+ AS3NameFormatter (trimBrackets ip) +:+ "_" +:+ formatInt port.

Definition formatVirtualServerPoolName (namespace svc nodeMemberLabel : string) : string :=
  let poolName := namespace +:+ "_" +:+ svc in
  let poolName := if String.eqb nodeMemberLabel "" then poolName
                  else poolName +:+ "_" +:+ nodeMemberLabel in
  AS3NameFormatter poolName.

(** [JoinBigipPath]. *)
Definition JoinBigipPath (partition objName : string) : string :=
  if String.eqb objName "" then ""
  else if String.eqb partition "" then objName
  else "/" +:+ partition +:+ "/" +:+ objName.

End Naming.

(** ** Data model: the virtual server

    The struct declarations live in the package's types file; the fields
    below are the ones this file reads or writes. *)

Record nameRef := mkNameRef { nrName : string; nrPartition : string }.

Record ProfileRef := mkProfileRef {
  prName : string;
  prPartition : string;
  prContext : string;
  prNamespace : string }.

Record virtualAddress := mkVirtualAddress { BindAddr : string; Port : Z }.

Record Virtual := mkVirtual {
  vName : string;
  vPartition : string;
  Destination : string;
  Enabled : bool;
  vPolicies : list nameRef;
  IRules : list string;
  Profiles : list ProfileRef;
  VirtualAddress : option virtualAddress }.

#[global] Instance nameRef_eq_dec : EqDecision nameRef.
Proof. solve_decision. Defined.
#[global] Instance ProfileRef_eq_dec : EqDecision ProfileRef.
Proof. solve_decision. Defined.

Definition set_Profiles (v : Virtual) (ps : list ProfileRef) : Virtual :=
  mkVirtual (vName v) (vPartition v) (Destination v) (Enabled v) (vPolicies v)
            (IRules v) ps (VirtualAddress v).

Definition set_vPolicies (v : Virtual) (ps : list nameRef) : Virtual :=
  mkVirtual (vName v) (vPartition v) (Destination v) (Enabled v) ps
            (IRules v) (Profiles v) (VirtualAddress v).

Definition set_address (v : Virtual) (dest : string) (va : option virtualAddress) : Virtual :=
  mkVirtual (vName v) (vPartition v) dest (Enabled v) (vPolicies v)
            (IRules v) (Profiles v) va.

Definition set_IRules (v : Virtual) (rules : list string) : Virtual :=
  mkVirtual (vName v) (vPartition v) (Destination v) (Enabled v) (vPolicies v)
            rules (Profiles v) (VirtualAddress v).

(** [Virtual.AddIRule]: the new virtual and the result. *)
Definition AddIRule (v : Virtual) (ruleName : string) : Virtual * bool :=
  if existsb (fun irule => String.eqb irule ruleName) (IRules v) then (v, false)
  else (set_IRules v (IRules v ++ [ruleName]), true).

(** ** Virtual addresses *)
Module Address.
Import GoStrings.

Definition isDigit (c : ascii) : bool := (("0" <=? c) && (c <=? "9"))%char.

Fixpoint allDigits (s : string) : bool :=
  match s with
  | EmptyString => true
  | String c r => isDigit c && allDigits r
  end.

(** The text before and after the first percent sign, if any. *)
Fixpoint cutPercent (s : string) : option (string * string) :=
  match s with
  | EmptyString => None
  | String c r =>
      if Ascii.eqb c "%"%char then Some (EmptyString, r)
      else match cutPercent r with
           | Some (a, b) => Some (String c a, b)
           | None => None
           end
  end.

(** [split_ip_with_route_domain]: the anchored regular expression
    of the source (any run of bytes other than the percent sign, one
    percent sign, one or more decimal digits) matches exactly when the
    text after the first percent sign is a non-empty run of digits. *)
Definition split_ip_with_route_domain (address : string) : string * string :=
  match cutPercent address with
  | Some (ip, rd) =>
      if negb (String.eqb rd "") && allDigits rd then (ip, rd) else (address, "")
  | None => (address, "")
  end.

Section SetVirtualAddress.
(** [net.ParseIP] and [IP.To4] belong to the Go library; [None] is
    the nil address. *)
Variable IP : Type.
Variable ParseIP : string -> option IP.
Variable To4 : IP -> option IP.

(** [Virtual.SetVirtualAddress]. *)
Definition SetVirtualAddress (v : Virtual) (bindAddr : string) (port : Z) : Virtual :=
  if String.eqb bindAddr "" && (port =? 0)%Z then
    set_address v "" None
  else
    let va := Some (mkVirtualAddress bindAddr port) in
    let '(ip, rd) := split_ip_with_route_domain bindAddr in
    let rd := if (0 <? String.length rd)%nat then "%" +:+ rd else rd in
    match ParseIP ip with
    | Some addr =>
        let sep := match To4 addr with Some _ => ":" | None => "." end in
        set_address v
          ("/" +:+ vPartition v +:+ "/" +:+ ip +:+ rd +:+ sep +:+ formatInt port) va
    | None => set_address v "" va
    end.
End SetVirtualAddress.

(** A dotted-quad reader, used to instantiate [ParseIP] on concrete
    inputs: four decimal fields of value at most 255. *)
Fixpoint decimalValue (acc : nat) (s : string) : nat :=
  match s with
  | EmptyString => acc
  | String c r => decimalValue (10 * acc + (nat_of_ascii c - 48)) r
  end.

Definition validOctet (s : string) : bool :=
  negb (String.eqb s "") && allDigits s && (String.length s <=? 3)%nat
  && (decimalValue 0 s <=? 255)%nat.

Definition dottedQuad (s : string) : option (list nat) :=
  let fields := Split s "."%char in
  if (length fields =? 4)%nat && forallb validOctet fields
  then Some (map (decimalValue 0) fields) else None.

End Address.

(** ** The sorted profile list *)
Module ProfileList.

(** [sort.Search(n, f)]: binary search for the least index in
    [0, n) at which [f] holds, [n] if there is none.  The loop runs
    while [i < j]; [j - i] shrinks at every turn, so [n] turns are
    enough. *)
Fixpoint searchLoop (fuel : nat) (f : nat -> bool) (i j : nat) : nat :=
  match fuel with
  | O => i
  | S fuel' =>
      if (i <? j)%nat then
        let h := ((i + j) / 2)%nat in
        if negb (f h) then searchLoop fuel' f (h + 1)%nat j
        else searchLoop fuel' f i h
      else i
  end.

Definition Search (n : nat) (f : nat -> bool) : nat := searchLoop n f 0%nat n.

(** [ProfileRefs.Less] on two elements. *)
Definition Less (a b : ProfileRef) : bool :=
  String.ltb (prPartition a) (prPartition b)
  || (String.eqb (prPartition a) (prPartition b)
      && String.ltb (prName a) (prName b)).

(** The [keyFunc] closure of [AddOrUpdateProfile]; [sort.Search] only
    calls it below the length. *)
Definition keyFunc (profiles : list ProfileRef) (prof : ProfileRef) (i : nat) : bool :=
  match profiles !! i with
  | Some p =>
      String.ltb (prPartition prof) (prPartition p)
      || (String.eqb (prPartition p) (prPartition prof)
          && negb (String.ltb (prName p) (prName prof)))
  | None => true
  end.

Definition lessP (a b : ProfileRef) : Prop := Less a b = true.

#[global] Instance lessP_dec : RelDecision lessP.
Proof. intros a b. unfold lessP. apply _. Defined.

Definition sameKey (p prof : ProfileRef) : bool :=
  String.eqb (prPartition p) (prPartition prof)
  && String.eqb (prName p) (prName prof).

(** [append] of a zero element, [copy] one place to the right from
    [i], then the store at [i]. *)
Definition insertAt (i : nat) (prof : ProfileRef) (l : list ProfileRef) : list ProfileRef :=
  take i l ++ prof :: drop i l.

(** [Virtual.AddOrUpdateProfile]: the new virtual and the result. *)
Definition AddOrUpdateProfile (v : Virtual) (prof : ProfileRef) : Virtual * bool :=
  let profCt := length (Profiles v) in
  let i := Search profCt (keyFunc (Profiles v) prof) in
  match Profiles v !! i with
  | Some p =>
      if sameKey p prof then
        if String.eqb (prContext p) (prContext prof) then (v, false)
        else (set_Profiles v (<[i := prof]> (Profiles v)), true)
      else (set_Profiles v (insertAt i prof (Profiles v)), true)
  | None => (set_Profiles v (insertAt i prof (Profiles v)), true)
  end.

(** A sequence of calls, results dropped. *)
Definition AddOrUpdateProfiles (v : Virtual) (profs : list ProfileRef) : Virtual :=
  fold_left (fun v p => fst (AddOrUpdateProfile v p)) profs v.

Definition profileKey (p : ProfileRef) : string * string := (prPartition p, prName p).

(** Sorted by [Less]: no element is [Less] than an earlier one. *)
Definition sortedProfiles (l : list ProfileRef) : Prop :=
  forall i j a b, l !! i = Some a -> l !! j = Some b -> (i < j)%nat -> Less b a = false.

End ProfileList.

(** ** Go maps

    Go leaves the order of [range] over a map unspecified: a loop over
    a map is modelled over an explicit enumeration of its keys, and the
    enumeration is an argument.  [rangeOf m l] says [l] is such an
    enumeration of [m]: every key once. *)
Definition rangeOf {K V} `{Countable K} (m : gmap K V) (l : list K) : Prop :=
  NoDup l /\ list_to_set l = dom m.

#[global] Instance rangeOf_dec {K V} `{Countable K} (m : gmap K V) l : Decision (rangeOf m l).
Proof. unfold rangeOf. apply _. Defined.

(** ** Dependency tracking *)
Module Dependencies.

Record ObjectDependency := mkDep {
  Kind : string;
  Namespace : string;
  Name : string;
  Service : string }.

#[global] Instance ObjectDependency_eq_dec : EqDecision ObjectDependency.
Proof. solve_decision. Defined.

#[global] Instance ObjectDependency_countable : Countable ObjectDependency.
Proof.
  refine (inj_countable'
            (fun d => (Kind d, Namespace d, Name d, Service d))
            (fun t => let '(k, n, m, s) := t in mkDep k n m s) _).
  by intros [].
Defined.

Definition RuleDep : string := "Rule".

(** [ObjectDependencies]: each dependency with its use count. *)
Abbreviation ObjectDependencies := (gmap ObjectDependency Z).
(** [ObjectDependencyMap]: the owning object to its dependencies. *)
Abbreviation ObjectDependencyMap := (gmap ObjectDependency (gmap ObjectDependency Z)).

(** The loop building [removed]: a dependency of kind Rule goes to the
    front, any other to the back. *)
Definition removedStep (newDeps : ObjectDependencies)
           (removed : list ObjectDependency) (oldDep : ObjectDependency)
  : list ObjectDependency :=
  match newDeps !! oldDep with
  | Some _ => removed
  | None =>
      if String.eqb (Kind oldDep) RuleDep then [oldDep] ++ removed
      else removed ++ [oldDep]
  end.

Definition addedStep (oldDeps : ObjectDependencies)
           (added : list ObjectDependency) (newDep : ObjectDependency)
  : list ObjectDependency :=
  match oldDeps !! newDep with
  | Some _ => added
  | None => added ++ [newDep]
  end.

(** [Resources.UpdateDependencies] on the [objDeps] field: the new
    field, [added] and [removed].  [oldOrder] and [newOrder] are the
    orders in which [range] visits the old and the new dependency
    maps; [lookupFunc] is not used by the body. *)
Definition UpdateDependencies (objDeps : ObjectDependencyMap)
           (newKey : ObjectDependency) (newDeps : ObjectDependencies)
           (lookupFunc : ObjectDependency -> bool)
           (oldOrder newOrder : list ObjectDependency)
  : ObjectDependencyMap * list ObjectDependency * list ObjectDependency :=
  let '(added, removed) :=
    match objDeps !! newKey with
    | Some oldDeps =>
        let removed := fold_left (removedStep newDeps) oldOrder [] in
        let added := fold_left (addedStep oldDeps) newOrder [] in
        (added, removed)
    | None =>
        (fold_left (fun (added : list ObjectDependency) newDep => (added ++ [newDep])%list)
                   newOrder [], [])
    end in
  (<[newKey := newDeps]> objDeps, added, removed).

(** [NewObjectDependencies].  The custom resource type is declared
    in the API package; the function reads its name, its namespace, the
    host and, of every pool, the path and the service.  The constant
    [VirtualServer] naming the kind of the key is declared in another
    file of the package.  A use count is at most the number of pools
    plus one, far below the range of a Go [int]. *)
Record vsPool := mkVsPool { vspPath : string; vspService : string }.

Record virtualServer := mkVirtualServer {
  vsName : string;
  vsNamespace : string;
  vsHost : string;
  vsPools : list vsPool }.

Definition poolDep (virtual : virtualServer) (pool : vsPool) : ObjectDependency :=
  mkDep RuleDep (vsNamespace virtual) (vsHost virtual +:+ vspPath pool) (vspService pool).

(** [deps[dep]++]: a missing key reads as zero. *)
Definition countDep (deps : ObjectDependencies) (dep : ObjectDependency) : ObjectDependencies :=
  <[dep := (default 0 (deps !! dep) + 1)%Z]> deps.

Definition NewObjectDependencies (VirtualServer : string) (virtual : virtualServer)
  : ObjectDependency * ObjectDependencies :=
  let key := mkDep VirtualServer (vsNamespace virtual) (vsName virtual) "" in
  let deps : ObjectDependencies := <[key := 1%Z]> ∅ in
  (key, fold_left (fun deps pool => countDep deps (poolDep virtual pool)) (vsPools virtual) deps).

Definition isRuleDep (d : ObjectDependency) : Prop := Kind d = RuleDep.

(** A run of Rule dependencies followed by a run of the others. *)
Definition rulesFirst (l : list ObjectDependency) : Prop :=
  exists front back,
    l = front ++ back /\ Forall isRuleDep front /\ Forall (fun d => ~ isRuleDep d) back.


(** How often a dependency is counted by the pools. *)
Definition poolUses (virtual : virtualServer) (d : ObjectDependency) (pools : list vsPool) : nat :=
  length (filter (fun pool => poolDep virtual pool = d) pools).
End Dependencies.

(** ** Internal data groups *)
Module DataGroups.
Import GoStrings.

Record InternalDataGroupRecord := mkRecord { recName : string; recData : string }.

Record InternalDataGroup := mkDataGroup {
  dgName : string;
  dgPartition : string;
  Records : list InternalDataGroupRecord }.

#[global] Instance InternalDataGroupRecord_eq_dec : EqDecision InternalDataGroupRecord.
Proof. solve_decision. Defined.
#[global] Instance InternalDataGroup_eq_dec : EqDecision InternalDataGroup.
Proof. solve_decision. Defined.

Definition FlattenConflictFunc : Type := string -> string -> string -> string.

Definition PassthroughHostsDgName := "ssl_passthrough_servername_dg".
Definition ReencryptHostsDgName := "ssl_reencrypt_servername_dg".
Definition EdgeHostsDgName := "ssl_edge_servername_dg".
Definition ReencryptServerSslDgName := "ssl_reencrypt_serverssl_dg".
Definition EdgeServerSslDgName := "ssl_edge_serverssl_dg".
Definition AbDeploymentDgName := "ab_deployment_dg".
Definition HttpsRedirectDgName := "https_redirect_dg".

(** [flattenConflictWarn]: prints the mismatch and keeps the old value. *)
Definition flattenConflictWarn (key oldVal newVal : string) : string := oldVal.

(** [flattenConflictConcat]: the tokens of both values as a set,
    sorted, joined with the delimiter. *)
Definition flattenConflictConcat (key oldVal newVal : string) : string :=
  let pathMap : gset string :=
    list_to_set (Split oldVal "|"%char) ∪ list_to_set (Split newVal "|"%char) in
  let paths := merge_sort String.le (elements pathMap) in
  String.concat "|" paths.

(** [groupFlattenFuncMap], in the order of the source. *)
Definition groupFlattenFuncTable : list (string * FlattenConflictFunc) :=
  [ (PassthroughHostsDgName, flattenConflictWarn);
    (ReencryptHostsDgName, flattenConflictWarn);
    (EdgeHostsDgName, flattenConflictWarn);
    (ReencryptServerSslDgName, flattenConflictWarn);
    (EdgeServerSslDgName, flattenConflictWarn);
    (HttpsRedirectDgName, flattenConflictConcat);
    (AbDeploymentDgName, flattenConflictConcat) ].

Fixpoint tableLookup (t : list (string * FlattenConflictFunc)) (name : string)
  : option FlattenConflictFunc :=
  match t with
  | [] => None
  | (k, f) :: rest => if String.eqb k name then Some f else tableLookup rest name
  end.

Definition groupFlattenFuncMap (name : string) : option FlattenConflictFunc :=
  tableLookup groupFlattenFuncTable name.

(** The handler [FlattenNamespaces] ends up calling for a group. *)
Definition conflictFuncFor (name : string) : FlattenConflictFunc :=
  match groupFlattenFuncMap name with
  | Some f => f
  | None => flattenConflictWarn
  end.

(** [InternalDataGroup.AddOrUpdateRecord] on the record list, with
    the same binary search as the profile list. *)
Definition nameKeyFunc (records : list InternalDataGroupRecord) (name : string) (i : nat) : bool :=
  match records !! i with
  | Some r => negb (String.ltb (recName r) name)
  | None => true
  end.

Definition AddOrUpdateRecord (records : list InternalDataGroupRecord) (name data : string)
  : list InternalDataGroupRecord * bool :=
  let i := ProfileList.Search (length records) (nameKeyFunc records name) in
  match records !! i with
  | Some r =>
      if String.eqb (recName r) name then
        if negb (String.eqb (recData r) data)
        then (<[i := mkRecord (recName r) data]> records, true)
        else (records, false)
      else (take i records ++ mkRecord name data :: drop i records, true)
  | None => (take i records ++ mkRecord name data :: drop i records, true)
  end.

(** [InternalDataGroup.RemoveRecord] on the record list. *)
Definition RemoveRecord (records : list InternalDataGroupRecord) (name : string)
  : list InternalDataGroupRecord * bool :=
  let nbrRecs := length records in
  let i := ProfileList.Search nbrRecs (nameKeyFunc records name) in
  match records !! i with
  | Some r => if String.eqb (recName r) name then (delete i records, true)
              else (records, false)
  | None => (records, false)
  end.

(** [NewInternalDataGroup]: the record list is empty, not nil. *)
Definition NewInternalDataGroup (name partition : string) : InternalDataGroup :=
  mkDataGroup name partition [].

(** One record of one group entering [flatMap]. *)
Definition flattenRecord (groupName : string) (flatMap : gmap string string)
           (rec : InternalDataGroupRecord) : gmap string string :=
  match flatMap !! recName rec with
  | Some item =>
      if negb (String.eqb item (recData rec)) then
        <[recName rec := conflictFuncFor groupName (recName rec) item (recData rec)]> flatMap
      else flatMap
  | None => <[recName rec := recData rec]> flatMap
  end.

(** One group of the outer loop: partition and name are taken from
    the first group that has them non-empty. *)
Definition flattenGroup (st : string * string * gmap string string) (dg : InternalDataGroup)
  : string * string * gmap string string :=
  let '(partition, name, flatMap) := st in
  let partition := if String.eqb partition "" then dgPartition dg else partition in
  let name := if String.eqb name "" then dgName dg else name in
  (partition, name, fold_left (flattenRecord (dgName dg)) (Records dg) flatMap).

(** The records as the map they stand for, and their order. *)
Definition recPair (r : InternalDataGroupRecord) : string * string := (recName r, recData r).

Definition recordsMap (records : list InternalDataGroupRecord) : gmap string string :=
  list_to_map (recPair <$> records).

(** The last loop of [FlattenNamespaces]. *)
Definition buildRecords (entries : list (string * string)) : list InternalDataGroupRecord :=
  fold_left (fun recs kv => fst (AddOrUpdateRecord recs kv.1 kv.2)) entries [].

Definition recLt (a b : InternalDataGroupRecord) : Prop :=
  String.ltb (recName a) (recName b) = true.

#[global] Instance recLt_dec : RelDecision recLt.
Proof. intros a b. unfold recLt. apply _. Defined.

(** What [FlattenNamespaces] returns: nil, one of the pointers held by
    the map, or a pointer to a group it has just built. *)
Inductive flattened :=
| FlatNil
| FlatSame (p : nat)
| FlatNew (dg : InternalDataGroup).

(** [DataGroupNamespaceMap.FlattenNamespaces].  The map holds
    pointers into [heap]; [nsOrder] is the order in which [range]
    visits the namespaces.  The last loop ranges over [flatMap]; each
    of its entries is inserted at its sorted place, so its order is
    taken to be that of [map_to_list].  [None] is the panic of a nil
    or dangling group pointer. *)
Definition FlattenNamespaces (heap : gmap nat InternalDataGroup)
           (dgnm : gmap string nat) (nsOrder : list string) : option flattened :=
  if (size dgnm =? 0)%nat then Some FlatNil
  else if (size dgnm =? 1)%nat then
    match nsOrder with
    | ns :: _ => FlatSame <$> dgnm !! ns
    | [] => None
    end
  else
    groups ← mapM (fun ns => dgnm !! ns ≫= fun p => heap !! p) nsOrder;
    let '(partition, name, flatMap) := fold_left flattenGroup groups ("", "", ∅) in
    Some (FlatNew (mkDataGroup name partition (buildRecords (map_to_list flatMap)))).


(** The tokens of both values, as the set the function builds. *)
Definition tokenSet (oldVal newVal : string) : gset string :=
  list_to_set (Split oldVal "|"%char) ∪ list_to_set (Split newVal "|"%char).
End DataGroups.

(** ** The Go heap of the policy engine

    Rules, actions and conditions are reached through pointers, a
    policy holds its rules in a slice of rule pointers, and a merge
    record holds a map; all of them are shared between the values that
    point to them.  A pointer is an address, [0] is nil. *)
Module Engine.
Import GoStrings.

Definition loc := nat.
Definition nil_ptr : loc := 0.

(** A slice header over an array of rule pointers: backing array,
    offset of the first element, length and capacity. *)
Record slice := mkSlice { sArr : loc; sOff : nat; sLen : nat; sCap : nat }.

Definition nilSlice : slice := mkSlice nil_ptr 0 0 0.

#[global] Instance slice_eq_dec : EqDecision slice.
Proof. solve_decision. Defined.

Record Rule := mkRule {
  rName : string;
  FullURI : string;
  Ordinal : Z;
  Actions : list loc;
  Conditions : list loc }.

#[global] Instance Rule_eq_dec : EqDecision Rule.
Proof. solve_decision. Defined.

(** [&Rule{}]. *)
Definition zeroRule : Rule := mkRule "" "" 0 [] [].

Definition set_Actions (r : Rule) (acts : list loc) : Rule :=
  mkRule (rName r) (FullURI r) (Ordinal r) acts (Conditions r).

Definition set_Ordinal (r : Rule) (o : Z) : Rule :=
  mkRule (rName r) (FullURI r) o (Actions r) (Conditions r).

Record Policy := mkPolicy {
  pName : string;
  pPartition : string;
  Controls : list string;
  Requires : list string;
  Rules : slice }.

#[global] Instance Policy_eq_dec : EqDecision Policy.
Proof. solve_decision. Defined.

Definition set_Rules (p : Policy) (s : slice) : Policy :=
  mkPolicy (pName p) (pPartition p) (Controls p) (Requires p) s.

Record metaData := mkMetaData { rscName : string; ResourceType : string; Active : bool }.

(** A merge record.  [MergedActions] is a map, hence a pointer to
    one; [OriginalRule] is a rule pointer. *)
Record mergedRuleEntry := mkEntry {
  RuleName : string;
  OtherRuleNames : list string;
  MergedActions : loc;
  OriginalRule : loc }.

Definition zeroEntry : mergedRuleEntry := mkEntry "" [] nil_ptr nil_ptr.

Definition set_OtherRuleNames (e : mergedRuleEntry) (l : list string) : mergedRuleEntry :=
  mkEntry (RuleName e) l (MergedActions e) (OriginalRule e).
Definition set_MergedActions (e : mergedRuleEntry) (m : loc) : mergedRuleEntry :=
  mkEntry (RuleName e) (OtherRuleNames e) m (OriginalRule e).
Definition set_OriginalRule (e : mergedRuleEntry) (p : loc) : mergedRuleEntry :=
  mkEntry (RuleName e) (OtherRuleNames e) (MergedActions e) p.

#[global] Instance mergedRuleEntry_eq_dec : EqDecision mergedRuleEntry.
Proof. solve_decision. Defined.

(** [map[string]map[string]mergedRuleEntry]: an inner map is only
    reached through the outer one, so both are values. *)
Abbreviation mergedRules := (gmap string (gmap string mergedRuleEntry)).

Section WithBodies.
(** The action and condition structs are declared in the package's
    types file.  This file reads their [Name], and the [Values] of a
    condition; every other field is only compared, by
    [reflect.DeepEqual]: those fields are the two bodies.  The pool
    member struct is only copied. *)
Context {ActionBody CondBody Member : Type}.
Context `{!EqDecision ActionBody, !EqDecision CondBody, !Inhabited CondBody}.

Record action := mkAction { aName : string; aBody : ActionBody }.

(** [cValues] is [None] for a nil slice: [reflect.DeepEqual] tells a
    nil slice from an empty one. *)
Record condition := mkCondition {
  cName : string;
  cValues : option (list string);
  cBody : CondBody }.

Record Pool := mkPool {
  poolName : string;
  poolPartition : string;
  ServiceName : string;
  ServicePort : Z;
  NodeMemberLabel : string;
  Members : list Member }.

Record ResourceConfig := mkResourceConfig {
  MetaData : metaData;
  rcVirtual : Virtual;
  Pools : list Pool;
  Policies : list Policy }.

Definition set_Policies (rc : ResourceConfig) (ps : list Policy) : ResourceConfig :=
  mkResourceConfig (MetaData rc) (rcVirtual rc) (Pools rc) ps.

Definition set_rcVirtual (rc : ResourceConfig) (v : Virtual) : ResourceConfig :=
  mkResourceConfig (MetaData rc) v (Pools rc) (Policies rc).

Record Heap := mkHeap {
  hRules : gmap loc Rule;
  hActions : gmap loc action;
  hConds : gmap loc condition;
  hArrays : gmap loc (list loc);
  hMaps : gmap loc (gmap string (list loc)) }.

Definition emptyHeap : Heap := mkHeap ∅ ∅ ∅ ∅ ∅.

(** A fresh address: neither nil nor in use. *)
Definition freshLoc {V} (m : gmap loc V) : loc := fresh ({[nil_ptr]} ∪ dom m).

(** *** Computations on the heap; [None] is a run-time panic. *)
Definition M (A : Type) : Type := Heap -> option (A * Heap).

Definition ret {A} (a : A) : M A := fun h => Some (a, h).
Definition bind {A B} (m : M A) (k : A -> M B) : M B :=
  fun h => match m h with
           | Some (a, h') => k a h'
           | None => None
           end.
Definition panic {A} : M A := fun _ => None.

Definition liftOpt {A} (o : option A) : M A :=
  fun h => match o with Some a => Some (a, h) | None => None end.

Notation "x <- c ;; k" := (bind c (fun x => k))
  (at level 20, c at level 99, k at level 200, only parsing).
Notation "' pat <- c ;; k" := (bind c (fun x => match x with pat => k end))
  (at level 20, pat pattern, c at level 99, k at level 200, only parsing).

Fixpoint foldM {A B} (f : B -> A -> M B) (l : list A) (b : B) : M B :=
  match l with
  | [] => ret b
  | a :: l' => b' <- f b a ;; foldM f l' b'
  end.

Fixpoint forM {A B} (f : A -> M B) (l : list A) : M (list B) :=
  match l with
  | [] => ret []
  | a :: l' => b <- f a ;; bs <- forM f l' ;; ret (b :: bs)
  end.

(** Dereferences: a nil or dangling pointer panics. *)
Definition readRule (p : loc) : M Rule := fun h => (fun r => (r, h)) <$> hRules h !! p.
Definition readAction (p : loc) : M action := fun h => (fun a => (a, h)) <$> hActions h !! p.
Definition readCond (p : loc) : M condition := fun h => (fun c => (c, h)) <$> hConds h !! p.

Definition writeRule (p : loc) (r : Rule) : M unit :=
  fun h => match hRules h !! p with
           | Some _ => Some (tt, mkHeap (<[p := r]> (hRules h)) (hActions h) (hConds h)
                                        (hArrays h) (hMaps h))
           | None => None
           end.

Definition allocRule (r : Rule) : M loc :=
  fun h => let p := freshLoc (hRules h) in
           Some (p, mkHeap (<[p := r]> (hRules h)) (hActions h) (hConds h)
                           (hArrays h) (hMaps h)).

Definition allocCond (c : condition) : M loc :=
  fun h => let p := freshLoc (hConds h) in
           Some (p, mkHeap (hRules h) (hActions h) (<[p := c]> (hConds h))
                           (hArrays h) (hMaps h)).

Definition allocArray (l : list loc) : M loc :=
  fun h => let p := freshLoc (hArrays h) in
           Some (p, mkHeap (hRules h) (hActions h) (hConds h)
                           (<[p := l]> (hArrays h)) (hMaps h)).

Definition writeArray (p : loc) (l : list loc) : M unit :=
  fun h => Some (tt, mkHeap (hRules h) (hActions h) (hConds h)
                            (<[p := l]> (hArrays h)) (hMaps h)).

(** [make(map[string][]*action)]. *)
Definition allocMap (m : gmap string (list loc)) : M loc :=
  fun h => let p := freshLoc (hMaps h) in
           Some (p, mkHeap (hRules h) (hActions h) (hConds h)
                           (hArrays h) (<[p := m]> (hMaps h))).

(** Reading a map through its pointer; a nil map reads as empty. *)
Definition readMap (p : loc) : M (gmap string (list loc)) :=
  fun h => Some (if (p =? nil_ptr)%nat then ∅ else default ∅ (hMaps h !! p), h).

Definition writeMap (p : loc) (m : gmap string (list loc)) : M unit :=
  fun h => match hMaps h !! p with
           | Some _ => Some (tt, mkHeap (hRules h) (hActions h) (hConds h)
                                        (hArrays h) (<[p := m]> (hMaps h)))
           | None => None
           end.

(** *** Slices of rule pointers *)

(** The elements seen through a header. *)
Definition viewArr (arr : list loc) (s : slice) : list loc :=
  take (sLen s) (drop (sOff s) arr).

Definition view (h : Heap) (s : slice) : list loc :=
  viewArr (default [] (hArrays h !! sArr s)) s.

Definition readSlice (s : slice) : M (list loc) := fun h => Some (view h s, h).

(** [s[i] = v]; the index is checked against the length. *)
Definition sliceSet (s : slice) (i : nat) (v : loc) : M unit :=
  fun h => if (i <? sLen s)%nat then
             match hArrays h !! sArr s with
             | Some arr => writeArray (sArr s) (<[(sOff s + i)%nat := v]> arr) h
             | None => None
             end
           else None.

(** [copy(a[lo:hi], a[lo+1:hi])] on a backing array: the places
    [lo+1 .. hi-1] move down by one, and place [hi-1] keeps its
    value. *)
Definition moveDown (arr : list loc) (lo hi : nat) : list loc :=
  take lo arr ++ take (hi - lo - 1) (drop (lo + 1) arr) ++ drop (hi - 1) arr.

(** [append(s[:i], s[i+1:]...)]: the capacity of [s[:i]] is that of
    [s], so the tail is moved down one place inside the backing
    array and the old last place keeps its value. *)
Definition sliceDeleteAt (s : slice) (i : nat) : M slice :=
  fun h => if (i + 1 <=? sLen s)%nat then
             match hArrays h !! sArr s with
             | Some arr =>
                 let arr' := moveDown arr (sOff s + i) (sOff s + sLen s) in
                 Some (mkSlice (sArr s) (sOff s) (sLen s - 1) (sCap s),
                       mkHeap (hRules h) (hActions h) (hConds h)
                              (<[sArr s := arr']> (hArrays h)) (hMaps h))
             | None => None
             end
           else None.

(** How far [append] grows a full slice is left to the Go run time:
    from the old capacity and the length needed it picks a capacity
    at least that length. *)
Variable growCap : nat -> nat -> nat.

(** [append(s, v)]: in place while the capacity lasts, otherwise
    into a new array. *)
Definition sliceAppend (s : slice) (v : loc) : M slice :=
  fun h => if (sLen s <? sCap s)%nat then
             match hArrays h !! sArr s with
             | Some arr =>
                 Some (mkSlice (sArr s) (sOff s) (sLen s + 1) (sCap s),
                       mkHeap (hRules h) (hActions h) (hConds h)
                              (<[sArr s := <[(sOff s + sLen s)%nat := v]> arr]> (hArrays h))
                              (hMaps h))
             | None => None
             end
           else
             let n := (sLen s + 1)%nat in
             let c := (n `max` growCap (sCap s) n)%nat in
             let p := freshLoc (hArrays h) in
             Some (mkSlice p 0 n c,
                   mkHeap (hRules h) (hActions h) (hConds h)
                          (<[p := view h s ++ v :: replicate (c - n) nil_ptr]> (hArrays h))
                          (hMaps h)).

(** *** Policies of a resource config *)

Definition GetName (rc : ResourceConfig) : string := vName (rcVirtual rc).

Definition hasControl (controlType : string) (pol : Policy) : bool :=
  existsb (String.eqb controlType) (Controls pol).

(** [ResourceConfig.FindPolicy]: the loop variable [pol] is a copy
    of the element, and the result points to that copy; [None] is
    nil.  The copy has its own [Name], [Partition] and slice
    headers, and its [Rules] header names the same backing array as
    the element it was copied from. *)
Definition FindPolicy (rc : ResourceConfig) (controlType : string) : option Policy :=
  find (hasControl controlType) (Policies rc).

Definition samePolicy (policy pol : Policy) : bool :=
  String.eqb (pName pol) (pName policy) && String.eqb (pPartition pol) (pPartition policy).

Fixpoint replacePolicy (policy : Policy) (pols : list Policy) : option (list Policy) :=
  match pols with
  | [] => None
  | pol :: rest =>
      if samePolicy policy pol then Some (policy :: rest)
      else (fun r => pol :: r) <$> replacePolicy policy rest
  end.

(** [ResourceConfig.SetPolicy]. *)
Definition SetPolicy (rc : ResourceConfig) (policy : Policy) : ResourceConfig :=
  let toFind := mkNameRef (pName policy) (pPartition policy) in
  let found := existsb (fun polName => bool_decide (toFind = polName))
                       (vPolicies (rcVirtual rc)) in
  let v := if found then rcVirtual rc
           else set_vPolicies (rcVirtual rc) (vPolicies (rcVirtual rc) ++ [toFind]) in
  match replacePolicy policy (Policies rc) with
  | Some pols => mkResourceConfig (MetaData rc) v (Pools rc) pols
  | None => mkResourceConfig (MetaData rc) v (Pools rc) (Policies rc ++ [policy])
  end.

Fixpoint removeFirst {A} (f : A -> bool) (l : list A) : list A :=
  match l with
  | [] => []
  | a :: rest => if f a then rest else a :: removeFirst f rest
  end.

(** [ResourceConfig.RemovePolicy]. *)
Definition RemovePolicy (rc : ResourceConfig) (policy : Policy) : ResourceConfig :=
  let toFind := mkNameRef (pName policy) (pPartition policy) in
  let v := set_vPolicies (rcVirtual rc)
             (removeFirst (fun polName => bool_decide (toFind = polName))
                          (vPolicies (rcVirtual rc))) in
  mkResourceConfig (MetaData rc) v (Pools rc) (removeFirst (samePolicy policy) (Policies rc)).

(** [Policy.RemoveRuleAt]: a negative offset panics in the slice
    expression. *)
Definition RemoveRuleAt (pol : Policy) (offset : Z) : M (Policy * bool) :=
  if (offset >=? Z.of_nat (sLen (Rules pol)))%Z then ret (pol, false)
  else if (offset <? 0)%Z then panic
  else
    let s := Rules pol in
    fun h =>
      match hArrays h !! sArr s with
      | Some arr =>
          let hi := (sOff s + sLen s)%nat in
          let moved := moveDown arr (sOff s + Z.to_nat offset) hi in
          (z <- allocRule zeroRule ;;
           _ <- writeArray (sArr s) (<[(hi - 1)%nat := z]> moved) ;;
           ret (set_Rules pol (mkSlice (sArr s) (sOff s) (sLen s - 1) (sCap s)), true)) h
      | None => None
      end.

(** The loop of [RemoveRules] that renumbers what is left. *)
Fixpoint fixOrdinals (i : nat) (rules : list loc) : M unit :=
  match rules with
  | [] => ret tt
  | p :: rest =>
      r <- readRule p ;;
      _ <- writeRule p (set_Ordinal r (Z.of_nat i)) ;;
      fixOrdinals (S i) rest
  end.

(** One call of [RemoveRuleAt] inside [RemoveRules], its result
    dropped. *)
Definition removeOne (pol : Policy) (offset : Z) : M Policy :=
  ' (pol', _) <- RemoveRuleAt pol offset ;; ret pol'.

(** [Policy.RemoveRules]: the offsets are taken from the last to
    the first. *)
Definition RemoveRules (pol : Policy) (ruleOffsets : list Z) : M (Policy * bool) :=
  if (0 <? length ruleOffsets)%nat then
    pol' <- foldM removeOne (rev ruleOffsets) pol ;;
    rules <- readSlice (Rules pol') ;;
    _ <- fixOrdinals 0 rules ;;
    ret (pol', true)
  else ret (pol, false).

(** *** The merge pass *)

Definition hasMarker (name : string) : bool :=
  Contains name "app-root" || Contains name "url-rewrite".

(** The comparison of two conditions inside [MergeRules]: both
    names are saved and blanked, the pointers are compared with
    [reflect.DeepEqual], and both names are put back.  The heap is
    left as it was; what is compared is every field but the name. *)
Definition condEqual (p q : loc) : M bool :=
  c1 <- readCond p ;;
  c2 <- readCond q ;;
  ret (bool_decide (cValues c1 = cValues c2 /\ cBody c1 = cBody c2)).

(** The same for two actions. *)
Definition actionEqual (p q : loc) : M bool :=
  a1 <- readAction p ;;
  a2 <- readAction q ;;
  ret (bool_decide (aBody a1 = aBody a2)).

(** [numMatches]: every pair of a condition of rule [i] and a
    condition of rule [j] that compare equal counts once. *)
Definition countMatch (k : loc) (n : nat) (l : loc) : M nat :=
  eq <- condEqual k l ;; ret (if eq then S n else n).

Definition countRow (condsJ : list loc) (n : nat) (k : loc) : M nat :=
  foldM (countMatch k) condsJ n.

Definition numMatches (condsI condsJ : list loc) : M nat :=
  foldM (countRow condsJ) condsI 0%nat.

(** The loop that moves the actions of the mergee [src] the merger
    [dst] does not have yet.  The inner loop has no [break]: it
    compares with every action of the merger, those appended by
    earlier turns included.  Each move makes a new [MergedActions]
    map for the merger entry. *)
Definition mergeAction (dst : loc) (srcName : string) (entry : mergedRuleEntry) (a : loc)
  : M mergedRuleEntry :=
  rd <- readRule dst ;;
  found <- foldM (fun found b => eq <- actionEqual a b ;; ret (found || eq))
                 (Actions rd) false ;;
  if found then ret entry
  else
    _ <- writeRule dst (set_Actions rd (Actions rd ++ [a])) ;;
    m <- allocMap ∅ ;;
    _ <- writeMap m {[ srcName := [a] ]} ;;
    ret (set_MergedActions entry m).

Definition mergeActions (src dst : loc) (srcName : string) (mergerEntry : mergedRuleEntry)
  : M mergedRuleEntry :=
  rs <- readRule src ;;
  foldM (mergeAction dst srcName) (Actions rs) mergerEntry.

(** The bookkeeping at the end of a matching pair. *)
Definition recordMerge (key : string) (mergerEntry mergeeEntry : mergedRuleEntry)
           (mergedRulesMap : mergedRules) : M mergedRules :=
  merged <- readMap (MergedActions mergerEntry) ;;
  if (size merged =? 0)%nat then ret mergedRulesMap
  else
    match mergedRulesMap !! key with
    | Some inner =>
        mergerEntry <-
          match inner !! RuleName mergerEntry with
          | Some entry =>
              let names :=
                if negb (existsb (String.eqb (default "" (head (OtherRuleNames mergerEntry))))
                                 (OtherRuleNames entry))
                then OtherRuleNames mergerEntry ++ OtherRuleNames entry
                else OtherRuleNames mergerEntry in
              old <- readMap (MergedActions entry) ;;
              _ <- (if (size old =? 0)%nat then ret tt
                    else writeMap (MergedActions mergerEntry) (old ∪ merged)) ;;
              ret (mkEntry (RuleName mergerEntry) names (MergedActions mergerEntry)
                           (OriginalRule entry))
          | None => ret mergerEntry
          end ;;
        let mergeeEntry :=
          match inner !! RuleName mergeeEntry with
          | Some entry => set_OriginalRule mergeeEntry (OriginalRule entry)
          | None => mergeeEntry
          end in
        ret (<[key := <[RuleName mergeeEntry := mergeeEntry]>
                         (<[RuleName mergerEntry := mergerEntry]> inner)]> mergedRulesMap)
    | None =>
        ret (<[key := <[RuleName mergeeEntry := mergeeEntry]>
                         (<[RuleName mergerEntry := mergerEntry]> ∅)]> mergedRulesMap)
    end.

Record mergeState := mkMergeState {
  iDeletedRuleIndices : list nat;
  jDeletedRuleIndices : list nat;
  msMap : mergedRules }.

(** The body of the inner loop for the rules at [i] and [j]. *)
Definition mergePair (key : string) (i j : nat) (pi pj : loc) (st : mergeState)
  : M mergeState :=
  rj <- readRule pj ;;
  if HasSuffix (rName rj) "-reset" then ret st
  else
    ri <- readRule pi ;;
    if negb (length (Conditions ri) =? length (Conditions rj))%nat then ret st
    else
      n <- numMatches (Conditions ri) (Conditions rj) ;;
      if negb (n =? length (Conditions ri))%nat then ret st
      else
        let iName := rName ri in
        let jName := rName rj in
        if (hasMarker iName && negb (hasMarker jName))
           || (hasMarker iName && hasMarker jName) then
          mergerEntry <- mergeActions pi pj iName (mkEntry jName [iName] nil_ptr pj) ;;
          m <- recordMerge key mergerEntry (mkEntry iName [jName] nil_ptr pi) (msMap st) ;;
          ret (mkMergeState (iDeletedRuleIndices st ++ [i]) (jDeletedRuleIndices st) m)
        else if negb (hasMarker iName) && hasMarker jName then
          mergerEntry <- mergeActions pj pi jName (mkEntry iName [jName] nil_ptr pi) ;;
          m <- recordMerge key mergerEntry (mkEntry jName [iName] nil_ptr pj) (msMap st) ;;
          ret (mkMergeState (iDeletedRuleIndices st) (jDeletedRuleIndices st ++ [j]) m)
        else
          m <- recordMerge key zeroEntry zeroEntry (msMap st) ;;
          ret (mkMergeState (iDeletedRuleIndices st) (jDeletedRuleIndices st) m).

Fixpoint innerLoop (key : string) (i j : nat) (pi : loc) (rest : list loc)
         (st : mergeState) : M mergeState :=
  match rest with
  | [] => ret st
  | pj :: rest' =>
      st' <- mergePair key i j pi pj st ;;
      innerLoop key i (S j) pi rest' st'
  end.

Fixpoint outerLoop (key : string) (i : nat) (rules : list loc) (st : mergeState)
  : M mergeState :=
  match rules with
  | [] => ret st
  | pi :: rest =>
      rl <- readRule pi ;;
      if HasSuffix (rName rl) "-reset" then outerLoop key (S i) rest st
      else
        st' <- innerLoop key i (S i) pi rest st ;;
        outerLoop key (S i) rest st'
  end.

(** The loop that keeps the first occurrence of every index. *)
Definition uniqueIndices (l : list nat) : list nat :=
  fold_left (fun u x => if existsb (Nat.eqb x) u then u else u ++ [x]) l [].

(** The loop that removes the merged rules: every turn lowers all
    the indices by one, so turn [t] removes at [index - t]; an index
    that falls below zero or beyond the slice panics. *)
Fixpoint deleteRules (t : nat) (indices : list nat) (rules : slice) : M slice :=
  match indices with
  | [] => ret rules
  | index :: rest =>
      if (index <? t)%nat then panic
      else
        rules' <- sliceDeleteAt rules (index - t) ;;
        deleteRules (S t) rest rules'
  end.

(** [ResourceConfig.MergeRules]. *)
Definition MergeRules (rc : ResourceConfig) (mergedRulesMap : mergedRules)
  : M (ResourceConfig * mergedRules) :=
  match FindPolicy rc "forwarding" with
  | None => ret (rc, mergedRulesMap)
  | Some policy =>
      rules <- readSlice (Rules policy) ;;
      st <- outerLoop (GetName rc) 0 rules (mkMergeState [] [] mergedRulesMap) ;;
      let deletedRuleIndices :=
        merge_sort Nat.le (iDeletedRuleIndices st ++ jDeletedRuleIndices st) in
      rules' <- deleteRules 0 (uniqueIndices deletedRuleIndices) (Rules policy) ;;
      ret (SetPolicy rc (set_Rules policy rules'), msMap st)
  end.

(** *** Unmerging *)

(** The first index whose rule has the given name; the loop reads
    every rule up to there. *)
Fixpoint findRuleNamed (name : string) (i : nat) (rules : list loc) : M (option nat) :=
  match rules with
  | [] => ret None
  | p :: rest =>
      r <- readRule p ;;
      if String.eqb (rName r) name then ret (Some i)
      else findRuleNamed name (S i) rest
  end.

Fixpoint indexOfName (name : string) (i : nat) (l : list string) : option nat :=
  match l with
  | [] => None
  | x :: rest => if String.eqb x name then Some i else indexOfName name (S i) rest
  end.

(** The indices [k] of [actions] holding the pointer [a]. *)
Fixpoint indicesOf (a : loc) (k : nat) (actions : list loc) : list nat :=
  match actions with
  | [] => []
  | b :: rest => (if (a =? b)%nat then [k] else []) ++ indicesOf a (S k) rest
  end.

(** The loop that takes the merged actions out of the merger; as in
    [deleteRules], turn [t] removes at [index - t]. *)
Fixpoint deleteActions (t : nat) (indices : list nat) (actions : list loc)
  : option (list loc) :=
  match indices with
  | [] => Some actions
  | index :: rest =>
      if (index <? t)%nat then None
      else if (index - t + 1 <=? length actions)%nat
           then deleteActions (S t) rest (delete (index - t)%nat actions)
           else None
  end.

(** The last step of [UnmergeRule]. *)
Definition dropEmpty (rsName : string) (mergedRulesMap : mergedRules) : mergedRules :=
  if (size (default ∅ (mergedRulesMap !! rsName)) =? 0)%nat
  then delete rsName mergedRulesMap else mergedRulesMap.

(** The branch of [UnmergeRule] for a rule other rules were merged
    into. *)
Definition unmergeMerger (rc : ResourceConfig) (rsName ruleName : string)
           (entry : mergedRuleEntry) (inner : gmap string mergedRuleEntry)
           (mergedRulesMap : mergedRules) : M (ResourceConfig * mergedRules) :=
  policy <- liftOpt (FindPolicy rc "forwarding") ;;
  rules <- readSlice (Rules policy) ;;
  found <- findRuleNamed (RuleName entry) 0 rules ;;
  rules1 <- match found with
            | Some i => sliceDeleteAt (Rules policy) i
            | None => ret (Rules policy)
            end ;;
  ' (rules2, inner2) <-
    foldM (fun '(rs, inn) mergeeRuleName =>
             let mergeeRuleEntry := default zeroEntry (inn !! mergeeRuleName) in
             rs' <- sliceAppend rs (OriginalRule mergeeRuleEntry) ;;
             ret (rs', delete mergeeRuleName inn))
          (OtherRuleNames entry) (rules1, inner) ;;
  let rc1 := SetPolicy rc (set_Rules policy rules2) in
  MergeRules rc1 (<[rsName := delete ruleName inner2]> mergedRulesMap).

(** The branch for a rule that was merged into another one.  The
    entry of the merger is a copy of the stored one: removing
    [ruleName] from its [OtherRuleNames] moves the names down inside
    the array the stored entry still sees at full length, and its
    [MergedActions] is the same map as that of the stored entry. *)
Definition unmergeMergee (rc : ResourceConfig) (rsName ruleName : string)
           (entry : mergedRuleEntry) (inner : gmap string mergedRuleEntry)
           (mergedRulesMap : mergedRules) : M (ResourceConfig * mergedRules) :=
  mergerRuleName <- liftOpt (head (OtherRuleNames entry)) ;;
  let mergerRuleEntry := default zeroEntry (inner !! mergerRuleName) in
  let names := OtherRuleNames mergerRuleEntry in
  let inner1 :=
    match inner !! mergerRuleName, indexOfName ruleName 0 names with
    | Some stored, Some i =>
        <[mergerRuleName :=
            set_OtherRuleNames stored (delete i names ++ drop (length names - 1) names)]> inner
    | _, _ => inner
    end in
  merged <- readMap (MergedActions mergerRuleEntry) ;;
  let mergedActions := default [] (merged !! ruleName) in
  _ <- (if (MergedActions mergerRuleEntry =? nil_ptr)%nat then ret tt
        else writeMap (MergedActions mergerRuleEntry) (delete ruleName merged)) ;;
  let inner2 := if (size (delete ruleName merged) =? 0)%nat
                then delete mergerRuleName inner1 else inner1 in
  let inner3 := delete ruleName inner2 in
  policy <- liftOpt (FindPolicy rc "forwarding") ;;
  rules <- readSlice (Rules policy) ;;
  found <- findRuleNamed mergerRuleName 0 rules ;;
  policy' <-
    match found with
    | Some i =>
        p <- liftOpt (rules !! i) ;;
        r <- readRule p ;;
        let deletedActionIndices :=
          flat_map (fun a => indicesOf a 0 (Actions r)) mergedActions in
        actions <- liftOpt (deleteActions 0 deletedActionIndices (Actions r)) ;;
        _ <- writeRule p (set_Actions r actions) ;;
        if (length actions =? 0)%nat then
          rules' <- sliceDeleteAt (Rules policy) i ;;
          ret (set_Rules policy rules')
        else ret policy
    | None => ret policy
    end ;;
  let rc' := if (sLen (Rules policy') =? 0)%nat then RemovePolicy rc policy'
             else SetPolicy rc policy' in
  ret (rc', <[rsName := inner3]> mergedRulesMap).

(** [ResourceConfig.UnmergeRule]. *)
Definition UnmergeRule (rc : ResourceConfig) (ruleName : string)
           (mergedRulesMap : mergedRules) : M (ResourceConfig * mergedRules * bool) :=
  let rsName := GetName rc in
  match mergedRulesMap !! rsName with
  | None => ret (rc, mergedRulesMap, false)
  | Some inner =>
      match inner !! ruleName with
      | None => ret (rc, mergedRulesMap, false)
      | Some entry =>
          ' (rc', m) <-
            (if negb (MergedActions entry =? nil_ptr)%nat
             then unmergeMerger rc rsName ruleName entry inner mergedRulesMap
             else unmergeMergee rc rsName ruleName entry inner mergedRulesMap) ;;
          ret (rc', dropEmpty rsName m, true)
      end
  end.

(** *** Adding and deleting one rule *)

(** The loop of [AddRuleToPolicy] and of [DeleteRuleFromPolicy]
    looking for a rule of the same name and URI as [rule]: every turn
    dereferences the element and [rule]. *)
Fixpoint findSameRule (rule : loc) (i : nat) (rules : list loc) : M (option nat) :=
  match rules with
  | [] => ret None
  | p :: rest =>
      r <- readRule p ;;
      t <- readRule rule ;;
      if String.eqb (rName r) (rName t) && String.eqb (FullURI r) (FullURI t)
      then ret (Some i)
      else findSameRule rule (S i) rest
  end.

(** [createPolicy] is declared in another file of the package; it is
    only reached when the config has no forwarding policy. *)
Variable createPolicy : slice -> string -> string -> M Policy.

(** [ResourceConfig.AddRuleToPolicy].  The policy is the copy
    [FindPolicy] returns: a store into its [Rules] goes to the shared
    backing array, an [append] changes the header of the copy, and
    [SetPolicy] puts the copy back. *)
Definition AddRuleToPolicy (rc : ResourceConfig) (policyName : string) (rule : loc)
  : M ResourceConfig :=
  match FindPolicy rc "forwarding" with
  | Some policy =>
      rules <- readSlice (Rules policy) ;;
      found <- findSameRule rule 0 rules ;;
      policy' <- match found with
                 | Some i =>
                     p <- liftOpt (rules !! i) ;;
                     r <- readRule p ;;
                     t <- readRule rule ;;
                     _ <- writeRule rule (set_Ordinal t (Ordinal r)) ;;
                     _ <- sliceSet (Rules policy) i rule ;;
                     ret policy
                 | None =>
                     rules' <- sliceAppend (Rules policy) rule ;;
                     ret (set_Rules policy rules')
                 end ;;
      ret (SetPolicy rc policy')
  | None =>
      arr <- allocArray [rule] ;;
      policy <- createPolicy (mkSlice arr 0 1 1) policyName (vPartition (rcVirtual rc)) ;;
      ret (SetPolicy rc policy)
  end.

(** [ResourceConfig.DeleteRuleFromPolicy].  [policy] is a copy of
    the first policy of that name, taken before [UnmergeRule] runs. *)
Definition DeleteRuleFromPolicy (rc : ResourceConfig) (policyName : string) (rule : loc)
           (mergedRulesMap : mergedRules) : M (ResourceConfig * mergedRules) :=
  match find (fun pol => String.eqb (pName pol) policyName) (Policies rc) with
  | None => ret (rc, mergedRulesMap)
  | Some policy =>
      rules <- readSlice (Rules policy) ;;
      found <- findSameRule rule 0 rules ;;
      match found with
      | None => ret (rc, mergedRulesMap)
      | Some i =>
          t <- readRule rule ;;
          ' (rc1, m1, unmerged) <- UnmergeRule rc (rName t) mergedRulesMap ;;
          if (sLen (Rules policy) =? 1)%nat && negb unmerged then
            ret (RemovePolicy rc1 policy, m1)
          else if negb unmerged then
            ' (policy', _) <- RemoveRules policy [Z.of_nat i] ;;
            ret (SetPolicy rc1 policy', m1)
          else ret (rc1, m1)
      end
  end.

(** [ResourceConfigs.GetAllPoolMembers], over the configs the
    pointers of the list lead to. *)
Definition GetAllPoolMembers (rcs : list ResourceConfig) : list Member :=
  fold_left (fun allPoolMembers cfg =>
               if Active (MetaData cfg) then
                 fold_left (fun all pool => all ++ Members pool) (Pools cfg) allPoolMembers
               else allPoolMembers)
            rcs [].

(** *** The previous-generation snapshot *)

(** The first loop of [copyConfig] over the rules of one policy:
    a new rule with room for as many actions, and new conditions
    with room for as many values.  The source rule and each of its
    conditions are read for their lengths. *)
Definition freshRuleFor (p : loc) : M loc :=
  z <- allocRule zeroRule ;;
  r <- readRule p ;;
  _ <- writeRule z (set_Actions zeroRule (replicate (length (Actions r)) nil_ptr)) ;;
  conds <- forM (fun c =>
                   cd <- readCond c ;;
                   allocCond (mkCondition ""
                                (Some (replicate (length (default [] (cValues cd))) ""))
                                inhabitant))
                (Conditions r) ;;
  _ <- writeRule z (mkRule "" "" 0 (replicate (length (Actions r)) nil_ptr) conds) ;;
  ret z.

(** One policy of [copyConfig].  [Controls] and [Requires] are
    copied into new arrays.  [Rules] gets a new array that is first
    filled with the new rules, and then overwritten by
    [copy(rc.Policies[i].Rules, cfg.Policies[i].Rules)] with the
    rule pointers of the source; the copies of actions, conditions
    and values that follow copy every source rule onto itself. *)
Definition copyPolicy (pol : Policy) : M Policy :=
  srcRules <- readSlice (Rules pol) ;;
  arr <- allocArray (replicate (length srcRules) nil_ptr) ;;
  news <- forM freshRuleFor srcRules ;;
  _ <- writeArray arr news ;;
  _ <- writeArray arr srcRules ;;
  _ <- forM (fun p => r <- readRule p ;; forM readCond (Conditions r)) srcRules ;;
  ret (mkPolicy (pName pol) (pPartition pol) (Controls pol) (Requires pol)
                (mkSlice arr 0 (length srcRules) (length srcRules))).

(** [ResourceConfig.copyConfig] into a new config. *)
Definition copyConfig (cfg : ResourceConfig) : M ResourceConfig :=
  pols <- forM copyPolicy (Policies cfg) ;;
  ret (mkResourceConfig (MetaData cfg) (rcVirtual cfg) (Pools cfg) pols).

Record Resources := mkResources {
  rsMap : gmap string ResourceConfig;
  oldRsMap : gmap string ResourceConfig }.

(** [Resources.updateOldConfig]; [order] is the order in which
    [range] visits [rsMap]. *)
Definition updateOldConfig (rs : Resources) (order : list string) : M Resources :=
  old <- foldM (fun old k =>
                  v <- liftOpt (rsMap rs !! k) ;;
                  c <- copyConfig v ;;
                  ret (<[k := c]> old))
               order ∅ ;;
  ret (mkResources (rsMap rs) old).

(** *** What a config holds, pointers followed *)

Definition ruleContents (h : Heap) (p : loc)
  : option (string * string * Z * list (option action) * list (option condition)) :=
  (fun r => (rName r, FullURI r, Ordinal r,
             map (fun a => hActions h !! a) (Actions r),
             map (fun c => hConds h !! c) (Conditions r))) <$> hRules h !! p.

Definition policyContents (h : Heap) (pol : Policy) :=
  (pName pol, pPartition pol, Controls pol, Requires pol,
   map (ruleContents h) (view h (Rules pol))).

Definition configContents (h : Heap) (rc : ResourceConfig) :=
  (MetaData rc, rcVirtual rc, Pools rc, map (policyContents h) (Policies rc)).

(** The ordinals of the rules of a policy, in order. *)
Definition ordinals (h : Heap) (pol : Policy) : list (option Z) :=
  (fun p => Ordinal <$> hRules h !! p) <$> view h (Rules pol).

(** The ordinals are [0 .. N-1] for the [N] rules of the policy. *)
Definition contiguousOrdinals (h : Heap) (pol : Policy) : Prop :=
  ordinals h pol = (fun i => Some (Z.of_nat i)) <$> seq 0 (length (view h (Rules pol))).

(** A policy whose slice lies inside an allocated array and holds
    pointers to allocated rules, each once. *)
Definition policyOk (h : Heap) (pol : Policy) : Prop :=
  (exists arr, hArrays h !! sArr (Rules pol) = Some arr
               /\ (sOff (Rules pol) + sLen (Rules pol) <= length arr)%nat)
  /\ Forall (fun p => is_Some (hRules h !! p)) (view h (Rules pol))
  /\ NoDup (view h (Rules pol)).

(** *** When two rules merge

    The tests of [MergeRules] on a pair of rules, read off the
    heap without running the pass. *)

Definition condsEqualAt (conds : gmap loc condition) (p q : loc) : option bool :=
  c1 ← conds !! p;
  c2 ← conds !! q;
  Some (bool_decide (cValues c1 = cValues c2 /\ cBody c1 = cBody c2)).

Fixpoint matchesInRow (conds : gmap loc condition) (k : loc) (condsJ : list loc) (n : nat)
  : option nat :=
  match condsJ with
  | [] => Some n
  | l :: rest =>
      same ← condsEqualAt conds k l;
      matchesInRow conds k rest (if same : bool then S n else n)
  end.

Fixpoint matchesFrom (conds : gmap loc condition) (condsI condsJ : list loc) (n : nat)
  : option nat :=
  match condsI with
  | [] => Some n
  | k :: rest =>
      n' ← matchesInRow conds k condsJ n;
      matchesFrom conds rest condsJ n'
  end.

(** Do the condition sets of two rules match, as [MergeRules]
    counts it?  [None] when the count panics. *)
Definition conditionsMatch (h : Heap) (ri rj : Rule) : option bool :=
  if negb (length (Conditions ri) =? length (Conditions rj))%nat then Some false
  else
    n ← matchesFrom (hConds h) (Conditions ri) (Conditions rj) 0;
    Some (n =? length (Conditions ri))%nat.

(** A pair of rules the pass looks at and leaves alone: one of
    them is a reset rule, or their conditions do not match, or
    neither name carries a marker. *)
Definition quietPair (h : Heap) (pa pb : loc) : bool :=
  match hRules h !! pa, hRules h !! pb with
  | Some ra, Some rb =>
      HasSuffix (rName ra) "-reset" || HasSuffix (rName rb) "-reset"
      || match conditionsMatch h ra rb with
         | Some false => true
         | Some true => negb (hasMarker (rName ra)) && negb (hasMarker (rName rb))
         | None => false
         end
  | _, _ => false
  end.

(** No two rules of [rules] merge, the pair of [pi] and [pj]
    aside. *)
Definition othersQuiet (h : Heap) (rules : list loc) (pi pj : loc) : Prop :=
  Forall (fun pa =>
            Forall (fun pb => pa = pb \/ (pa = pi /\ pb = pj) \/ (pa = pj /\ pb = pi)
                              \/ quietPair h pa pb = true) rules) rules.

(** The action [a] compares equal, name aside, to none of the
    actions [bs]. *)
Definition actionIsNew (h : Heap) (a : loc) (bs : list loc) : bool :=
  match hActions h !! a with
  | Some x =>
      forallb (fun b => match hActions h !! b with
                        | Some y => negb (bool_decide (aBody x = aBody y))
                        | None => false
                        end) bs
  | None => false
  end.

Definition allocated (h : Heap) (acts : list loc) : Prop :=
  Forall (fun a => is_Some (hActions h !! a)) acts.

Definition rulesAllocated (h : Heap) (rules : list loc) : Prop :=
  Forall (fun p => is_Some (hRules h !! p)) rules.

(** The names of the rules, in order. *)
Definition ruleNames (h : Heap) (rules : list loc) : list (option string) :=
  (fun p => rName <$> hRules h !! p) <$> rules.

(** Two heaps that agree on the conditions and on the name and the
    condition list of every rule. *)
Definition sameShape (h h' : Heap) : Prop :=
  hConds h' = hConds h
  /\ forall p r, hRules h !! p = Some r ->
                 exists r', hRules h' !! p = Some r' /\ rName r' = rName r
                            /\ Conditions r' = Conditions r.

(** What the pass leaves when the rule at [pm] (the mergee) has been
    folded into the rule at [pr] (the merger): the two merge
    records, the merger with the new actions at the end of its list,
    a fresh [MergedActions] map, and everything else as it was. *)
Definition folded (key : string) (pm pr : loc) (rm rr : Rule)
           (m0 : mergedRules) (h h' : Heap) (m' : mergedRules) : Prop :=
  exists extra mp a,
    m' = <[key := <[rName rm := mkEntry (rName rm) [rName rr] nil_ptr pm]>
                    (<[rName rr := mkEntry (rName rr) [rName rm] mp pr]> ∅)]> m0
    /\ hRules h' = <[pr := set_Actions rr (Actions rr ++ extra)]> (hRules h)
    /\ hActions h' = hActions h /\ hConds h' = hConds h /\ hArrays h' = hArrays h
    /\ mp <> nil_ptr /\ hMaps h' !! mp = Some {[ rName rm := [a] ]}.

(** *** Writes through a policy pointer

    What the callers of [FindPolicy] do with the pointer they get:
    they assign to a field of the policy it points to, or they
    store a rule pointer into an element of its [Rules]. *)
Inductive policyWrite :=
| AssignName (name : string)
| AssignPartition (partition : string)
| AssignControls (controls : list string)
| AssignRequires (requires : list string)
| AssignRules (rules : slice)
| StoreRule (i : nat) (rule : loc).

Definition isAssignment (w : policyWrite) : bool :=
  match w with
  | StoreRule _ _ => false
  | _ => true
  end.

Definition applyWrite (w : policyWrite) (pol : Policy) : M Policy :=
  match w with
  | AssignName n => ret (mkPolicy n (pPartition pol) (Controls pol) (Requires pol) (Rules pol))
  | AssignPartition n => ret (mkPolicy (pName pol) n (Controls pol) (Requires pol) (Rules pol))
  | AssignControls c => ret (mkPolicy (pName pol) (pPartition pol) c (Requires pol) (Rules pol))
  | AssignRequires r => ret (mkPolicy (pName pol) (pPartition pol) (Controls pol) r (Rules pol))
  | AssignRules s => ret (set_Rules pol s)
  | StoreRule i p => _ <- sliceSet (Rules pol) i p ;; ret pol
  end.

End WithBodies.

(** ** Predicates the properties are stated with *)

Section Predicates.
Context {ActionBody CondBody Member : Type}.
Context `{!EqDecision ActionBody, !EqDecision CondBody}.

(** What [SetPolicy] and [RemovePolicy] tell policies apart by. *)
Definition policyKey (pol : Policy) : string * string := (pName pol, pPartition pol).

Definition policyRef (pol : Policy) : nameRef := mkNameRef (pName pol) (pPartition pol).

(** The test of [AddRuleToPolicy] and [DeleteRuleFromPolicy]: same
    name and same URI. *)
Definition sameRule (r t : Rule) : bool :=
  String.eqb (rName r) (rName t) && String.eqb (FullURI r) (FullURI t).

(** The pointer [q] leads to a rule that fails that test against [t]. *)
Definition otherRule (h : @Heap ActionBody CondBody) (t : Rule) (q : loc) : bool :=
  match hRules h !! q with
  | Some rq => negb (sameRule rq t)
  | None => false
  end.

(** No two rules of the list merge. *)
Definition allQuiet (h : @Heap ActionBody CondBody) (rules : list loc) : Prop :=
  Forall (fun pa => Forall (fun pb => pa = pb \/ quietPair h pa pb = true) rules) rules.

(** A rule pointer [copyConfig] can follow: the rule is there, and so
    are its conditions. *)
Definition ruleReadable (h : @Heap ActionBody CondBody) (p : loc) : bool :=
  match hRules h !! p with
  | Some r => forallb (fun c => bool_decide (is_Some (hConds h !! c))) (Conditions r)
  | None => false
  end.

(** A policy whose rule list is empty or has its backing array, and
    whose rule pointers can be followed. *)
Definition policyReadable (h : @Heap ActionBody CondBody) (pol : Policy) : bool :=
  ((sLen (Rules pol) =? 0)%nat || bool_decide (is_Some (hArrays h !! sArr (Rules pol))))
  && forallb (ruleReadable h) (view h (Rules pol)).

(** Everything on [h] is on [h'] unchanged; [h'] may hold more rules,
    conditions and arrays. *)
Definition heapGrows (h h' : @Heap ActionBody CondBody) : Prop :=
  hRules h ⊆ hRules h' /\ hActions h' = hActions h /\ hConds h ⊆ hConds h'
  /\ hArrays h ⊆ hArrays h' /\ hMaps h' = hMaps h.

End Predicates.
End Engine.

(** * Concrete inputs *)
Module Examples.

Definition exampleVirtual : Virtual :=
  mkVirtual "f5_crd_virtualserver_10_1_1_1_443" "test" "" true [] [] [] None.

(** A virtual server with one dependency of kind Rule, before and
    after its path changes. *)
Definition depA := Dependencies.mkDep "VirtualServer" "default" "vs1" "".
Definition depR1 := Dependencies.mkDep "Rule" "default" "foo.com/a" "svc1".
Definition depR2 := Dependencies.mkDep "Rule" "default" "foo.com/b" "svc1".
Definition oldDepsAR1 : gmap Dependencies.ObjectDependency Z := <[depA := 1%Z]> {[depR1 := 1%Z]}.
Definition newDepsAR2 : gmap Dependencies.ObjectDependency Z := <[depA := 1%Z]> {[depR2 := 1%Z]}.

(** A virtual with two profiles, and profiles to add to it. *)
Definition profClient := mkProfileRef "clientssl" "Common" "clientside" "default".
Definition profServer := mkProfileRef "serverssl" "Common" "serverside" "default".
Definition profApp := mkProfileRef "app" "test" "clientside" "ns1".
Definition profClientAll := mkProfileRef "clientssl" "Common" "all" "ns2".
Definition profClientOther := mkProfileRef "clientssl" "Common" "all" "ns3".

Definition virtualWithProfiles : Virtual :=
  mkVirtual "vs" "test" "" true [] [] [profClient; profServer] None.

(** A config with one forwarding policy of two rules on the same
    path: a URL-rewrite rule and the forwarding rule of the pool.
    Their conditions differ in name only; their actions differ. *)
Import Engine.

Definition growDouble (cap needed : nat) : nat := 2 * cap.

Definition actRewrite : @action string := mkAction "0" "replace http-uri path /bar".
Definition actForward : @action string := mkAction "0" "forward pool default_svc1".
Definition condRewrite : @condition string := mkCondition "0" (Some ["/foo"]) "http-uri path equals".
Definition condForward : @condition string := mkCondition "1" (Some ["/foo"]) "http-uri path equals".

Definition ruleRewrite : Rule := mkRule "url-rewrite-rule-foo" "foo.com/foo" 0 [1] [1].
Definition ruleForward : Rule := mkRule "vs_foo_svc1" "foo.com/foo" 1 [2] [2].

Definition heap0 : @Heap string string :=
  mkHeap {[ 1 := ruleRewrite; 2 := ruleForward ]}
         {[ 1 := actRewrite; 2 := actForward ]}
         {[ 1 := condRewrite; 2 := condForward ]}
         {[ 1 := [1; 2] ]} ∅.

Definition policy0 : Policy :=
  mkPolicy "vs_policy" "test" ["forwarding"] [] (mkSlice 1 0 2 2).

Definition virtual0 : Virtual :=
  mkVirtual "vs" "test" "" true [mkNameRef "vs_policy" "test"] [] [] None.

Definition config0 : @ResourceConfig string :=
  mkResourceConfig (mkMetaData "vs1" "VirtualServer" true) virtual0 [] [policy0].

(** The same policy with a third rule, on another path, behind the
    two. *)
Definition actOther : @action string := mkAction "0" "forward pool default_svc2".
Definition condOther : @condition string := mkCondition "0" (Some ["/bar"]) "http-uri path equals".
Definition ruleOther : Rule := mkRule "vs_bar_svc2" "foo.com/bar" 2 [3] [3].

Definition heap1 : @Heap string string :=
  mkHeap {[ 1 := ruleRewrite; 2 := ruleForward; 3 := ruleOther ]}
         {[ 1 := actRewrite; 2 := actForward; 3 := actOther ]}
         {[ 1 := condRewrite; 2 := condForward; 3 := condOther ]}
         {[ 1 := [1; 2; 3] ]} ∅.

Definition policy1 : Policy :=
  mkPolicy "vs_policy" "test" ["forwarding"] [] (mkSlice 1 0 3 3).

Definition config1 : @ResourceConfig string :=
  mkResourceConfig (mkMetaData "vs1" "VirtualServer" true) virtual0 [] [policy1].

(** Two namespaces giving different pools for one server name, and
    two namespaces giving different paths for one redirect host. *)
Definition dgPass1 : DataGroups.InternalDataGroup :=
  DataGroups.mkDataGroup "ssl_passthrough_servername_dg" "test"
                         [DataGroups.mkRecord "x" "a"].
Definition dgPass2 : DataGroups.InternalDataGroup :=
  DataGroups.mkDataGroup "ssl_passthrough_servername_dg" "test"
                         [DataGroups.mkRecord "w" "c"; DataGroups.mkRecord "x" "b"].
Definition dgRedirect1 : DataGroups.InternalDataGroup :=
  DataGroups.mkDataGroup "https_redirect_dg" "test" [DataGroups.mkRecord "foo.com" "/b|/a"].
Definition dgRedirect2 : DataGroups.InternalDataGroup :=
  DataGroups.mkDataGroup "https_redirect_dg" "test" [DataGroups.mkRecord "foo.com" "/c|/a"].

Definition dgHeap : gmap nat DataGroups.InternalDataGroup :=
  {[ 1%nat := dgPass1; 2%nat := dgPass2; 3%nat := dgRedirect1; 4%nat := dgRedirect2 ]}.

Definition dgnmPass : gmap string nat := {[ "ns1" := 1%nat; "ns2" := 2%nat ]}.
Definition dgnmRedirect : gmap string nat := {[ "ns1" := 3%nat; "ns2" := 4%nat ]}.

(** The store holding that config, no snapshot taken yet. *)
Definition resources0 : @Resources string :=
  mkResources {[ "vs" := config0 ]} ∅.


(** The last two rules of the three-rule policy: they do not merge. *)
Definition policyTail : Policy :=
  mkPolicy "vs_policy" "test" ["forwarding"] [] (mkSlice 1 1 2 2).

Definition configTail : @ResourceConfig string :=
  mkResourceConfig (mkMetaData "vs1" "VirtualServer" true) virtual0 [] [policyTail].

(** A rule for the path of the forwarding rule, not in any policy. *)
Definition ruleForwardNew : Rule := mkRule "vs_foo_svc1" "foo.com/foo" 7 [3] [2].

Definition heapNew : @Heap string string :=
  mkHeap {[ 1 := ruleRewrite; 2 := ruleForward; 3 := ruleOther;
            4 := ruleForwardNew ]}
         {[ 1 := actRewrite; 2 := actForward; 3 := actOther ]}
         {[ 1 := condRewrite; 2 := condForward; 3 := condOther ]}
         {[ 1 := [1; 2; 3] ]} ∅.

(** [createPolicy] for concrete runs that never reach it. *)
Definition noCreatePolicy (rules : slice) (name partition : string) : @M string string Policy :=
  panic.
End Examples.

(** * Properties *)

(** ** Go strings and naming *)

Example formatInt_examples :
  GoStrings.formatInt 443 = "443" /\ GoStrings.formatInt 0 = "0"
  /\ GoStrings.formatInt (-12) = "-12".
Proof. repeat split; reflexivity. Qed.

Example HasSuffix_examples :
  GoStrings.HasSuffix "rule-reset" "-reset" = true
  /\ GoStrings.HasSuffix "reset" "-reset" = false.
Proof. split; reflexivity. Qed.

Example Split_examples :
  GoStrings.Split "a|b||c" "|"%char = ["a"; "b"; ""; "c"]
  /\ GoStrings.Split "" "|"%char = [""].
Proof. split; reflexivity. Qed.

Example formatVirtualServerName_example :
  Naming.formatVirtualServerName "[10.1.1.1%20]" 80 = "f5_crd_virtualserver_10_1_1_1.20_80".
Proof. reflexivity. Qed.

Lemma ReplacerReplace_get pairs name i c :
  String.get i name = Some c ->
  String.get i (GoStrings.ReplacerReplace pairs name) = Some (GoStrings.replaceByte pairs c).
Proof.
  revert i. induction name as [|x name IH]; intros [|i] Hget; simpl in *; try discriminate.
  - by inversion Hget.
  - by apply IH.
Qed.

Lemma ReplacerReplace_length pairs name :
  String.length (GoStrings.ReplacerReplace pairs name) = String.length name.
Proof. induction name; simpl; congruence. Qed.

(** C7, as the spec words it: the formatter would keep the dots of
    ["10.1.1.1%20"].  It does not. *)
Lemma C7_counterexample :
  Naming.AS3NameFormatter "10.1.1.1%20" <> "10.1.1.1.20".
Proof. vm_compute. discriminate. Qed.

(** C7, amended: [AS3NameFormatter "ns1/svc:8080"] is ["ns1_svc_8080"];
    wherever the name has a percent sign the result has a dot at the
    same position; and ["10.1.1.1%20"] becomes ["10_1_1_1.20"], its dots
    turned into underscores like every other dot. *)
Theorem C7_AS3NameFormatter :
  Naming.AS3NameFormatter "ns1/svc:8080" = "ns1_svc_8080"
  /\ (forall name i,
        String.get i name = Some "%"%char ->
        String.get i (Naming.AS3NameFormatter name) = Some "."%char)
  /\ Naming.AS3NameFormatter "10.1.1.1%20" = "10_1_1_1.20".
Proof.
  split; [reflexivity|]. split; [|reflexivity].
  intros name i Hget. unfold Naming.AS3NameFormatter.
  by rewrite (ReplacerReplace_get _ _ _ _ Hget).
Qed.

Lemma C7_AS3NameFormatter_witness :
  String.get 8 "10.1.1.1%20" = Some "%"%char
  /\ String.get 8 (Naming.AS3NameFormatter "10.1.1.1%20") = Some "."%char.
Proof.
  split; [reflexivity|].
  apply (proj1 (proj2 C7_AS3NameFormatter) "10.1.1.1%20" 8%nat). reflexivity.
Defined.

(** ** Virtual addresses *)

Example split_ip_with_route_domain_examples :
  Address.split_ip_with_route_domain "10.1.1.1%20" = ("10.1.1.1", "20")
  /\ Address.split_ip_with_route_domain "10.1.1.1" = ("10.1.1.1", "")
  /\ Address.split_ip_with_route_domain "10.1.1.1%" = ("10.1.1.1%", "")
  /\ Address.split_ip_with_route_domain "10.1.1.1%2a" = ("10.1.1.1%2a", "")
  /\ Address.split_ip_with_route_domain "a%1%2" = ("a%1%2", "").
Proof. repeat split; reflexivity. Qed.

Example dottedQuad_examples :
  Address.dottedQuad "10.1.1.1" = Some [10; 1; 1; 1]%nat
  /\ Address.dottedQuad "10.1.1" = None
  /\ Address.dottedQuad "10.1.1.256" = None.
Proof. repeat split; reflexivity. Qed.

(** C6: [SetVirtualAddress("", 0)] clears the virtual address and the
    destination; on partition ["test"], ["10.1.1.1"] (which [net.ParseIP]
    reads as an IPv4 address) and port 443 give ["/test/10.1.1.1:443"];
    and whenever the part of the bind address before the route domain
    is not an IP address for [net.ParseIP], the destination is empty. *)
Theorem C6_SetVirtualAddress (IP : Type) (ParseIP : string -> option IP)
        (To4 : IP -> option IP) :
  (forall v,
      VirtualAddress (Address.SetVirtualAddress IP ParseIP To4 v "" 0) = None
      /\ Destination (Address.SetVirtualAddress IP ParseIP To4 v "" 0) = "")
  /\ (forall v a a4,
        vPartition v = "test" -> ParseIP "10.1.1.1" = Some a -> To4 a = Some a4 ->
        Destination (Address.SetVirtualAddress IP ParseIP To4 v "10.1.1.1" 443)
        = "/test/10.1.1.1:443")
  /\ (forall v bindAddr port,
        ParseIP (fst (Address.split_ip_with_route_domain bindAddr)) = None ->
        Destination (Address.SetVirtualAddress IP ParseIP To4 v bindAddr port) = "").
Proof.
  split; [|split].
  - intros v. split; reflexivity.
  - intros v a a4 Hpart Hparse H4. unfold Address.SetVirtualAddress. simpl.
    rewrite Hparse, H4. simpl. by rewrite Hpart.
  - intros v bindAddr port Hparse. unfold Address.SetVirtualAddress.
    destruct (String.eqb bindAddr "" && (port =? 0)%Z); [reflexivity|].
    destruct (Address.split_ip_with_route_domain bindAddr) as [ip rd]. simpl in Hparse.
    by rewrite Hparse.
Qed.

Lemma C6_SetVirtualAddress_witness :
  Destination (Address.SetVirtualAddress (list nat) Address.dottedQuad Some
                 Examples.exampleVirtual "10.1.1.1" 443) = "/test/10.1.1.1:443"
  /\ Destination (Address.SetVirtualAddress (list nat) Address.dottedQuad Some
                    Examples.exampleVirtual "10.1.1%20" 80) = "".
Proof.
  split.
  - apply (proj1 (proj2 (C6_SetVirtualAddress (list nat) Address.dottedQuad Some))
             Examples.exampleVirtual [10; 1; 1; 1]%nat [10; 1; 1; 1]%nat); reflexivity.
  - apply (proj2 (proj2 (C6_SetVirtualAddress (list nat) Address.dottedQuad Some))
             Examples.exampleVirtual "10.1.1%20" 80%Z). reflexivity.
Defined.

(** ** Dependency tracking *)

Section DependencyFacts.
Import Dependencies.

Lemma removedStep_rulesFirst newDeps removed d :
  rulesFirst removed -> rulesFirst (removedStep newDeps removed d).
Proof.
  intros (front & back & -> & Hf & Hb). unfold removedStep.
  destruct (newDeps !! d); [by exists front, back|].
  destruct (String.eqb_spec (Kind d) RuleDep) as [Hk|Hk].
  - exists (d :: front), back. repeat split; auto.
  - exists front, (back ++ [d]). repeat split; auto.
    + by rewrite app_assoc.
    + apply Forall_app. split; auto.
Qed.

Lemma fold_removedStep_rulesFirst newDeps order removed :
  rulesFirst removed -> rulesFirst (fold_left (removedStep newDeps) order removed).
Proof.
  revert removed. induction order as [|d order IH]; intros removed H; simpl; [done|].
  apply IH. by apply removedStep_rulesFirst.
Qed.

Lemma rulesFirst_order l i j d1 d2 :
  rulesFirst l -> l !! i = Some d1 -> l !! j = Some d2 ->
  isRuleDep d1 -> ~ isRuleDep d2 -> (i < j)%nat.
Proof.
  intros (front & back & -> & Hf & Hb) H1 H2 Hr1 Hr2.
  destruct (decide (i < length front)%nat) as [Hi|Hi].
  - destruct (decide (j < length front)%nat) as [Hj|Hj]; [|lia].
    rewrite lookup_app_l in H2 by done.
    rewrite Forall_lookup in Hf. by specialize (Hf _ _ H2).
  - rewrite lookup_app_r in H1 by lia.
    rewrite Forall_lookup in Hb. by specialize (Hb _ _ H1).
Qed.

Lemma removedStep_perm newDeps order removed :
  fold_left (removedStep newDeps) order removed
  ≡ₚ removed ++ filter (fun d => newDeps !! d = None) order.
Proof.
  revert removed. induction order as [|d order IH]; intros removed; simpl.
  - by rewrite app_nil_r.
  - rewrite IH. unfold removedStep. rewrite filter_cons.
    destruct (newDeps !! d) eqn:Hd.
    + by rewrite decide_False by done.
    + rewrite decide_True by done.
      destruct (String.eqb (Kind d) RuleDep); simpl.
      * by rewrite Permutation_middle.
      * by rewrite <- app_assoc.
Qed.

Lemma addedStep_filter oldDeps order added :
  fold_left (addedStep oldDeps) order added
  = added ++ filter (fun d => oldDeps !! d = None) order.
Proof.
  revert added. induction order as [|d order IH]; intros added; simpl.
  - by rewrite app_nil_r.
  - rewrite IH. unfold addedStep. rewrite filter_cons.
    destruct (oldDeps !! d) eqn:Hd.
    + by rewrite decide_False by done.
    + rewrite decide_True by done. by rewrite <- app_assoc.
Qed.

Lemma rangeOf_pair {V} (m : gmap ObjectDependency V) a b va vb l :
  a <> b -> m = <[a := va]> {[b := vb]} -> rangeOf m l -> l ≡ₚ [a; b].
Proof.
  intros Hne -> [Hnd Hin]. apply NoDup_Permutation; [done| |].
  - apply NoDup_cons. split; [|apply NoDup_singleton].
    rewrite list_elem_of_singleton. done.
  - intros k. rewrite <- (elem_of_list_to_set (C := gset ObjectDependency)), Hin.
    rewrite dom_insert_L, dom_singleton_L, elem_of_union, !elem_of_singleton.
    rewrite !elem_of_cons, elem_of_nil. tauto.
Qed.

End DependencyFacts.

(** C5: when a dependency set is already recorded for [newKey], then
    whatever order the map loops run in, every removed dependency of
    kind Rule stands before every removed dependency of another kind;
    and with old dependencies [A] and [R1] and new dependencies [A] and
    [R2], [removed] is [[R1]] and [added] is [[R2]]. *)
Theorem C5_UpdateDependencies
        (objDeps : gmap Dependencies.ObjectDependency (gmap Dependencies.ObjectDependency Z))
        (newKey : Dependencies.ObjectDependency)
        (oldDeps newDeps : gmap Dependencies.ObjectDependency Z)
        (lookupFunc : Dependencies.ObjectDependency -> bool)
        (oldOrder newOrder : list Dependencies.ObjectDependency) :
  objDeps !! newKey = Some oldDeps ->
  rangeOf oldDeps oldOrder ->
  rangeOf newDeps newOrder ->
  let '(objDeps', added, removed) :=
    Dependencies.UpdateDependencies objDeps newKey newDeps lookupFunc oldOrder newOrder in
  objDeps' !! newKey = Some newDeps
  /\ (forall i j d1 d2,
         removed !! i = Some d1 -> removed !! j = Some d2 ->
         Dependencies.Kind d1 = Dependencies.RuleDep ->
         Dependencies.Kind d2 <> Dependencies.RuleDep -> (i < j)%nat)
  /\ (forall A R1 R2 cA cA' c1 c2,
         Dependencies.Kind R1 = Dependencies.RuleDep ->
         Dependencies.Kind R2 = Dependencies.RuleDep ->
         A <> R1 -> A <> R2 -> R1 <> R2 ->
         oldDeps = <[A := cA]> {[R1 := c1]} ->
         newDeps = <[A := cA']> {[R2 := c2]} ->
         removed = [R1] /\ added = [R2]).
Proof.
  intros Hold HrO HrN. unfold Dependencies.UpdateDependencies. rewrite Hold.
  split; [by rewrite lookup_insert_eq|]. split.
  - intros i j d1 d2 H1 H2 Hk1 Hk2.
    eapply rulesFirst_order; eauto.
    apply fold_removedStep_rulesFirst. exists [], []. by repeat split.
  - intros A R1 R2 cA cA' c1 c2 _ _ HA1 HA2 H12 HoldE HnewE. split.
    + pose proof (removedStep_perm newDeps oldOrder []) as Hp. simpl in Hp.
      pose proof (rangeOf_pair _ _ _ _ _ _ HA1 HoldE HrO) as Hq.
      assert (filter (fun d => newDeps !! d = None) oldOrder
              ≡ₚ filter (fun d => newDeps !! d = None) [A; R1]) as Hf by by rewrite Hq.
      rewrite !filter_cons, filter_nil in Hf.
      rewrite decide_False in Hf
        by (subst newDeps; rewrite lookup_insert_eq; discriminate).
      rewrite decide_True in Hf
        by (subst newDeps; rewrite lookup_insert_ne, lookup_singleton_ne; done).
      rewrite Hf in Hp. by apply Permutation_singleton_r in Hp.
    + rewrite addedStep_filter. simpl.
      pose proof (rangeOf_pair _ _ _ _ _ _ HA2 HnewE HrN) as Hp.
      assert (filter (fun d => oldDeps !! d = None) newOrder
              ≡ₚ filter (fun d => oldDeps !! d = None) [A; R2]) as Hf by by rewrite Hp.
      rewrite !filter_cons, filter_nil in Hf.
      rewrite decide_False in Hf
        by (subst oldDeps; rewrite lookup_insert_eq; discriminate).
      rewrite decide_True in Hf
        by (subst oldDeps; rewrite lookup_insert_ne, lookup_singleton_ne; done).
      by apply Permutation_singleton_r in Hf.
Qed.

Lemma C5_UpdateDependencies_witness :
  Dependencies.UpdateDependencies {[Examples.depA := Examples.oldDepsAR1]} Examples.depA
    Examples.newDepsAR2 (fun _ => true)
    [Examples.depR1; Examples.depA] [Examples.depA; Examples.depR2]
  = ({[Examples.depA := Examples.newDepsAR2]}, [Examples.depR2], [Examples.depR1]).
Proof.
  pose proof (C5_UpdateDependencies {[Examples.depA := Examples.oldDepsAR1]} Examples.depA
                Examples.oldDepsAR1 Examples.newDepsAR2 (fun _ => true)
                [Examples.depR1; Examples.depA] [Examples.depA; Examples.depR2]) as H.
  destruct (Dependencies.UpdateDependencies _ _ _ _ _ _) as [[objDeps' added] removed] eqn:E.
  destruct H as (_ & _ & H).
  - apply lookup_singleton_eq.
  - refine (bool_decide_unpack _ _). vm_compute. exact I.
  - refine (bool_decide_unpack _ _). vm_compute. exact I.
  - destruct (H Examples.depA Examples.depR1 Examples.depR2 1%Z 1%Z 1%Z 1%Z) as [-> ->];
      try reflexivity; try discriminate.
    unfold Dependencies.UpdateDependencies in E.
    rewrite lookup_singleton_eq in E. inversion E. by rewrite insert_singleton_eq.
Defined.

(** ** The sorted profile list *)

Section StringOrder.

Lemma compare_refl s : String.compare s s = Eq.
Proof.
  induction s as [|a s IH]; simpl; [done|].
  unfold Ascii.compare. by rewrite N.compare_refl.
Qed.

Lemma ltb_irrefl s : String.ltb s s = false.
Proof. unfold String.ltb. by rewrite compare_refl. Qed.

Lemma ltb_le a b : String.ltb a b = true <-> String.le a b /\ a <> b.
Proof.
  unfold String.le, String.ltb, String.leb. split.
  - destruct (String.compare a b) eqn:E; try discriminate. intros _. split; [done|].
    intros ->. by rewrite compare_refl in E.
  - intros [Hle Hne]. destruct (String.compare a b) eqn:E; try done.
    by apply String.compare_eq_iff in E.
Qed.

Lemma ltb_trans a b c :
  String.ltb a b = true -> String.ltb b c = true -> String.ltb a c = true.
Proof.
  rewrite !ltb_le. intros [Hab Hne] [Hbc Hne']. split.
  - by etrans.
  - intros ->. apply Hne. by apply (anti_symm String.le).
Qed.

Lemma ltb_asym a b : String.ltb a b = true -> String.ltb b a = false.
Proof.
  intros H. destruct (String.ltb b a) eqn:E; [|done].
  pose proof (ltb_trans _ _ _ H E) as Hc. by rewrite ltb_irrefl in Hc.
Qed.

Lemma ltb_trichotomy a b : String.ltb a b = true \/ a = b \/ String.ltb b a = true.
Proof.
  destruct (decide (a = b)) as [->|Hne]; [auto|].
  destruct (total String.le a b) as [H|H].
  - left. by apply ltb_le.
  - right; right. apply ltb_le. split; [done|congruence].
Qed.

End StringOrder.

Section ProfileFacts.
Import ProfileList.

(** *** [sort.Search] *)

Lemma searchLoop_spec fuel f n i j :
  (forall a b, (a <= b < n)%nat -> f a = true -> f b = true) ->
  (j - i <= fuel)%nat -> (i <= j <= n)%nat ->
  (forall k, (k < i)%nat -> f k = false) ->
  (forall k, (j <= k < n)%nat -> f k = true) ->
  (i <= searchLoop fuel f i j <= j)%nat
  /\ (forall k, (k < searchLoop fuel f i j)%nat -> f k = false)
  /\ (forall k, (searchLoop fuel f i j <= k < n)%nat -> f k = true).
Proof.
  intros Hmono. revert i j.
  induction fuel as [|fuel IH]; intros i j Hfuel Hij Hlo Hhi; cbn [searchLoop].
  - assert (i = j) as -> by lia. repeat split; auto; lia.
  - destruct (Nat.ltb_spec i j) as [Hlt|Hge].
    + assert (Hh : (i <= (i + j) / 2 < j)%nat).
      { split; [apply Nat.div_le_lower_bound; lia|apply Nat.Div0.div_lt_upper_bound; lia]. }
      set (h := ((i + j) / 2)%nat) in *.
      destruct (f h) eqn:Hf; cbn [negb].
      * destruct (IH i h) as (Hr & Hr1 & Hr2); try lia; auto.
        { intros k Hk. apply (Hmono h); [lia|done]. }
        repeat split; auto; lia.
      * destruct (IH (h + 1)%nat j) as (Hr & Hr1 & Hr2); try lia; auto.
        { intros k Hk. destruct (f k) eqn:Hfk; [|done].
          rewrite <- Hf. symmetry. apply (Hmono k); [lia|done]. }
        repeat split; auto; lia.
    + assert (i = j) as -> by lia. repeat split; auto; lia.
Qed.

Lemma Search_spec n f :
  (forall a b, (a <= b < n)%nat -> f a = true -> f b = true) ->
  (Search n f <= n)%nat
  /\ (forall k, (k < Search n f)%nat -> f k = false)
  /\ (forall k, (Search n f <= k < n)%nat -> f k = true).
Proof.
  intros Hmono. unfold Search.
  destruct (searchLoop_spec n f n 0 n Hmono) as (Hr & Hr1 & Hr2); try lia.
  repeat split; auto; lia.
Qed.

(** *** The order on profiles *)

Lemma Less_irrefl a : Less a a = false.
Proof. unfold Less. by rewrite !ltb_irrefl, andb_false_r. Qed.

Lemma Less_trans a b c : Less a b = true -> Less b c = true -> Less a c = true.
Proof.
  unfold Less. rewrite !orb_true_iff, !andb_true_iff, !String.eqb_eq.
  intros [H1|[E1 H1]] [H2|[E2 H2]].
  - left. by eapply ltb_trans.
  - left. by rewrite <- E2.
  - left. by rewrite E1.
  - right. split; [congruence|by eapply ltb_trans].
Qed.

Lemma sameKey_eq a b : sameKey a b = true <-> profileKey a = profileKey b.
Proof.
  unfold sameKey, profileKey. rewrite andb_true_iff, !String.eqb_eq.
  split; [intros [-> ->]; done|intros [= -> ->]; done].
Qed.

Lemma Less_total a b : Less a b = false -> Less b a = false -> sameKey a b = true.
Proof.
  unfold Less, sameKey. rewrite !orb_false_iff, !andb_false_iff.
  intros [H1 H1'] [H2 H2'].
  destruct (ltb_trichotomy (prPartition a) (prPartition b)) as [H|[H|H]]; try congruence.
  rewrite H, String.eqb_refl in *. simpl.
  destruct H1' as [?|H1']; [done|]. destruct H2' as [?|H2']; [done|].
  destruct (ltb_trichotomy (prName a) (prName b)) as [H'|[H'|H']]; try congruence.
  by rewrite H', String.eqb_refl.
Qed.

Lemma Less_sameKey_l a b c : sameKey a b = true -> Less a c = Less b c.
Proof. rewrite sameKey_eq. unfold Less, profileKey. by intros [= -> ->]. Qed.

Lemma Less_sameKey_r a b c : sameKey a b = true -> Less c a = Less c b.
Proof. rewrite sameKey_eq. unfold Less, profileKey. by intros [= -> ->]. Qed.

Lemma keyFunc_Less l prof i p :
  l !! i = Some p -> keyFunc l prof i = negb (Less p prof).
Proof.
  intros Hp. unfold keyFunc, Less. rewrite Hp.
  destruct (ltb_trichotomy (prPartition p) (prPartition prof)) as [H|[H|H]].
  - rewrite H, (ltb_asym _ _ H). simpl.
    destruct (String.eqb_spec (prPartition p) (prPartition prof)) as [E|E]; [|done].
    rewrite E, ltb_irrefl in H. done.
  - by rewrite H, ltb_irrefl, String.eqb_refl.
  - rewrite H, (ltb_asym _ _ H). simpl.
    destruct (String.eqb_spec (prPartition p) (prPartition prof)) as [E|E]; [|done].
    rewrite E, ltb_irrefl in H. done.
Qed.

(** Sorted with no two equal keys is strictly sorted, and back. *)
Lemma strictly_sorted l :
  sortedProfiles l /\ NoDup (profileKey <$> l) <-> StronglySorted lessP l.
Proof.
  split.
  - intros [Hs Hn]. induction l as [|a l IH]; [constructor|].
    inversion Hn as [|? ? Hnotin Hn']; subst. constructor.
    + apply IH; [|done]. intros i j x y Hi Hj Hij. apply (Hs (S i) (S j)); auto; lia.
    + apply Forall_forall. intros b Hb. apply list_elem_of_lookup in Hb as [j Hj].
      pose proof (Hs 0%nat (S j) a b eq_refl Hj ltac:(lia)) as Hba.
      unfold lessP. destruct (Less a b) eqn:Hab; [done|]. exfalso. apply Hnotin.
      pose proof (Less_total a b Hab Hba) as Hk. apply sameKey_eq in Hk. rewrite Hk.
      apply list_elem_of_fmap. exists b. split; [done|].
      apply list_elem_of_lookup. eauto.
  - intros Hs. induction Hs as [|a l Hs [IH1 IH2] Hall]; [split; [|constructor]|].
    + intros i j a b Hi. by rewrite lookup_nil in Hi.
    + rewrite Forall_forall in Hall. split.
      * intros [|i] [|j] x y Hi Hj Hij; simpl in *; try lia.
        -- inversion Hi; subst. destruct (Less y x) eqn:E; [|done].
           assert (lessP x y) as Hxy by (apply Hall, list_elem_of_lookup; eauto).
           pose proof (Less_trans _ _ _ Hxy E) as Hc. by rewrite Less_irrefl in Hc.
        -- apply (IH1 i j); auto; lia.
      * rewrite fmap_cons. constructor; [|done]. intros Hin.
        apply list_elem_of_fmap in Hin as (b & Hk & Hb).
        specialize (Hall _ Hb). unfold lessP in Hall.
        apply sameKey_eq in Hk.
        rewrite (Less_sameKey_l a b b Hk), Less_irrefl in Hall. done.
Qed.

End ProfileFacts.

Section AddOrUpdateProfileFacts.
Import ProfileList.

Lemma StronglySorted_lookup_lt l i j a b :
  StronglySorted lessP l -> l !! i = Some a -> l !! j = Some b -> (i < j)%nat -> lessP a b.
Proof.
  intros Hs Hi Hj Hij.
  rewrite <- (take_drop j l) in Hs.
  apply (StronglySorted_app_1_elem_of _ _ _ a b Hs).
  - apply list_elem_of_lookup. exists i. by rewrite lookup_take_lt.
  - apply list_elem_of_lookup. exists 0%nat. by rewrite lookup_drop, Nat.add_0_r.
Qed.

Lemma keyFunc_mono l prof a b :
  StronglySorted lessP l ->
  (a <= b < length l)%nat -> keyFunc l prof a = true -> keyFunc l prof b = true.
Proof.
  intros Hs [Hab Hb] Ha.
  destruct (lookup_lt_is_Some_2 l a ltac:(lia)) as [pa Hpa].
  destruct (lookup_lt_is_Some_2 l b Hb) as [pb Hpb].
  rewrite (keyFunc_Less _ _ _ _ Hpa) in Ha. rewrite (keyFunc_Less _ _ _ _ Hpb).
  destruct (decide (a = b)) as [->|Hne]; [congruence|].
  pose proof (StronglySorted_lookup_lt _ _ _ _ _ Hs Hpa Hpb ltac:(lia)) as Hlt.
  destruct (Less pb prof) eqn:E; [|done].
  rewrite (Less_trans _ _ _ Hlt E) in Ha. done.
Qed.

(** What the binary search of [AddOrUpdateProfile] finds in a
    strictly sorted list: everything before is below the profile,
    nothing from there on is. *)
Lemma Search_profiles l prof :
  StronglySorted lessP l ->
  let r := Search (length l) (keyFunc l prof) in
  (r <= length l)%nat
  /\ (forall k p, (k < r)%nat -> l !! k = Some p -> Less p prof = true)
  /\ (forall k p, (r <= k)%nat -> l !! k = Some p -> Less p prof = false).
Proof.
  intros Hs r.
  destruct (Search_spec (length l) (keyFunc l prof)) as (Hr & Hlo & Hhi).
  { intros a b Hab. by apply keyFunc_mono. }
  split; [done|]. split.
  - intros k p Hk Hp. specialize (Hlo k Hk).
    rewrite (keyFunc_Less _ _ _ _ Hp) in Hlo. by destruct (Less p prof).
  - intros k p Hk Hp. pose proof (lookup_lt_Some _ _ _ Hp) as Hlen.
    specialize (Hhi k ltac:(fold r; lia)).
    rewrite (keyFunc_Less _ _ _ _ Hp) in Hhi. by destruct (Less p prof).
Qed.

Lemma AddOrUpdateProfile_sorted v prof :
  StronglySorted lessP (Profiles v) ->
  StronglySorted lessP (Profiles (AddOrUpdateProfile v prof).1).
Proof.
  intros Hs. pose proof (Search_profiles _ prof Hs) as (Hr & Hlo & Hhi).
  unfold AddOrUpdateProfile.
  set (l := Profiles v) in *. set (r := Search (length l) (keyFunc l prof)) in *.
  assert (Hbefore : forall x, x ∈ take r l -> lessP x prof).
  { intros x [k Hk]%list_elem_of_lookup.
    apply lookup_take_Some in Hk as [Hk Hkr]. by apply (Hlo k). }
  assert (Htake : StronglySorted lessP (take r l)).
  { rewrite <- (take_drop r l) in Hs. by apply StronglySorted_app_1_l in Hs. }
  destruct (l !! r) as [p|] eqn:Hp.
  - assert (Hafter : forall x, x ∈ drop (S r) l -> lessP p x).
    { intros x [k Hk]%list_elem_of_lookup. rewrite lookup_drop in Hk.
      apply (StronglySorted_lookup_lt l r (S r + k)); auto; lia. }
    assert (Hdrop : StronglySorted lessP (drop (S r) l)).
    { rewrite <- (take_drop (S r) l) in Hs. by apply StronglySorted_app_1_r in Hs. }
    pose proof (Hhi r p ltac:(lia) Hp) as Hpp.
    destruct (sameKey p prof) eqn:Hk.
    + destruct (String.eqb (prContext p) (prContext prof)); [done|].
      simpl. rewrite insert_take_drop by (by eapply lookup_lt_Some).
      apply StronglySorted_app_2; [|done|].
      * intros x y Hx Hy. apply Hbefore in Hx.
        apply elem_of_cons in Hy as [->|Hy]; [done|].
        apply Hafter in Hy. unfold lessP in *.
        rewrite (Less_sameKey_l _ _ _ Hk) in Hy. by eapply Less_trans.
      * constructor; [done|]. apply Forall_forall. intros y Hy.
        apply Hafter in Hy. unfold lessP in *. by rewrite <- (Less_sameKey_l _ _ _ Hk).
    + simpl. unfold insertAt.
      assert (Hprof : lessP prof p).
      { unfold lessP. destruct (Less prof p) eqn:E; [done|].
        by rewrite (Less_total _ _ Hpp E) in Hk. }
      assert (Hall : forall x, x ∈ drop r l -> lessP prof x).
      { intros x Hx. rewrite (drop_S _ _ _ Hp) in Hx.
        apply elem_of_cons in Hx as [->|Hx]; [done|].
        unfold lessP in *. eapply Less_trans; [exact Hprof|by apply Hafter]. }
      apply StronglySorted_app_2; [|done|].
      * intros x y Hx Hy. apply Hbefore in Hx.
        apply elem_of_cons in Hy as [->|Hy]; [done|].
        unfold lessP in *. eapply Less_trans; [exact Hx|by apply Hall].
      * constructor; [|by apply Forall_forall].
        rewrite <- (take_drop r l) in Hs. by apply StronglySorted_app_1_r in Hs.
  - simpl. unfold insertAt. apply lookup_ge_None in Hp.
    rewrite drop_ge by done.
    apply StronglySorted_app_2; [|done|repeat constructor].
    intros x y Hx Hy. apply list_elem_of_singleton in Hy as ->. by apply Hbefore.
Qed.

Lemma AddOrUpdateProfile_present v prof p :
  StronglySorted lessP (Profiles v) ->
  p ∈ Profiles v ->
  prPartition p = prPartition prof -> prName p = prName prof ->
  prContext p = prContext prof ->
  AddOrUpdateProfile v prof = (v, false).
Proof.
  intros Hs [k Hk]%list_elem_of_lookup HP HN HC.
  pose proof (Search_profiles _ prof Hs) as (Hr & Hlo & Hhi).
  unfold AddOrUpdateProfile.
  set (l := Profiles v) in *. set (r := Search (length l) (keyFunc l prof)) in *.
  assert (Hsame : sameKey p prof = true).
  { unfold sameKey. by rewrite HP, HN, !String.eqb_refl. }
  assert (r = k) as ->.
  { destruct (decide (k < r)%nat) as [Hlt|Hge].
    - pose proof (Hlo k p Hlt Hk) as Hc.
      by rewrite (Less_sameKey_l _ _ _ Hsame), Less_irrefl in Hc.
    - destruct (decide (r = k)) as [|Hne]; [done|].
      pose proof (lookup_lt_Some _ _ _ Hk) as Hlen.
      destruct (lookup_lt_is_Some_2 l r ltac:(lia)) as [q Hq].
      pose proof (Hhi r q ltac:(lia) Hq) as Hc.
      pose proof (StronglySorted_lookup_lt _ _ _ _ _ Hs Hq Hk ltac:(lia)) as Hqp.
      unfold lessP in Hqp. apply sameKey_eq in Hsame.
      assert (sameKey prof p = true) as Hsame' by by apply sameKey_eq.
      by rewrite (Less_sameKey_r _ _ _ Hsame'), Hqp in Hc. }
  rewrite Hk, Hsame, HC, String.eqb_refl. done.
Qed.

Lemma AddOrUpdateProfiles_sorted profs v :
  StronglySorted lessP (Profiles v) ->
  StronglySorted lessP (Profiles (AddOrUpdateProfiles v profs)).
Proof.
  revert v. induction profs as [|p profs IH]; intros v Hs; [done|].
  apply IH. by apply AddOrUpdateProfile_sorted.
Qed.

End AddOrUpdateProfileFacts.

(** C4: starting from a profile list sorted by (partition, name) with
    no two profiles of the same (partition, name), the list reached by
    any sequence of [AddOrUpdateProfile] calls is again sorted with no
    such duplicate; and on it, a call with a profile that is present
    with the same context returns false and changes nothing. *)
Theorem C4_AddOrUpdateProfile (v : Virtual) (profs : list ProfileRef) :
  ProfileList.sortedProfiles (Profiles v) ->
  NoDup (ProfileList.profileKey <$> Profiles v) ->
  let v' := ProfileList.AddOrUpdateProfiles v profs in
  ProfileList.sortedProfiles (Profiles v')
  /\ NoDup (ProfileList.profileKey <$> Profiles v')
  /\ (forall prof p,
         p ∈ Profiles v' ->
         prPartition p = prPartition prof -> prName p = prName prof ->
         prContext p = prContext prof ->
         ProfileList.AddOrUpdateProfile v' prof = (v', false)).
Proof.
  intros Hs Hn v'.
  assert (StronglySorted ProfileList.lessP (Profiles v')) as Hss.
  { apply AddOrUpdateProfiles_sorted, strictly_sorted. by split. }
  pose proof (proj2 (strictly_sorted _) Hss) as [Hs' Hn'].
  split; [done|]. split; [done|].
  intros prof p Hp HP HN HC. by eapply AddOrUpdateProfile_present.
Qed.

Example AddOrUpdateProfiles_example :
  Profiles (ProfileList.AddOrUpdateProfiles Examples.virtualWithProfiles
              [Examples.profApp; Examples.profClientAll; Examples.profApp])
  = [Examples.profClientAll; Examples.profServer; Examples.profApp].
Proof. reflexivity. Qed.

Lemma C4_AddOrUpdateProfile_witness :
  let v' := ProfileList.AddOrUpdateProfiles Examples.virtualWithProfiles
              [Examples.profApp; Examples.profClientAll; Examples.profApp] in
  ProfileList.sortedProfiles (Profiles v')
  /\ NoDup (ProfileList.profileKey <$> Profiles v')
  /\ ProfileList.AddOrUpdateProfile v' Examples.profClientOther = (v', false).
Proof.
  assert (StronglySorted ProfileList.lessP (Profiles Examples.virtualWithProfiles)) as Hss.
  { refine (bool_decide_unpack _ _). vm_compute. exact I. }
  apply strictly_sorted in Hss as [Hs Hn].
  destruct (C4_AddOrUpdateProfile Examples.virtualWithProfiles
              [Examples.profApp; Examples.profClientAll; Examples.profApp] Hs Hn)
    as (Hs' & Hn' & Hsame).
  split; [exact Hs'|]. split; [exact Hn'|].
  apply (Hsame Examples.profClientOther Examples.profClientAll); try reflexivity.
  apply list_elem_of_here.
Defined.

(** ** The policy engine *)

(** C10: when [mergedRulesMap] has no entry for the name of [rc], or
    has one that holds nothing under [ruleName], [UnmergeRule] returns
    false and neither [rc], nor the map, nor anything on the heap has
    changed. *)
Theorem C10_UnmergeRule_no_record
        {ActionBody CondBody Member : Type}
        `{!EqDecision ActionBody, !EqDecision CondBody, !Inhabited CondBody}
        (growCap : nat -> nat -> nat)
        (rc : @Engine.ResourceConfig Member) (ruleName : string)
        (mergedRulesMap : gmap string (gmap string Engine.mergedRuleEntry))
        (h : @Engine.Heap ActionBody CondBody) :
  (mergedRulesMap !! Engine.GetName rc = None
   \/ exists inner, mergedRulesMap !! Engine.GetName rc = Some inner
                    /\ inner !! ruleName = None) ->
  Engine.UnmergeRule growCap rc ruleName mergedRulesMap h
  = Some ((rc, mergedRulesMap, false), h).
Proof.
  intros [Hnone|(inner & Hsome & Hnone)]; unfold Engine.UnmergeRule.
  - by rewrite Hnone.
  - by rewrite Hsome, Hnone.
Qed.

Lemma C10_UnmergeRule_no_record_witness :
  Engine.UnmergeRule Examples.growDouble Examples.config0 "vs_foo_svc1" ∅ Examples.heap0
  = Some ((Examples.config0, ∅, false), Examples.heap0)
  /\ Engine.UnmergeRule Examples.growDouble Examples.config0 "vs_foo_svc1"
       {[ "vs" := {[ "other" := Engine.zeroEntry ]} ]} Examples.heap0
     = Some ((Examples.config0, {[ "vs" := {[ "other" := Engine.zeroEntry ]} ]}, false),
             Examples.heap0).
Proof.
  split.
  - apply C10_UnmergeRule_no_record. left. reflexivity.
  - apply C10_UnmergeRule_no_record. right.
    exists {[ "other" := Engine.zeroEntry ]}. split; reflexivity.
Defined.

Section SliceFacts.
Import Engine.

Lemma moveDown_lookup (arr : list loc) lo hi k :
  (lo < hi <= length arr)%nat ->
  moveDown arr lo hi !! k
  = if decide (k < lo)%nat then arr !! k
    else if decide (k < hi - 1)%nat then arr !! S k else arr !! k.
Proof.
  intros Hb. unfold moveDown.
  assert (length (take lo arr) = lo) as Hl1 by (rewrite length_take; lia).
  assert (length (take (hi - lo - 1) (drop (lo + 1) arr)) = (hi - lo - 1)%nat) as Hl2.
  { rewrite length_take, length_drop. lia. }
  destruct (decide (k < lo)%nat).
  - rewrite lookup_app_l by lia. by rewrite lookup_take_lt.
  - rewrite lookup_app_r by lia. rewrite Hl1. destruct (decide (k < hi - 1)%nat).
    + rewrite lookup_app_l by lia. rewrite lookup_take_lt by lia.
      rewrite lookup_drop. f_equal. lia.
    + rewrite lookup_app_r by lia. rewrite Hl2, lookup_drop. f_equal. lia.
Qed.

Lemma moveDown_length (arr : list loc) lo hi :
  (lo < hi <= length arr)%nat -> length (moveDown arr lo hi) = length arr.
Proof.
  intros Hb. unfold moveDown. rewrite !length_app, !length_take, !length_drop. lia.
Qed.

(** Seen through the shortened header, moving the tail down is the
    removal of one element; what is stored in the place left over
    does not show. *)
Lemma viewArr_moveDown (arr : list loc) (s : slice) o z :
  (sOff s + sLen s <= length arr)%nat -> (o < sLen s)%nat ->
  viewArr (<[(sOff s + sLen s - 1)%nat := z]> (moveDown arr (sOff s + o) (sOff s + sLen s)))
          (mkSlice (sArr s) (sOff s) (sLen s - 1) (sCap s))
  = delete o (viewArr arr s)
  /\ viewArr (moveDown arr (sOff s + o) (sOff s + sLen s))
             (mkSlice (sArr s) (sOff s) (sLen s - 1) (sCap s))
     = delete o (viewArr arr s).
Proof.
  intros Hlen Ho. unfold viewArr. simpl.
  assert (forall k, (k < sLen s - 1)%nat ->
                    moveDown arr (sOff s + o) (sOff s + sLen s) !! (sOff s + k)%nat
                    = delete o (take (sLen s) (drop (sOff s) arr)) !! k) as Hk.
  { intros k Hk. rewrite moveDown_lookup by lia.
    destruct (decide (k < o)%nat).
    - rewrite decide_True by lia. rewrite list_lookup_delete_lt by lia.
      rewrite lookup_take_lt by lia. by rewrite lookup_drop.
    - rewrite decide_False by lia. rewrite decide_True by lia.
      rewrite list_lookup_delete_ge by lia. rewrite lookup_take_lt by lia.
      rewrite lookup_drop. f_equal. lia. }
  assert (forall k, (sLen s - 1 <= k)%nat ->
                    delete o (take (sLen s) (drop (sOff s) arr)) !! k = None) as Hnone.
  { intros k Hk'. apply lookup_ge_None. rewrite length_delete.
    - rewrite length_take, length_drop. lia.
    - apply lookup_lt_is_Some. rewrite length_take, length_drop. lia. }
  split; apply list_eq; intros k.
  - destruct (decide (k < sLen s - 1)%nat).
    + rewrite lookup_take_lt, lookup_drop by lia.
      rewrite list_lookup_insert_ne by lia. by apply Hk.
    + rewrite lookup_take_ge by lia. symmetry. apply Hnone. lia.
  - destruct (decide (k < sLen s - 1)%nat).
    + rewrite lookup_take_lt, lookup_drop by lia. by apply Hk.
    + rewrite lookup_take_ge by lia. symmetry. apply Hnone. lia.
Qed.

End SliceFacts.

Section RemoveRulesFacts.
Import Engine.
Context {ActionBody CondBody : Type}.
Implicit Types (h : @Heap ActionBody CondBody) (pol : Policy).

Lemma freshLoc_fresh {V} (m : gmap loc V) : m !! freshLoc m = None /\ freshLoc m <> nil_ptr.
Proof.
  unfold freshLoc.
  pose proof (is_fresh ({[nil_ptr]} ∪ dom m)) as Hf.
  rewrite not_elem_of_union, not_elem_of_singleton, not_elem_of_dom in Hf. tauto.
Qed.

Lemma view_array h (s : slice) arr :
  hArrays h !! sArr s = Some arr -> view h s = viewArr arr s.
Proof. intros H. unfold view. by rewrite H. Qed.

(** [RemoveRuleAt] on a well-formed policy and a non-negative offset
    does not panic; the rules left are the old ones, in order, less
    the one at the offset. *)
Lemma RemoveRuleAt_ok h pol (o : Z) :
  policyOk h pol -> (0 <= o)%Z ->
  exists pol' h' b,
    RemoveRuleAt pol o h = Some ((pol', b), h')
    /\ policyOk h' pol'
    /\ view h' (Rules pol') `sublist_of` view h (Rules pol).
Proof.
  intros [(arr & Harr & Hlen) [Hall Hnd]] Ho. unfold RemoveRuleAt.
  destruct (Z.geb_spec o (Z.of_nat (sLen (Rules pol)))) as [Hge|Hlt].
  { exists pol, h, false. split; [done|]. split; [|done].
    split; [by exists arr|done]. }
  destruct (Z.ltb_spec o 0) as [?|_]; [lia|].
  rewrite Harr. unfold bind, allocRule, writeArray, ret. simpl.
  set (s := Rules pol) in *. set (z := freshLoc (hRules h)).
  set (moved := <[(sOff s + sLen s - 1)%nat := z]>
                   (moveDown arr (sOff s + Z.to_nat o) (sOff s + sLen s))).
  eexists _, _, true. split; [reflexivity|].
  assert (Hview : viewArr moved (mkSlice (sArr s) (sOff s) (sLen s - 1) (sCap s))
                  = delete (Z.to_nat o) (viewArr arr s)).
  { apply viewArr_moveDown; lia. }
  rewrite (view_array h s arr Harr) in *.
  assert (Hsub : delete (Z.to_nat o) (viewArr arr s) `sublist_of` viewArr arr s)
    by apply sublist_delete.
  unfold policyOk, view. simpl. rewrite lookup_insert_eq. simpl. rewrite Hview.
  split; [|done]. split; [|split].
  - exists moved. split; [done|]. unfold moved.
    rewrite length_insert, moveDown_length; lia.
  - apply Forall_forall. intros p Hp. rewrite lookup_insert_is_Some'. right.
    rewrite Forall_forall in Hall. apply Hall. by eapply elem_of_sublist.
  - by eapply sublist_NoDup.
Qed.

Lemma RemoveRuleAt_all h pol (offsets : list Z) :
  policyOk h pol -> Forall (fun o => 0 <= o)%Z offsets ->
  exists pol' h',
    foldM removeOne offsets pol h = Some (pol', h')
    /\ policyOk h' pol'
    /\ view h' (Rules pol') `sublist_of` view h (Rules pol).
Proof.
  revert h pol. induction offsets as [|o offsets IH]; intros h pol Hok Hpos.
  - exists pol, h. split; [reflexivity|]. split; [done|reflexivity].
  - inversion Hpos as [|? ? Ho Hpos']; subst.
    destruct (RemoveRuleAt_ok h pol o Hok Ho) as (pol1 & h1 & b & Hrun & Hok1 & Hsub1).
    destruct (IH h1 pol1 Hok1 Hpos') as (pol2 & h2 & Hrun2 & Hok2 & Hsub2).
    exists pol2, h2. split; [|split; [done|by etrans]].
    cbn [foldM]. unfold bind at 1. unfold removeOne at 1. unfold bind at 1.
    rewrite Hrun. simpl. exact Hrun2.
Qed.

(** The renumbering loop over distinct allocated rules gives the
    rule at place [k] the ordinal [i + k], and leaves the arrays and
    every other rule alone. *)
Lemma fixOrdinals_ok (rules : list loc) i h :
  NoDup rules -> Forall (fun p => is_Some (hRules h !! p)) rules ->
  exists h',
    fixOrdinals i rules h = Some (tt, h')
    /\ hArrays h' = hArrays h
    /\ (forall k p, rules !! k = Some p ->
                    Ordinal <$> hRules h' !! p = Some (Z.of_nat (i + k)))
    /\ (forall q, q ∉ rules -> hRules h' !! q = hRules h !! q).
Proof.
  revert i h. induction rules as [|p rules IH]; intros i h Hnd Hall.
  - exists h. repeat split; auto. intros k p Hk. by rewrite lookup_nil in Hk.
  - apply NoDup_cons in Hnd as [Hp Hnd]. apply Forall_cons in Hall as [[r Hr] Hall].
    cbn [fixOrdinals]. unfold bind, readRule, writeRule. rewrite Hr. simpl. rewrite Hr.
    set (h1 := mkHeap _ _ _ _ _).
    destruct (IH (S i) h1 Hnd) as (h' & Hrun & Harr & Hord & Hframe).
    { apply Forall_forall. intros q Hq. simpl. rewrite lookup_insert_is_Some'. right.
      rewrite Forall_forall in Hall. by apply Hall. }
    exists h'. split; [exact Hrun|]. split; [by rewrite Harr|]. split.
    + intros [|k] q Hk; simpl in Hk.
      * inversion Hk; subst q. rewrite (Hframe p Hp). simpl.
        rewrite lookup_insert_eq. simpl. f_equal. lia.
      * rewrite (Hord k q Hk). f_equal. lia.
    + intros q Hq. apply not_elem_of_cons in Hq as [Hne Hq].
      rewrite (Hframe q Hq). simpl. by rewrite lookup_insert_ne.
Qed.

End RemoveRulesFacts.

(** C3, as the spec words it: after the merge pass has deleted a
    mergee, the ordinals of the rules left would be [0 .. N-1].  On the
    two-rule policy of [Examples], one rule is left and its ordinal
    is 1. *)
Lemma C3_counterexample :
  exists rc m h pol,
    Engine.MergeRules Examples.config0 ∅ Examples.heap0 = Some ((rc, m), h)
    /\ Engine.FindPolicy rc "forwarding" = Some pol
    /\ Engine.ordinals h pol = [Some 1%Z]
    /\ ~ Engine.contiguousOrdinals h pol.
Proof.
  eexists _, _, _, _. split; [vm_compute; reflexivity|].
  split; [reflexivity|]. split; [vm_compute; reflexivity|].
  vm_compute. discriminate.
Qed.

(** C3, amended: [RemoveRules] with at least one offset, on a policy
    whose rule pointers are allocated and distinct, does not panic and
    leaves the ordinals of the remaining rules equal to [0 .. N-1],
    [N] being their number; the remaining rules are rules of the old
    list in their old order.  The merge pass deletes mergees without
    renumbering. *)
Theorem C3_RemoveRules_ordinals
        {ActionBody CondBody : Type}
        (h : @Engine.Heap ActionBody CondBody) (pol : Engine.Policy)
        (ruleOffsets : list Z) :
  Engine.policyOk h pol ->
  ruleOffsets <> [] ->
  Forall (fun o => 0 <= o)%Z ruleOffsets ->
  exists pol' h',
    Engine.RemoveRules pol ruleOffsets h = Some ((pol', true), h')
    /\ Engine.contiguousOrdinals h' pol'
    /\ Engine.view h' (Engine.Rules pol') `sublist_of` Engine.view h (Engine.Rules pol).
Proof.
  intros Hok Hne Hpos. unfold Engine.RemoveRules.
  destruct ruleOffsets as [|o offsets]; [done|].
  replace (0 <? length (o :: offsets))%nat with true by (simpl; done).
  destruct (RemoveRuleAt_all h pol (rev (o :: offsets)) Hok) as (pol1 & h1 & Hrun & Hok1 & Hsub).
  { by apply Forall_rev. }
  destruct Hok1 as [(arr & Harr & Hlen) [Hall Hnd]].
  destruct (fixOrdinals_ok (Engine.view h1 (Engine.Rules pol1)) 0 h1 Hnd Hall)
    as (h2 & Hfix & Harr2 & Hord & _).
  exists pol1, h2. split; [|split].
  - unfold Engine.bind at 1. rewrite Hrun.
    unfold Engine.bind, Engine.readSlice, Engine.ret. rewrite Hfix. done.
  - unfold Engine.contiguousOrdinals, Engine.ordinals.
    assert (Engine.view h2 (Engine.Rules pol1) = Engine.view h1 (Engine.Rules pol1)) as ->.
    { unfold Engine.view. by rewrite Harr2. }
    apply list_eq. intros k. rewrite !list_lookup_fmap.
    destruct (Engine.view h1 (Engine.Rules pol1) !! k) as [p|] eqn:Hk; simpl.
    + rewrite (Hord k p Hk). rewrite lookup_seq_lt by (by eapply lookup_lt_Some). done.
    + apply lookup_ge_None in Hk. by rewrite lookup_seq_ge.
  - unfold Engine.view in *. by rewrite Harr2.
Qed.

Lemma C3_RemoveRules_ordinals_witness :
  exists pol' h',
    Engine.RemoveRules Examples.policy0 [0%Z] Examples.heap0 = Some ((pol', true), h')
    /\ Engine.contiguousOrdinals h' pol'
    /\ Engine.view h' (Engine.Rules pol')
       `sublist_of` Engine.view Examples.heap0 (Engine.Rules Examples.policy0).
Proof.
  apply C3_RemoveRules_ordinals.
  - split; [|split].
    + exists [1; 2]%nat. split; [reflexivity|simpl; lia].
    + refine (bool_decide_unpack _ _). vm_compute. exact I.
    + refine (bool_decide_unpack _ _). vm_compute. exact I.
  - discriminate.
  - repeat constructor. lia.
Defined.

Example RemoveRules_example :
  exists pol' h',
    Engine.RemoveRules Examples.policy0 [0%Z] Examples.heap0 = Some ((pol', true), h')
    /\ Engine.view h' (Engine.Rules pol') = [2%nat]
    /\ Engine.ordinals h' pol' = [Some 0%Z].
Proof. eexists _, _. repeat split; vm_compute; reflexivity. Qed.

Section CopyFacts.
Import Engine.
Context {ActionBody CondBody : Type} `{!Inhabited CondBody}.
Implicit Types (h : @Heap ActionBody CondBody) (pol : Policy).

Lemma forM_arrays {A B} (f : A -> @M ActionBody CondBody B) (l : list A) h bs h' :
  (forall a h b h', f a h = Some (b, h') -> hArrays h' = hArrays h) ->
  forM f l h = Some (bs, h') -> hArrays h' = hArrays h.
Proof.
  intros Hf. revert h bs h'. induction l as [|a l IH]; intros h bs h' Hrun.
  - by inversion Hrun.
  - cbn [forM] in Hrun. unfold bind at 1 in Hrun.
    destruct (f a h) as [[b h1]|] eqn:Hfa; [|done].
    unfold bind at 1 in Hrun.
    destruct (forM f l h1) as [[bs' h2]|] eqn:Hrest; [|done].
    inversion Hrun; subst. rewrite (IH _ _ _ Hrest). by eapply Hf.
Qed.

Lemma readCond_arrays c h (b : condition) h' :
  readCond c h = Some (b, h') -> hArrays h' = hArrays h.
Proof.
  unfold readCond. destruct (hConds h !! c); [|done]. simpl. by intros [= _ <-].
Qed.

Lemma freshRuleFor_arrays p h z h' :
  freshRuleFor p h = Some (z, h') -> hArrays h' = hArrays h.
Proof.
  unfold freshRuleFor, bind, allocRule, readRule, writeRule, ret. simpl.
  destruct (<[freshLoc (hRules h):=zeroRule]> (hRules h) !! p) as [r|]; [|done]. simpl.
  rewrite lookup_insert_eq. simpl.
  match goal with
  | |- context [forM ?f ?l ?h0] => destruct (forM f l h0) as [[cs h1]|] eqn:Hconds
  end; [|done].
  apply forM_arrays in Hconds.
  2:{ intros c h2 b h3. unfold bind, readCond, allocCond.
      destruct (hConds h2 !! c); [|done]. simpl. by intros [= _ <-]. }
  simpl in Hconds.
  destruct (hRules h1 !! freshLoc (hRules h)); [|done]. simpl.
  intros [= _ <-]. simpl. done.
Qed.

(** The copy of a policy made by [copyConfig] holds the very rule
    pointers of the policy it was copied from. *)
Lemma copyPolicy_same_pointers pol h pol' h' :
  copyPolicy pol h = Some (pol', h') ->
  view h' (Rules pol') = view h (Rules pol).
Proof.
  unfold copyPolicy. unfold bind at 1. unfold readSlice at 1.
  set (src := view h (Rules pol)).
  unfold bind at 1. unfold allocArray at 1.
  set (arr := freshLoc (hArrays h)). set (h1 := mkHeap _ _ _ _ _).
  unfold bind at 1.
  destruct (forM freshRuleFor src h1) as [[news h2]|] eqn:Hnews; [|done].
  apply forM_arrays in Hnews; [|apply freshRuleFor_arrays].
  unfold bind at 1, writeArray at 1. unfold bind at 1, writeArray at 1. simpl.
  unfold bind at 1.
  match goal with
  | |- context [forM ?f src ?h0] => destruct (forM f src h0) as [[x h3]|] eqn:Hcheck
  end; [|done].
  apply forM_arrays in Hcheck.
  2:{ intros p h4 b h5. unfold bind at 1, readRule.
      destruct (hRules h4 !! p); [|done]. simpl. intros Hc.
      eapply forM_arrays; [|exact Hc]. apply readCond_arrays. }
  unfold ret. intros [= <- <-]. simpl in *.
  unfold view at 1. simpl. rewrite Hcheck, lookup_insert_eq. simpl.
  unfold viewArr. simpl. by rewrite drop_0, firstn_all.
Qed.

End CopyFacts.

(** C2: the claim is that no later change to a live rule shows in the
    snapshot.  Here the store of [Examples] takes its snapshot, then the
    merge pass runs on the live config: the snapshot is read before and
    after, pointers followed, and it has changed - its forwarding rule
    has gained the action the pass merged into the live rule. *)
Theorem C2_snapshot_follows_live_rules :
  exists rs h1 old live m h2,
    Engine.updateOldConfig Examples.resources0 ["vs"] Examples.heap0 = Some (rs, h1)
    /\ Engine.oldRsMap rs !! "vs" = Some old
    /\ Engine.rsMap rs !! "vs" = Some Examples.config0
    /\ Engine.MergeRules Examples.config0 ∅ h1 = Some ((live, m), h2)
    /\ Engine.configContents h2 old <> Engine.configContents h1 old.
Proof.
  eexists _, _, _, _, _, _.
  split; [vm_compute; reflexivity|]. split; [vm_compute; reflexivity|].
  split; [vm_compute; reflexivity|]. split; [vm_compute; reflexivity|].
  vm_compute. discriminate.
Qed.

(** ** [FindPolicy] and [SetPolicy] *)

Section PolicyFacts.
Import Engine.
Context {Member : Type}.
Implicit Types (rc : @ResourceConfig Member) (pol : Policy).

Lemma find_first {A} (f : A -> bool) (l : list A) x :
  find f l = Some x ->
  exists i, l !! i = Some x /\ f x = true
            /\ forall j y, (j < i)%nat -> l !! j = Some y -> f y = false.
Proof.
  induction l as [|a l IH]; simpl; [done|].
  destruct (f a) eqn:Hfa.
  - intros [= ->]. exists 0%nat. repeat split; auto. intros j y Hj. lia.
  - intros Hfind. destruct (IH Hfind) as (i & Hi & Hfx & Hbefore).
    exists (S i). repeat split; auto.
    intros [|j] y Hj Hy; simpl in Hy; [by inversion Hy; subst|].
    apply (Hbefore j); [lia|done].
Qed.

Lemma find_none {A} (f : A -> bool) (l : list A) :
  find f l = None -> Forall (fun x => f x = false) l.
Proof.
  induction l as [|a l IH]; simpl; [constructor|].
  destruct (f a) eqn:Hfa; [done|]. intros H. constructor; auto.
Qed.

Lemma hasControl_elem controlType pol :
  hasControl controlType pol = true <-> controlType ∈ Controls pol.
Proof.
  unfold hasControl. rewrite existsb_exists. split.
  - intros (x & Hin & ->%String.eqb_eq). by apply list_elem_of_In.
  - intros Hin. exists controlType. split; [by apply list_elem_of_In|apply String.eqb_refl].
Qed.

Lemma replacePolicy_elem policy (pols pols' : list Policy) :
  replacePolicy policy pols = Some pols' -> policy ∈ pols'.
Proof.
  revert pols'. induction pols as [|pol pols IH]; intros pols'; simpl; [done|].
  destruct (samePolicy policy pol).
  - intros [= <-]. apply list_elem_of_here.
  - destruct (replacePolicy policy pols) as [r|]; [|done]. simpl.
    intros [= <-]. apply list_elem_of_further. by apply IH.
Qed.

Lemma SetPolicy_elem rc policy : policy ∈ Policies (SetPolicy rc policy).
Proof.
  unfold SetPolicy. destruct (replacePolicy policy (Policies rc)) as [pols|] eqn:E; simpl.
  - by eapply replacePolicy_elem.
  - apply elem_of_app. right. apply list_elem_of_here.
Qed.

End PolicyFacts.




(** ** Data-group flattening *)

Section DataGroupFacts.
Import DataGroups.

Lemma StronglySorted_lookup {A} (R : relation A) (l : list A) i j a b :
  StronglySorted R l -> l !! i = Some a -> l !! j = Some b -> (i < j)%nat -> R a b.
Proof.
  intros Hs Hi Hj Hij.
  rewrite <- (take_drop j l) in Hs.
  apply (StronglySorted_app_1_elem_of _ _ _ a b Hs).
  - apply list_elem_of_lookup. exists i. by rewrite lookup_take_lt.
  - apply list_elem_of_lookup. exists 0%nat. by rewrite lookup_drop, Nat.add_0_r.
Qed.

Lemma nameKeyFunc_ltb recs name i r :
  recs !! i = Some r -> nameKeyFunc recs name i = negb (String.ltb (recName r) name).
Proof. intros Hr. unfold nameKeyFunc. by rewrite Hr. Qed.

Lemma Search_records recs name :
  StronglySorted recLt recs ->
  let r := ProfileList.Search (length recs) (nameKeyFunc recs name) in
  (r <= length recs)%nat
  /\ (forall k x, (k < r)%nat -> recs !! k = Some x -> String.ltb (recName x) name = true)
  /\ (forall k x, (r <= k)%nat -> recs !! k = Some x -> String.ltb (recName x) name = false).
Proof.
  intros Hs r.
  destruct (Search_spec (length recs) (nameKeyFunc recs name)) as (Hr & Hlo & Hhi).
  { intros a b [Hab Hb] Ha.
    destruct (lookup_lt_is_Some_2 recs a ltac:(lia)) as [ra Hra].
    destruct (lookup_lt_is_Some_2 recs b Hb) as [rb Hrb].
    rewrite (nameKeyFunc_ltb _ _ _ _ Hra) in Ha. rewrite (nameKeyFunc_ltb _ _ _ _ Hrb).
    destruct (decide (a = b)) as [->|Hne]; [congruence|].
    pose proof (StronglySorted_lookup _ _ _ _ _ _ Hs Hra Hrb ltac:(lia)) as Hlt.
    destruct (String.ltb (recName rb) name) eqn:E; [|done].
    rewrite (ltb_trans _ _ _ Hlt E) in Ha. done. }
  split; [done|]. split.
  - intros k x Hk Hx. specialize (Hlo k Hk).
    rewrite (nameKeyFunc_ltb _ _ _ _ Hx) in Hlo. by destruct (String.ltb (recName x) name).
  - intros k x Hk Hx. pose proof (lookup_lt_Some _ _ _ Hx) as Hlen.
    specialize (Hhi k ltac:(fold r; lia)).
    rewrite (nameKeyFunc_ltb _ _ _ _ Hx) in Hhi. by destruct (String.ltb (recName x) name).
Qed.

Lemma list_to_map_middle (A B : list (string * string)) k d :
  k ∉ A.*1 ->
  (list_to_map (A ++ (k, d) :: B) : gmap string string) = <[k := d]> (list_to_map (A ++ B)).
Proof.
  induction A as [|[a v] A IH]; intros Hk; simpl; [done|].
  rewrite fmap_cons, not_elem_of_cons in Hk. destruct Hk as [Hne Hk]. simpl in Hne.
  rewrite IH by done. by apply insert_insert_ne.
Qed.

(** [AddOrUpdateRecord] keeps a strictly sorted record list strictly
    sorted, and as a map it is an insertion. *)
Lemma AddOrUpdateRecord_spec recs name data :
  StronglySorted recLt recs ->
  StronglySorted recLt (AddOrUpdateRecord recs name data).1
  /\ recordsMap (AddOrUpdateRecord recs name data).1 = <[name := data]> (recordsMap recs).
Proof.
  intros Hs. pose proof (Search_records _ name Hs) as (Hr & Hlo & Hhi).
  unfold AddOrUpdateRecord.
  set (r := ProfileList.Search (length recs) (nameKeyFunc recs name)) in *.
  assert (Hbefore : forall x, x ∈ take r recs -> String.ltb (recName x) name = true).
  { intros x [k Hk]%list_elem_of_lookup.
    apply lookup_take_Some in Hk as [Hk Hkr]. by apply (Hlo k). }
  assert (Htake : StronglySorted recLt (take r recs)).
  { rewrite <- (take_drop r recs) in Hs. by apply StronglySorted_app_1_l in Hs. }
  assert (Hnotin : name ∉ (recPair <$> take r recs).*1).
  { intros (p & -> & (x & -> & Hx)%list_elem_of_fmap)%list_elem_of_fmap.
    apply Hbefore in Hx. simpl in Hx. by rewrite ltb_irrefl in Hx. }
  unfold recordsMap.
  destruct (recs !! r) as [x|] eqn:Hx.
  - assert (Hafter : forall y, y ∈ drop (S r) recs -> recLt x y).
    { intros y [k Hk]%list_elem_of_lookup. rewrite lookup_drop in Hk.
      apply (StronglySorted_lookup recLt recs r (S r + k)); auto; lia. }
    assert (Hdrop : StronglySorted recLt (drop (S r) recs)).
    { rewrite <- (take_drop (S r) recs) in Hs. by apply StronglySorted_app_1_r in Hs. }
    pose proof (Hhi r x ltac:(lia) Hx) as Hxn.
    assert (Hsplit : recs = take r recs ++ x :: drop (S r) recs).
    { by rewrite <- (drop_S _ _ _ Hx), take_drop. }
    destruct (String.eqb_spec (recName x) name) as [Hname|Hname].
    + assert (Hmap : (list_to_map (recPair <$> recs) : gmap string string)
                     = <[name := recData x]>
                         (list_to_map (recPair <$> (take r recs ++ drop (S r) recs)))).
      { rewrite Hsplit at 1. rewrite !fmap_app, fmap_cons. unfold recPair at 2.
        rewrite Hname. by apply list_to_map_middle. }
      destruct (String.eqb_spec (recData x) data) as [Hdata|Hdata]; simpl.
      * split; [done|]. fold recPair. rewrite Hmap, Hdata. by rewrite insert_insert_eq.
      * rewrite insert_take_drop by (by eapply lookup_lt_Some). split.
        -- apply StronglySorted_app_2; [|done|].
           ++ intros a b Ha Hb. apply Hbefore in Ha. unfold recLt.
              apply elem_of_cons in Hb as [->|Hb]; simpl; [by rewrite Hname|].
              apply Hafter in Hb. unfold recLt in Hb. rewrite Hname in Hb.
              by eapply ltb_trans.
           ++ constructor; [done|]. apply Forall_forall. intros b Hb.
              apply Hafter in Hb. by unfold recLt in *.
        -- fold recPair. rewrite Hmap, insert_insert_eq.
           rewrite !fmap_app, fmap_cons. unfold recPair at 2. simpl. rewrite Hname.
           rewrite list_to_map_middle by done. by rewrite <- fmap_app.
    + simpl. assert (Hlt : String.ltb name (recName x) = true).
      { destruct (ltb_trichotomy name (recName x)) as [H|[H|H]]; congruence. }
      split.
      * apply StronglySorted_app_2; [|done|].
        -- intros a b Ha Hb. apply Hbefore in Ha. unfold recLt.
           apply elem_of_cons in Hb as [->|Hb]; [done|].
           rewrite (drop_S _ _ _ Hx) in Hb.
           apply elem_of_cons in Hb as [->|Hb]; [by eapply ltb_trans|].
           apply Hafter in Hb. unfold recLt in Hb.
           eapply ltb_trans; [exact Ha|]. by eapply ltb_trans.
        -- constructor.
           ++ rewrite <- (take_drop r recs) in Hs. by apply StronglySorted_app_1_r in Hs.
           ++ apply Forall_forall. intros b Hb. rewrite (drop_S _ _ _ Hx) in Hb.
              unfold recLt. simpl.
              apply elem_of_cons in Hb as [->|Hb]; [done|].
              apply Hafter in Hb. by eapply ltb_trans.
      * fold recPair. rewrite !fmap_app, fmap_cons. unfold recPair at 2. simpl.
        rewrite list_to_map_middle by done. by rewrite <- fmap_app, take_drop.
  - simpl. apply lookup_ge_None in Hx. rewrite drop_ge by done. split.
    + apply StronglySorted_app_2; [|done|repeat constructor].
      intros a b Ha Hb. apply list_elem_of_singleton in Hb as ->. by apply Hbefore.
    + fold recPair. rewrite !fmap_app, fmap_cons. unfold recPair at 2. simpl.
      rewrite list_to_map_middle by done.
      rewrite app_nil_r. rewrite take_ge by done. done.
Qed.

End DataGroupFacts.

Section FlattenFacts.
Import DataGroups.

Lemma buildRecords_spec (entries : list (string * string)) recs :
  StronglySorted recLt recs ->
  StronglySorted recLt
    (fold_left (fun recs kv => fst (AddOrUpdateRecord recs kv.1 kv.2)) entries recs)
  /\ recordsMap (fold_left (fun recs kv => fst (AddOrUpdateRecord recs kv.1 kv.2)) entries recs)
     = fold_left (fun m kv => <[kv.1 := kv.2]> m) entries (recordsMap recs).
Proof.
  revert recs. induction entries as [|[k d] entries IH]; intros recs Hs; simpl; [done|].
  destruct (AddOrUpdateRecord_spec recs k d Hs) as [Hs' Hmap].
  destruct (IH _ Hs') as [Hs'' Hmap'']. split; [done|]. by rewrite Hmap'', Hmap.
Qed.

Lemma fold_insert_list_to_map (entries : list (string * string)) (m : gmap string string) :
  fold_left (fun m kv => <[kv.1 := kv.2]> m) entries m = list_to_map (rev entries) ∪ m.
Proof.
  revert m. induction entries as [|[k d] entries IH]; intros m; simpl.
  - by rewrite (left_id_L ∅ (∪)).
  - rewrite IH. rewrite list_to_map_app. simpl.
    rewrite insert_empty, <- (assoc_L (∪)). f_equal.
    by rewrite insert_union_singleton_l.
Qed.

(** The records built from the entries of [flatMap] are strictly
    sorted and stand for [flatMap], whatever the order of the
    entries. *)
Lemma buildRecords_map (flatMap : gmap string string) (entries : list (string * string)) :
  entries ≡ₚ map_to_list flatMap ->
  StronglySorted recLt (buildRecords entries)
  /\ recordsMap (buildRecords entries) = flatMap.
Proof.
  intros Hperm. unfold buildRecords.
  destruct (buildRecords_spec entries []) as [Hs Hmap]; [constructor|].
  split; [done|]. rewrite Hmap, fold_insert_list_to_map.
  unfold recordsMap. simpl. rewrite (right_id_L ∅ (∪)).
  etrans; [|apply list_to_map_to_list].
  assert (rev entries ≡ₚ map_to_list flatMap) as Hp by by rewrite <- Permutation_rev.
  apply list_to_map_proper; [|done].
  rewrite Hp. apply NoDup_fst_map_to_list.
Qed.

Lemma flattenRecord_dom groupName (flatMap : gmap string string) rec :
  dom (flattenRecord groupName flatMap rec) = {[recName rec]} ∪ dom flatMap.
Proof.
  unfold flattenRecord. destruct (flatMap !! recName rec) as [item|] eqn:E.
  - assert (recName rec ∈ dom flatMap) by (apply elem_of_dom; eauto).
    destruct (negb (String.eqb item (recData rec))); [rewrite dom_insert_L|]; set_solver.
  - by rewrite dom_insert_L.
Qed.

Lemma flattenRecords_dom groupName recs (flatMap : gmap string string) :
  dom (fold_left (flattenRecord groupName) recs flatMap)
  = list_to_set (recName <$> recs) ∪ dom flatMap.
Proof.
  revert flatMap. induction recs as [|r recs IH]; intros flatMap; simpl.
  - set_solver.
  - rewrite IH, flattenRecord_dom. set_solver.
Qed.

Lemma flattenGroups_dom groups partition name (flatMap : gmap string string) :
  dom (fold_left flattenGroup groups (partition, name, flatMap)).2
  = list_to_set (groups ≫= fun g => recName <$> Records g) ∪ dom flatMap.
Proof.
  revert partition name flatMap.
  induction groups as [|g groups IH]; intros partition name flatMap; simpl.
  - set_solver.
  - rewrite IH, flattenRecords_dom. rewrite list_to_set_app_L. set_solver.
Qed.

Lemma tableLookup_elem t name f :
  tableLookup t name = Some f -> (name, f) ∈ t.
Proof.
  induction t as [|[k g] t IH]; simpl; [done|].
  destruct (String.eqb_spec k name) as [->|_].
  - intros [= ->]. apply list_elem_of_here.
  - intros H. apply list_elem_of_further. by apply IH.
Qed.

Lemma rangeOf_singleton {V} (m : gmap string V) ns p l :
  m = {[ns := p]} -> rangeOf m l -> l = [ns].
Proof.
  intros -> [Hnd Hset]. rewrite dom_singleton_L in Hset.
  destruct l as [|a l].
  - simpl in Hset. set_solver.
  - assert (a = ns) as -> by set_solver.
    destruct l as [|b l]; [done|].
    assert (b = ns) as -> by set_solver.
    apply NoDup_cons in Hnd as [Hnd _]. set_solver.
Qed.

End FlattenFacts.


Example FlattenNamespaces_examples :
  DataGroups.FlattenNamespaces Examples.dgHeap Examples.dgnmPass ["ns1"; "ns2"]
  = Some (DataGroups.FlatNew
            (DataGroups.mkDataGroup "ssl_passthrough_servername_dg" "test"
               [DataGroups.mkRecord "w" "c"; DataGroups.mkRecord "x" "a"]))
  /\ DataGroups.FlattenNamespaces Examples.dgHeap Examples.dgnmPass ["ns2"; "ns1"]
     = Some (DataGroups.FlatNew
               (DataGroups.mkDataGroup "ssl_passthrough_servername_dg" "test"
                  [DataGroups.mkRecord "w" "c"; DataGroups.mkRecord "x" "b"]))
  /\ DataGroups.FlattenNamespaces Examples.dgHeap Examples.dgnmRedirect ["ns1"; "ns2"]
     = Some (DataGroups.FlatNew
               (DataGroups.mkDataGroup "https_redirect_dg" "test"
                  [DataGroups.mkRecord "foo.com" "/a|/b|/c"])).
Proof. repeat split; vm_compute; reflexivity. Qed.


(** ** Merging and unmerging *)

Section MergeFacts.
Import Engine GoStrings.
Context {ActionBody CondBody Member : Type}.
Context `{!EqDecision ActionBody, !EqDecision CondBody}.
Implicit Types (h : @Heap ActionBody CondBody) (rc : @ResourceConfig Member).

(** *** The condition count *)

Lemma countRow_pure condsJ n k h :
  countRow condsJ n k h = (fun n' => (n', h)) <$> matchesInRow (hConds h) k condsJ n.
Proof.
  revert n. induction condsJ as [|l rest IH]; intros n; [done|].
  unfold countRow in *. cbn [foldM matchesInRow].
  unfold bind at 1, countMatch at 1, bind at 1, condEqual, bind, readCond, condsEqualAt.
  destruct (hConds h !! k) as [c1|]; [|done]. simpl.
  destruct (hConds h !! l) as [c2|]; [|done]. simpl. apply IH.
Qed.

Lemma numMatches_pure_from condsI condsJ n h :
  foldM (countRow condsJ) condsI n h
  = (fun n' => (n', h)) <$> matchesFrom (hConds h) condsI condsJ n.
Proof.
  revert n. induction condsI as [|k rest IH]; intros n; [done|].
  cbn [foldM matchesFrom]. unfold bind at 1. rewrite countRow_pure.
  destruct (matchesInRow (hConds h) k condsJ n) as [n'|]; [|done]. simpl. apply IH.
Qed.

Lemma numMatches_pure condsI condsJ h :
  numMatches condsI condsJ h = (fun n => (n, h)) <$> matchesFrom (hConds h) condsI condsJ 0.
Proof. apply numMatches_pure_from. Qed.

(** *** Moving the actions of the mergee *)

Lemma actionIsNew_cons h a x c y (cur : list loc) :
  hActions h !! a = Some x -> hActions h !! c = Some y ->
  actionIsNew h a (c :: cur)
  = negb (bool_decide (aBody x = aBody y)) && actionIsNew h a cur.
Proof. intros Ha Hc. unfold actionIsNew. rewrite Ha. simpl. by rewrite Hc. Qed.

Lemma found_spec h a x (cur : list loc) acc :
  hActions h !! a = Some x -> allocated h cur ->
  foldM (fun found b => bind (actionEqual a b) (fun eq => ret (found || eq))) cur acc h
  = Some (acc || negb (actionIsNew h a cur), h).
Proof.
  intros Ha. revert acc. induction cur as [|c cur IH]; intros acc Hall.
  - unfold actionIsNew. rewrite Ha. simpl. by rewrite orb_false_r.
  - apply Forall_cons in Hall as [[y Hy] Hall].
    cbn [foldM]. unfold bind at 1, bind at 1, actionEqual, bind, readAction.
    rewrite Ha. simpl. rewrite Hy. simpl. unfold ret at 1.
    rewrite (IH _ Hall), (actionIsNew_cons h a x c y cur Ha Hy).
    do 2 f_equal. destruct acc, (bool_decide (aBody x = aBody y)), (actionIsNew h a cur); done.
Qed.

Lemma mergeActions_fold (dst : loc) srcName rd (acts : list loc) :
  forall entry h cur,
    hRules h !! dst = Some (set_Actions rd cur) ->
    allocated h acts -> allocated h cur ->
    exists entry' h' extra,
      foldM (mergeAction dst srcName) acts entry h = Some (entry', h')
      /\ hRules h' = <[dst := set_Actions rd (cur ++ extra)]> (hRules h)
      /\ hActions h' = hActions h /\ hConds h' = hConds h /\ hArrays h' = hArrays h
      /\ RuleName entry' = RuleName entry
      /\ OtherRuleNames entry' = OtherRuleNames entry
      /\ OriginalRule entry' = OriginalRule entry
      /\ ((Forall (fun a => actionIsNew h a cur = false) acts
           /\ entry' = entry /\ hMaps h' = hMaps h)
          \/ (MergedActions entry' <> nil_ptr
              /\ exists a, hMaps h' !! MergedActions entry' = Some {[ srcName := [a] ]})).
Proof.
  induction acts as [|a acts IH]; intros entry h cur Hdst Hacts Hcur.
  - exists entry, h, []. split; [done|]. rewrite app_nil_r.
    split; [by rewrite insert_id|]. repeat split; auto.
  - apply Forall_cons in Hacts as [[x Hx] Hacts].
    pose proof (found_spec h a x cur false Hx Hcur) as Hfound.
    cbn [foldM]. unfold bind at 1. unfold mergeAction at 1.
    unfold bind at 1. unfold readRule at 1. rewrite Hdst. simpl.
    unfold bind at 1. rewrite Hfound. simpl.
    destruct (actionIsNew h a cur) eqn:Hb; simpl.
    2:{ destruct (IH entry h cur Hdst Hacts Hcur)
        as (entry' & h' & extra & Hrun & Hr & Ha & Hc & Harr & Hn & Ho & Hor & Hnew).
      exists entry', h', extra. split; [exact Hrun|]. repeat (split; [done|]).
      destruct Hnew as [(Hnew & He & Hm)|Hnew]; [left|by right].
      split; [|done]. by constructor. }
    1:{
      unfold bind at 1, writeRule at 1. rewrite Hdst.
      unfold bind at 1, allocMap at 1. unfold bind at 1, writeMap at 1. simpl.
      rewrite lookup_insert_eq. unfold ret at 1.
      set (m := freshLoc (hMaps h)).
      set (h1 := mkHeap _ _ _ _ _).
      destruct (IH (set_MergedActions entry m) h1 (cur ++ [a]))
        as (entry' & h' & extra & Hrun & Hr & Ha & Hc & Harr & Hn & Ho & Hor & Hnew).
      { simpl. by rewrite lookup_insert_eq. }
      { done. }
      { apply Forall_app. split; [done|]. constructor; [|constructor]. by exists x. }
      exists entry', h', (a :: extra). split; [exact Hrun|].
      split; [|repeat (split; [done|])].
      { rewrite Hr. simpl. rewrite insert_insert_eq. by rewrite <- app_assoc. }
      right. destruct Hnew as [(_ & -> & Hm)|Hnew]; [|done]. simpl.
      split; [apply freshLoc_fresh|]. exists a. rewrite Hm. simpl.
      by rewrite lookup_insert_eq. }
Qed.


Lemma set_Actions_id (r : Rule) : set_Actions r (Actions r) = r.
Proof. by destruct r. Qed.

Lemma mergeActions_spec (src dst : loc) srcName entry h rs rd :
  hRules h !! src = Some rs -> hRules h !! dst = Some rd ->
  allocated h (Actions rs) -> allocated h (Actions rd) ->
  Exists (fun a => actionIsNew h a (Actions rd) = true) (Actions rs) ->
  exists entry' h' extra a,
    mergeActions src dst srcName entry h = Some (entry', h')
    /\ hRules h' = <[dst := set_Actions rd (Actions rd ++ extra)]> (hRules h)
    /\ hActions h' = hActions h /\ hConds h' = hConds h /\ hArrays h' = hArrays h
    /\ RuleName entry' = RuleName entry
    /\ OtherRuleNames entry' = OtherRuleNames entry
    /\ OriginalRule entry' = OriginalRule entry
    /\ MergedActions entry' <> nil_ptr
    /\ hMaps h' !! MergedActions entry' = Some {[ srcName := [a] ]}.
Proof.
  intros Hsrc Hdst Hsa Hda Hex.
  destruct (mergeActions_fold dst srcName rd (Actions rs) entry h (Actions rd))
    as (entry' & h' & extra & Hrun & Hr & Ha & Hc & Harr & Hn & Ho & Hor & Hnew); auto.
  { by rewrite set_Actions_id. }
  destruct Hnew as [(Hnone & _)|(Hnil & a & Hmap)].
  { exfalso. apply Exists_exists in Hex as (a & Hin & Hnew).
    rewrite Forall_forall in Hnone. rewrite (Hnone a Hin) in Hnew. done. }
  exists entry', h', extra, a. split; [|done].
  unfold mergeActions, bind, readRule. rewrite Hsrc. simpl. exact Hrun.
Qed.

Lemma recordMerge_new key merger mergee (m : gmap string (gmap string mergedRuleEntry)) h mm :
  MergedActions merger <> nil_ptr ->
  hMaps h !! MergedActions merger = Some mm -> size mm <> 0%nat ->
  m !! key = None ->
  recordMerge key merger mergee m h
  = Some (<[key := <[RuleName mergee := mergee]> (<[RuleName merger := merger]> ∅)]> m, h).
Proof.
  intros Hnil Hmm Hsize Hkey. unfold recordMerge, bind, readMap.
  destruct (Nat.eqb_spec (MergedActions merger) nil_ptr) as [?|_]; [done|].
  rewrite Hmm. simpl. destruct (Nat.eqb_spec (size mm) 0); [done|]. by rewrite Hkey.
Qed.

Lemma recordMerge_zero key (m : gmap string (gmap string mergedRuleEntry)) h :
  recordMerge key zeroEntry zeroEntry m h = Some (m, h).
Proof. unfold recordMerge, bind, readMap. simpl. by rewrite map_size_empty. Qed.

(** *** One pair of rules *)

Lemma conditionsMatch_run h ri rj b :
  conditionsMatch h ri rj = Some b ->
  (length (Conditions ri) =? length (Conditions rj))%nat = false /\ b = false
  \/ (length (Conditions ri) =? length (Conditions rj))%nat = true
     /\ exists n, numMatches (Conditions ri) (Conditions rj) h = Some (n, h)
                  /\ b = (n =? length (Conditions ri))%nat.
Proof.
  unfold conditionsMatch. rewrite numMatches_pure.
  destruct (length (Conditions ri) =? length (Conditions rj))%nat; simpl.
  - destruct (matchesFrom _ _ _ _) as [n|]; [|done]. simpl. intros [= <-].
    right. split; [done|]. by exists n.
  - intros [= <-]. by left.
Qed.

Lemma mergePair_quiet key i j (pa pb : loc) st h ra :
  hRules h !! pa = Some ra -> HasSuffix (rName ra) "-reset" = false ->
  quietPair h pa pb = true ->
  mergePair key i j pa pb st h = Some (st, h).
Proof.
  intros Hra Hreset Hq. unfold quietPair in Hq. rewrite Hra in Hq.
  destruct (hRules h !! pb) as [rb|] eqn:Hrb; [|done].
  rewrite Hreset in Hq. simpl in Hq.
  unfold mergePair. unfold bind at 1, readRule at 1. rewrite Hrb. simpl.
  destruct (HasSuffix (rName rb) "-reset"); [done|]. simpl in Hq.
  unfold bind at 1, readRule at 1. rewrite Hra. simpl.
  destruct (conditionsMatch h ra rb) as [b|] eqn:Hm; [|done].
  apply conditionsMatch_run in Hm as [[-> _]|(-> & n & Hn & Hb)]; [done|]. simpl.
  unfold bind at 1. rewrite Hn. rewrite <- Hb. destruct b; [|done]. simpl.
  apply andb_true_iff in Hq as [Hma Hmb].
  apply negb_true_iff in Hma, Hmb. rewrite Hma, Hmb. simpl.
  unfold bind. rewrite recordMerge_zero. unfold ret. by destruct st.
Qed.

Lemma mergePair_fold_i key i j (pi pj : loc) st h ri rj :
  hRules h !! pi = Some ri -> hRules h !! pj = Some rj ->
  HasSuffix (rName rj) "-reset" = false ->
  conditionsMatch h ri rj = Some true ->
  hasMarker (rName ri) = true ->
  allocated h (Actions ri) -> allocated h (Actions rj) ->
  Exists (fun a => actionIsNew h a (Actions rj) = true) (Actions ri) ->
  msMap st !! key = None ->
  exists h' m',
    mergePair key i j pi pj st h
    = Some (mkMergeState (iDeletedRuleIndices st ++ [i]) (jDeletedRuleIndices st) m', h')
    /\ folded key pi pj ri rj (msMap st) h h' m'.
Proof.
  intros Hri Hrj Hreset Hmatch Hmark Hai Haj Hex Hkey.
  destruct (mergeActions_spec pi pj (rName ri) (mkEntry (rName rj) [rName ri] nil_ptr pj)
              h ri rj Hri Hrj Hai Haj Hex)
    as (entry' & h' & extra & a & Hrun & Hr & Ha & Hc & Harr & Hn & Ho & Hor & Hnil & Hmap).
  destruct entry' as [n o mp orig]. simpl in *. subst n o orig.
  eexists h', _. split.
  - unfold mergePair. unfold bind at 1, readRule at 1. rewrite Hrj. simpl. rewrite Hreset.
    unfold bind at 1, readRule at 1. rewrite Hri. simpl.
    apply conditionsMatch_run in Hmatch as [[_ ?]|(-> & n & Hn & Hb)]; [done|]. simpl.
    unfold bind at 1. rewrite Hn. rewrite <- Hb. simpl. rewrite Hmark.
    replace (true && negb (hasMarker (rName rj)) || true && hasMarker (rName rj)) with true
      by (by destruct (hasMarker (rName rj))).
    unfold bind at 1. rewrite Hrun. unfold bind at 1.
    erewrite recordMerge_new; [reflexivity|done|exact Hmap| |done].
    rewrite map_size_singleton. done.
  - exists extra, mp, a. simpl. repeat split; done.
Qed.

Lemma mergePair_fold_j key i j (pi pj : loc) st h ri rj :
  hRules h !! pi = Some ri -> hRules h !! pj = Some rj ->
  HasSuffix (rName rj) "-reset" = false ->
  conditionsMatch h ri rj = Some true ->
  hasMarker (rName ri) = false -> hasMarker (rName rj) = true ->
  allocated h (Actions ri) -> allocated h (Actions rj) ->
  Exists (fun a => actionIsNew h a (Actions ri) = true) (Actions rj) ->
  msMap st !! key = None ->
  exists h' m',
    mergePair key i j pi pj st h
    = Some (mkMergeState (iDeletedRuleIndices st) (jDeletedRuleIndices st ++ [j]) m', h')
    /\ folded key pj pi rj ri (msMap st) h h' m'.
Proof.
  intros Hri Hrj Hreset Hmatch Hmi Hmj Hai Haj Hex Hkey.
  destruct (mergeActions_spec pj pi (rName rj) (mkEntry (rName ri) [rName rj] nil_ptr pi)
              h rj ri Hrj Hri Haj Hai Hex)
    as (entry' & h' & extra & a & Hrun & Hr & Ha & Hc & Harr & Hn & Ho & Hor & Hnil & Hmap).
  destruct entry' as [n o mp orig]. simpl in *. subst n o orig.
  eexists h', _. split.
  - unfold mergePair. unfold bind at 1, readRule at 1. rewrite Hrj. simpl. rewrite Hreset.
    unfold bind at 1, readRule at 1. rewrite Hri. simpl.
    apply conditionsMatch_run in Hmatch as [[_ ?]|(-> & n & Hn & Hb)]; [done|]. simpl.
    unfold bind at 1. rewrite Hn. rewrite <- Hb. simpl. rewrite Hmi, Hmj. simpl.
    unfold bind at 1. rewrite Hrun. unfold bind at 1.
    erewrite recordMerge_new; [reflexivity|done|exact Hmap| |done].
    rewrite map_size_singleton. done.
  - exists extra, mp, a. simpl. repeat split; done.
Qed.


(** *** Heaps that agree on names and conditions *)

Lemma sameShape_refl h : sameShape h h.
Proof. split; [done|]. intros p r Hr. by exists r. Qed.

Lemma sameShape_trans h1 h2 h3 : sameShape h1 h2 -> sameShape h2 h3 -> sameShape h1 h3.
Proof.
  intros [Hc1 Hr1] [Hc2 Hr2]. split; [congruence|].
  intros p r Hr. destruct (Hr1 p r Hr) as (r' & Hr' & Hn & Hcs).
  destruct (Hr2 p r' Hr') as (r'' & Hr'' & Hn' & Hcs').
  exists r''. split; [done|]. split; congruence.
Qed.

Lemma quietPair_shape h h' pa pb :
  sameShape h h' -> quietPair h pa pb = true -> quietPair h' pa pb = true.
Proof.
  intros [Hc Hr]. unfold quietPair.
  destruct (hRules h !! pa) as [ra|] eqn:Hra; [|done].
  destruct (hRules h !! pb) as [rb|] eqn:Hrb; [|done].
  destruct (Hr pa ra Hra) as (ra' & -> & Hna & Hca).
  destruct (Hr pb rb Hrb) as (rb' & -> & Hnb & Hcb).
  unfold conditionsMatch. by rewrite Hna, Hnb, Hca, Hcb, Hc.
Qed.

Lemma folded_shape key pm pr rm rr m0 h h' m' :
  hRules h !! pr = Some rr -> folded key pm pr rm rr m0 h h' m' -> sameShape h h'.
Proof.
  intros Hpr (extra & mp & a & _ & Hr & _ & Hc & _). split; [done|].
  intros p r Hp. rewrite Hr. destruct (decide (p = pr)) as [->|Hne].
  - rewrite lookup_insert_eq. eexists. split; [done|].
    assert (r = rr) as -> by congruence. done.
  - rewrite lookup_insert_ne by done. by exists r.
Qed.

(** *** The two loops *)

Lemma innerLoop_app key i j pa (l1 l2 : list loc) st h :
  innerLoop key i j pa (l1 ++ l2) st h
  = match innerLoop key i j pa l1 st h with
    | Some (st', h') => innerLoop key i (j + length l1) pa l2 st' h'
    | None => None
    end.
Proof.
  revert j st h. induction l1 as [|p l1 IH]; intros j st h; simpl.
  - by rewrite Nat.add_0_r.
  - unfold bind. destruct (mergePair key i j pa p st h) as [[st' h']|]; [|done].
    rewrite IH. by replace (S j + length l1)%nat with (j + S (length l1))%nat by lia.
Qed.

Lemma innerLoop_quiet key i pa ra (rest : list loc) j st h :
  hRules h !! pa = Some ra -> HasSuffix (rName ra) "-reset" = false ->
  Forall (fun pb => quietPair h pa pb = true) rest ->
  innerLoop key i j pa rest st h = Some (st, h).
Proof.
  intros Hra Hreset. revert j. induction rest as [|pb rest IH]; intros j Hq; [done|].
  apply Forall_cons in Hq as [Hq Hrest]. cbn [innerLoop]. unfold bind.
  rewrite (mergePair_quiet key i j pa pb st h ra Hra Hreset Hq). by apply IH.
Qed.

Lemma outerLoop_quiet key (rules : list loc) i st h :
  rulesAllocated h rules -> ForallOrdPairs (fun pa pb => quietPair h pa pb = true) rules ->
  outerLoop key i rules st h = Some (st, h).
Proof.
  revert i. induction rules as [|pa rest IH]; intros i Hall Hq; [done|].
  apply Forall_cons in Hall as [[ra Hra] Hall].
  inversion Hq as [|? ? Hrow Hrest]; subst.
  cbn [outerLoop]. unfold bind at 1, readRule at 1. rewrite Hra. simpl.
  destruct (HasSuffix (rName ra) "-reset") eqn:Hreset; [by apply IH|].
  unfold bind. rewrite (innerLoop_quiet key i pa ra rest (S i) st h Hra Hreset Hrow).
  by apply IH.
Qed.

Lemma outerLoop_prefix key (pre rest : list loc) i st h :
  rulesAllocated h pre -> NoDup (pre ++ rest) ->
  (forall pa pb, pa ∈ pre -> pb ∈ pre ++ rest -> pa <> pb -> quietPair h pa pb = true) ->
  outerLoop key i (pre ++ rest) st h = outerLoop key (i + length pre) rest st h.
Proof.
  revert i. induction pre as [|pa pre IH]; intros i Hall Hnd Hq; simpl.
  - by rewrite Nat.add_0_r.
  - apply Forall_cons in Hall as [[ra Hra] Hall].
    simpl in Hnd. apply NoDup_cons in Hnd as [Hpa Hnd].
    assert (outerLoop key (S i) (pre ++ rest) st h
            = outerLoop key (i + S (length pre)) rest st h) as Hnext.
    { rewrite IH; [f_equal; lia|done|done|].
      intros pb pc Hpb Hpc Hne. apply Hq; [by apply list_elem_of_further| |done].
      simpl. by apply list_elem_of_further. }
    unfold bind at 1, readRule at 1. rewrite Hra. simpl.
    destruct (HasSuffix (rName ra) "-reset") eqn:Hreset; [done|].
    unfold bind.
    rewrite (innerLoop_quiet key i pa ra (pre ++ rest) (S i) st h Hra Hreset); [done|].
    apply Forall_forall. intros b Hb. apply Hq; [apply list_elem_of_here| |].
    + simpl. by apply list_elem_of_further.
    + intros ->. done.
Qed.

(** *** The pass as a whole, and the policy slot *)

Lemma FindPolicy_first rc policy others controlType :
  Policies rc = policy :: others -> hasControl controlType policy = true ->
  FindPolicy rc controlType = Some policy.
Proof. intros Hp Hc. unfold FindPolicy. rewrite Hp. simpl. by rewrite Hc. Qed.

Lemma SetPolicy_first rc policy others policy' :
  Policies rc = policy :: others ->
  pName policy' = pName policy -> pPartition policy' = pPartition policy ->
  Policies (SetPolicy rc policy') = policy' :: others
  /\ GetName (SetPolicy rc policy') = GetName rc
  /\ Pools (SetPolicy rc policy') = Pools rc
  /\ MetaData (SetPolicy rc policy') = MetaData rc.
Proof.
  intros Hp Hn Hpart. unfold SetPolicy. rewrite Hp. simpl.
  unfold samePolicy. rewrite Hn, Hpart, !String.eqb_refl. simpl.
  unfold GetName. simpl. by destruct (existsb _ _).
Qed.

Lemma set_Rules_id (p : Policy) : set_Rules p (Rules p) = p.
Proof. by destruct p. Qed.

Lemma MergeRules_quiet rc policy others (m : gmap string (gmap string mergedRuleEntry)) h :
  Policies rc = policy :: others -> hasControl "forwarding" policy = true ->
  rulesAllocated h (view h (Rules policy)) ->
  ForallOrdPairs (fun pa pb => quietPair h pa pb = true) (view h (Rules policy)) ->
  MergeRules rc m h = Some ((SetPolicy rc policy, m), h).
Proof.
  intros Hp Hc Hall Hq. unfold MergeRules.
  rewrite (FindPolicy_first rc policy others "forwarding" Hp Hc).
  unfold bind at 1, readSlice at 1. unfold bind at 1.
  rewrite (outerLoop_quiet _ _ 0 _ h Hall Hq). simpl.
  unfold bind, ret. simpl. by rewrite set_Rules_id.
Qed.

Lemma findRuleNamed_spec h name i (l1 : list loc) p l2 r :
  hRules h !! p = Some r -> rName r = name ->
  Forall (fun q => exists rq, hRules h !! q = Some rq /\ rName rq <> name) l1 ->
  findRuleNamed name i (l1 ++ p :: l2) h = Some (Some (i + length l1)%nat, h).
Proof.
  intros Hp Hn. revert i. induction l1 as [|q l1 IH]; intros i Hl1; simpl.
  - unfold bind, readRule. rewrite Hp. simpl. rewrite Hn, String.eqb_refl.
    by rewrite Nat.add_0_r.
  - apply Forall_cons in Hl1 as [(rq & Hq & Hne) Hl1].
    unfold bind, readRule. rewrite Hq. simpl.
    rewrite (proj2 (String.eqb_neq _ _) Hne).
    rewrite IH by done. do 3 f_equal. lia.
Qed.

Lemma viewArr_length (arr : list loc) (s : slice) :
  (sOff s + sLen s <= length arr)%nat -> length (viewArr arr s) = sLen s.
Proof. intros Hb. unfold viewArr. rewrite length_take, length_drop. lia. Qed.

Lemma viewArr_snoc (arr : list loc) (s : slice) v :
  (sOff s + sLen s < length arr)%nat ->
  viewArr (<[(sOff s + sLen s)%nat := v]> arr)
          (mkSlice (sArr s) (sOff s) (sLen s + 1) (sCap s))
  = viewArr arr s ++ [v].
Proof.
  intros Hb. unfold viewArr. simpl. apply list_eq. intros k.
  destruct (decide (k < sLen s)%nat).
  - rewrite lookup_take_lt, lookup_drop by lia. rewrite list_lookup_insert_ne by lia.
    rewrite lookup_app_l by (rewrite length_take, length_drop; lia).
    by rewrite lookup_take_lt, lookup_drop by lia.
  - rewrite lookup_app_r by (rewrite length_take, length_drop; lia).
    rewrite length_take, length_drop.
    replace (sLen s `min` (length arr - sOff s))%nat with (sLen s) by lia.
    destruct (decide (k = sLen s)) as [->|Hne].
    + rewrite lookup_take_lt, lookup_drop by lia.
      rewrite list_lookup_insert_eq by lia. by rewrite Nat.sub_diag.
    + rewrite lookup_take_ge by lia. symmetry.
      apply lookup_ge_None. simpl. lia.
Qed.

(** *** One pair that merges among rules that do not *)
Section Active.
Variables (h : @Heap ActionBody CondBody) (key : string).
Variables (pre mid post : list loc) (pi pj : loc) (ri rj : Rule).
Variables (pm pr : loc) (rm rr : Rule).

Let rules := pre ++ pi :: mid ++ pj :: post.

Hypothesis Hnd : NoDup rules.
Hypothesis Halloc : rulesAllocated h rules.
Hypothesis Hri : hRules h !! pi = Some ri.
Hypothesis Hrj : hRules h !! pj = Some rj.
Hypothesis Hreset_i : HasSuffix (rName ri) "-reset" = false.
Hypothesis Hreset_j : HasSuffix (rName rj) "-reset" = false.
Hypothesis Hmatch : conditionsMatch h ri rj = Some true.
Hypothesis Hquiet :
  forall pa pb, pa ∈ rules -> pb ∈ rules -> pa <> pb ->
                ~ (pa = pi /\ pb = pj) -> ~ (pa = pj /\ pb = pi) ->
                quietPair h pa pb = true.
Hypothesis Hrole :
  (hasMarker (rName ri) = true /\ pm = pi /\ pr = pj /\ rm = ri /\ rr = rj)
  \/ (hasMarker (rName ri) = false /\ hasMarker (rName rj) = true
      /\ pm = pj /\ pr = pi /\ rm = rj /\ rr = ri).
Hypothesis Hacts_i : allocated h (Actions ri).
Hypothesis Hacts_j : allocated h (Actions rj).
Hypothesis Hnew : Exists (fun a => actionIsNew h a (Actions rr) = true) (Actions rm).

Lemma active_distinct :
  pi <> pj /\ (pi ∉ pre) /\ (pj ∉ pre) /\ (pi ∉ mid) /\ (pj ∉ mid)
  /\ (pi ∉ post) /\ (pj ∉ post) /\ NoDup (pre ++ mid ++ post).
Proof.
  pose proof Hnd as Hnd0. unfold rules in Hnd0.
  apply NoDup_app in Hnd0 as (Hpre & Hdis & Hrest).
  apply NoDup_cons in Hrest as (Hpi & Hrest).
  apply NoDup_app in Hrest as (Hmid & Hdis2 & Hrest).
  apply NoDup_cons in Hrest as (Hpj & Hpost).
  rewrite elem_of_app, elem_of_cons in Hpi.
  assert (pi <> pj) as Hne by (intros ->; tauto).
  assert (pi ∉ pre) as Hi1.
  { intros Hin. apply (Hdis _ Hin). apply list_elem_of_here. }
  assert (pj ∉ pre) as Hj1.
  { intros Hin. apply (Hdis _ Hin). apply list_elem_of_further, elem_of_app. right.
    apply list_elem_of_here. }
  assert (pi ∉ mid) as Hi2 by tauto.
  assert (pj ∉ mid) as Hj2.
  { intros Hin. apply (Hdis2 _ Hin). apply list_elem_of_here. }
  assert (pi ∉ post) as Hi3 by tauto.
  repeat (split; [done|]).
  rewrite !NoDup_app. repeat split; auto.
  - intros x Hx Hx'. apply (Hdis _ Hx). apply list_elem_of_further.
    apply elem_of_app in Hx' as [Hx'|Hx']; apply elem_of_app; [by left|right].
    by apply list_elem_of_further.
  - intros x Hx Hx'. apply (Hdis2 _ Hx). by apply list_elem_of_further.
Qed.

Lemma quiet_pairs h' (l : list loc) :
  sameShape h h' -> NoDup l -> (forall x, x ∈ l -> x ∈ rules) ->
  ((pi ∉ l) \/ (pj ∉ l)) -> ForallOrdPairs (fun pa pb => quietPair h' pa pb = true) l.
Proof.
  intros Hshape Hl Hsub Hnot. induction l as [|a l IH]; [constructor|].
  apply NoDup_cons in Hl as [Ha Hl]. constructor.
  - apply Forall_forall. intros b Hb. apply (quietPair_shape h h'); [done|].
    apply Hquiet; [set_solver|set_solver|set_solver|set_solver|set_solver].
  - apply IH; [done|set_solver|set_solver].
Qed.

Lemma quiet_row h' (pa : loc) (l : list loc) :
  sameShape h h' -> pa ∈ rules -> pa ∉ l -> (forall x, x ∈ l -> x ∈ rules) ->
  (pa <> pi /\ pa <> pj \/ ((pi ∉ l) /\ (pj ∉ l))) ->
  Forall (fun pb => quietPair h' pa pb = true) l.
Proof.
  intros Hshape Hpa Hnotin Hsub Hnot. apply Forall_forall. intros b Hb.
  apply (quietPair_shape h h'); [done|].
  apply Hquiet; [done|set_solver|set_solver|set_solver|set_solver].
Qed.

Lemma rulesAllocated_shape h' (l : list loc) :
  sameShape h h' -> rulesAllocated h l -> rulesAllocated h' l.
Proof.
  intros [_ Hr] Hl. eapply Forall_impl; [exact Hl|].
  intros p [r Hp]. destruct (Hr p r Hp) as (r' & Hr' & _). by exists r'.
Qed.

Lemma mergePair_active i j st :
  msMap st !! key = None ->
  exists h' st',
    mergePair key i j pi pj st h = Some (st', h')
    /\ folded key pm pr rm rr (msMap st) h h' (msMap st')
    /\ ((pm = pi /\ iDeletedRuleIndices st' = iDeletedRuleIndices st ++ [i]
         /\ jDeletedRuleIndices st' = jDeletedRuleIndices st)
        \/ (pm = pj /\ iDeletedRuleIndices st' = iDeletedRuleIndices st
            /\ jDeletedRuleIndices st' = jDeletedRuleIndices st ++ [j])).
Proof.
  intros Hkey.
  destruct Hrole as [(Hm & -> & -> & -> & ->)|(Hmi & Hmj & -> & -> & -> & ->)].
  - destruct (mergePair_fold_i key i j pi pj st h ri rj) as (h' & m' & Hrun & Hf); auto.
    eexists h', _. split; [exact Hrun|]. split; [exact Hf|]. left. by simpl.
  - destruct (mergePair_fold_j key i j pi pj st h ri rj) as (h' & m' & Hrun & Hf); auto.
    eexists h', _. split; [exact Hrun|]. split; [exact Hf|]. right. by simpl.
Qed.

Lemma role_rules : hRules h !! pr = Some rr /\ hRules h !! pm = Some rm /\ pm <> pr.
Proof.
  pose proof active_distinct as (Hne & _).
  destruct Hrole as [(Hm & -> & -> & -> & ->)|(Hmi & Hmj & -> & -> & -> & ->)]; auto.
Qed.

(** The double loop of the pass: only the pair [(pi, pj)] does
    anything. *)
Lemma outerLoop_active (m : gmap string (gmap string mergedRuleEntry)) :
  m !! key = None ->
  exists h' st',
    outerLoop key 0 rules (mkMergeState [] [] m) h = Some (st', h')
    /\ folded key pm pr rm rr m h h' (msMap st')
    /\ ((pm = pi
         /\ iDeletedRuleIndices st' ++ jDeletedRuleIndices st' = [length pre])
        \/ (pm = pj
            /\ iDeletedRuleIndices st' ++ jDeletedRuleIndices st'
               = [(length pre + S (length mid))%nat])).
Proof.
  intros Hkey.
  pose proof active_distinct as (Hne & Hi1 & Hj1 & Hi2 & Hj2 & Hi3 & Hj3 & Hnd').
  pose proof role_rules as (Hpr & Hpm & Hmr).
  pose proof Hnd as Hnd0. unfold rules in Hnd0.
  apply NoDup_app in Hnd0 as (Hndpre & Hdis & Hndrest).
  apply NoDup_cons in Hndrest as (Hpirest & Hndrest).
  assert (forall x, x ∈ pre -> x ∈ rules) as Hsub_pre by (unfold rules; set_solver).
  assert (forall x, x ∈ mid -> x ∈ rules) as Hsub_mid by (unfold rules; set_solver).
  assert (forall x, x ∈ post -> x ∈ rules) as Hsub_post by (unfold rules; set_solver).
  assert (pi ∈ rules) as Hin_i by (unfold rules; set_solver).
  assert (pj ∈ rules) as Hin_j by (unfold rules; set_solver).
  unfold rules at 1. rewrite outerLoop_prefix; [| |done|].
  2:{ unfold rules in Halloc. by apply Forall_app in Halloc as [? _]. }
  2:{ intros pa pb Hpa Hpb Hab. apply Hquiet; [by apply Hsub_pre|done|done| |].
      - intros [-> _]. done.
      - intros [-> _]. done. }
  simpl. cbn [outerLoop]. unfold bind at 1, readRule at 1. rewrite Hri. simpl.
  rewrite Hreset_i. unfold bind at 1. rewrite innerLoop_app.
  rewrite (innerLoop_quiet key (length pre) pi ri mid (S (length pre)) _ h Hri Hreset_i).
  2:{ apply (quiet_row h); [apply sameShape_refl|done|done|done|by right]. }
  cbn [innerLoop]. unfold bind at 1.
  destruct (mergePair_active (length pre) (S (length pre) + length mid)
                             (mkMergeState [] [] m) Hkey)
    as (h' & st' & Hrun & Hfold & Hdel).
  rewrite Hrun.
  simpl in Hfold.
  assert (sameShape h h') as Hshape
    by exact (folded_shape key pm pr rm rr m h h' (msMap st') Hpr Hfold).
  destruct (proj2 Hshape pi ri Hri) as (ri' & Hri' & Hni & _).
  rewrite (innerLoop_quiet key (length pre) pi ri' post _ st' h' Hri').
  2:{ by rewrite Hni. }
  2:{ apply (quiet_row h'); [done|done|done|done|by right]. }
  rewrite outerLoop_quiet.
  2:{ apply rulesAllocated_shape; [done|].
      unfold rules in Halloc. apply Forall_app in Halloc as [_ Halloc].
      by apply Forall_cons in Halloc as [_ Halloc]. }
  2:{ apply (quiet_pairs h'); [done|done| |by left].
      intros x Hx. unfold rules. set_solver. }
  exists h', st'. split; [done|]. split; [exact Hfold|].
  destruct Hdel as [(-> & -> & ->)|(-> & -> & ->)]; [left|right]; split; try done.
  simpl. f_equal. lia.
Qed.


Variables (rc : @ResourceConfig Member) (policy : Policy) (others : list Policy).
Variable arr : list loc.

Hypothesis Hpols : Policies rc = policy :: others.
Hypothesis Hctl : hasControl "forwarding" policy = true.
Hypothesis Hname : GetName rc = key.
Hypothesis Harr : hArrays h !! sArr (Rules policy) = Some arr.
Hypothesis Hbound : (sOff (Rules policy) + sLen (Rules policy) <= length arr)%nat.
Hypothesis Hcap : (sLen (Rules policy) <= sCap (Rules policy))%nat.
Hypothesis Hview : viewArr arr (Rules policy) = rules.

Let s := Rules policy.
Let s1 := mkSlice (sArr s) (sOff s) (sLen s - 1) (sCap s).

Lemma rules_length : sLen s = (length pre + S (length mid + S (length post)))%nat.
Proof.
  rewrite <- (viewArr_length arr s Hbound). fold s in Hview. rewrite Hview.
  unfold rules. rewrite length_app. simpl. rewrite length_app. simpl. lia.
Qed.

(** The merge pass on the policy: the mergee leaves the rule list,
    the merger carries its actions, two records are written. *)
Lemma MergeRules_active (m : gmap string (gmap string mergedRuleEntry)) :
  m !! key = None ->
  exists h' h1 m1 arr1 l1 l2,
    MergeRules rc m h = Some ((SetPolicy rc (set_Rules policy s1), m1), h1)
    /\ folded key pm pr rm rr m h h' m1
    /\ hRules h1 = hRules h' /\ hActions h1 = hActions h' /\ hConds h1 = hConds h'
    /\ hMaps h1 = hMaps h'
    /\ hArrays h1 = <[sArr s := arr1]> (hArrays h)
    /\ length arr1 = length arr
    /\ viewArr arr1 s1 = l1 ++ pr :: l2
    /\ l1 ++ l2 = pre ++ mid ++ post.
Proof.
  intros Hkey. pose proof rules_length as Hlen.
  destruct (outerLoop_active m Hkey) as (h' & st' & Hrun & Hfold & Hdel).
  pose proof Hfold as (extra & mp & a & Hm1 & Hr & Ha & Hc & Harr' & Hnil & Hmap).
  assert (exists x, iDeletedRuleIndices st' ++ jDeletedRuleIndices st' = [x]
                    /\ (x < sLen s)%nat
                    /\ exists l1 l2, delete x rules = l1 ++ pr :: l2
                                      /\ l1 ++ l2 = pre ++ mid ++ post)
    as (x & Hx & Hxlt & l1 & l2 & Hdelx & Hl12).
  { destruct Hrole as [(_ & Hpm & Hpr & _)|(_ & _ & Hpm & Hpr & _)];
      destruct Hdel as [[Hpm' Hd]|[Hpm' Hd]];
      pose proof active_distinct as (Hne & _); try congruence.
    - exists (length pre). split; [done|]. split; [lia|].
      exists (pre ++ mid), post. unfold rules. rewrite delete_middle, Hpr.
      by rewrite <- !app_assoc.
    - exists (length pre + S (length mid))%nat. split; [done|]. split; [lia|].
      exists pre, (mid ++ post). split; [|done]. unfold rules. rewrite Hpr.
      replace (pre ++ pi :: mid ++ pj :: post) with ((pre ++ pi :: mid) ++ pj :: post)
        by (by rewrite <- app_assoc).
      replace (length pre + S (length mid))%nat with (length (pre ++ pi :: mid))
        by (rewrite length_app; simpl; lia).
      rewrite delete_middle. by rewrite <- app_assoc. }
  exists h'. eexists _, (msMap st'), _, l1, l2. unfold s1, s in *. split.
  - unfold MergeRules.
    rewrite (FindPolicy_first rc policy others "forwarding" Hpols Hctl).
    unfold bind at 1, readSlice at 1. unfold view. rewrite Harr. simpl.
    rewrite Hview. rewrite Hname. unfold bind at 1. rewrite Hrun.
    rewrite Hx. change (merge_sort Nat.le [x]) with [x].
    change (uniqueIndices [x]) with [x]. cbn [deleteRules].
    unfold bind at 1. unfold bind at 1. simpl. rewrite Nat.sub_0_r.
    unfold sliceDeleteAt at 1.
    destruct (Nat.leb_spec (x + 1) (sLen (Rules policy))) as [_|?]; [|lia].
    rewrite Harr', Harr. unfold ret. reflexivity.
  - split; [done|]. simpl. repeat (split; [done|]).
    split; [apply moveDown_length; lia|]. split; [|done].
    rewrite <- Hdelx, <- Hview.
    apply (proj2 (viewArr_moveDown arr (Rules policy) x 0 Hbound Hxlt)).
Qed.


Variable growCap : nat -> nat -> nat.

Hypothesis Hnames :
  forall p q rp rq, p ∈ rules -> q ∈ rules -> p <> q ->
                    hRules h !! p = Some rp -> hRules h !! q = Some rq ->
                    rName rp <> rName rq.

(** Merging, then unmerging the merger: the mergee is back at the
    end of the rule list, the very rule it was; the merger is gone;
    the other rules are where and what they were; no merge record
    is left. *)
Lemma merge_then_unmerge_merger (m : gmap string (gmap string mergedRuleEntry)) :
  m !! key = None ->
  exists rc1 m1 h1 rc2 h2 pol2,
    MergeRules rc m h = Some ((rc1, m1), h1)
    /\ UnmergeRule growCap rc1 (rName rr) m1 h1 = Some ((rc2, m, true), h2)
    /\ Policies rc2 = pol2 :: others
    /\ set_Rules pol2 (Rules policy) = policy
    /\ view h2 (Rules pol2) = pre ++ mid ++ post ++ [pm]
    /\ hRules h2 !! pm = Some rm
    /\ (forall p, p <> pr -> hRules h2 !! p = hRules h !! p)
    /\ hActions h2 = hActions h /\ hConds h2 = hConds h.
Proof.
  intros Hkey. pose proof rules_length as Hlen.
  pose proof active_distinct as (Hne & Hi1 & Hj1 & Hi2 & Hj2 & Hi3 & Hj3 & Hnd').
  pose proof role_rules as (Hpr & Hpm & Hmr).
  destruct (MergeRules_active m Hkey)
    as (h' & h1 & m1 & arr1 & l1 & l2 & Hrun & Hfold & HR1 & HA1 & HC1 & HM1
        & Harr1 & Hlen1 & Hview1 & Hl12).
  destruct Hfold as (extra & mp & a & Hm1 & Hr & Ha & Hc & Harr' & Hnil & Hmap).
  unfold s1, s in *.
  set (sA := mkSlice (sArr (Rules policy)) (sOff (Rules policy))
                     (sLen (Rules policy) - 1) (sCap (Rules policy))) in *.
  set (eM := mkEntry (rName rm) [rName rr] nil_ptr pm) in *.
  set (eR := mkEntry (rName rr) [rName rm] mp pr) in *.
  set (inner := <[rName rm := eM]> (<[rName rr := eR]> (∅ : gmap string mergedRuleEntry))) in *.
  set (rr' := set_Actions rr (Actions rr ++ extra)) in *.
  assert (pm ∈ rules /\ pr ∈ rules) as [Hpm_in Hpr_in].
  { unfold rules.
    destruct Hrole as [(_ & -> & -> & _)|(_ & _ & -> & -> & _)]; set_solver. }
  assert (rName rm <> rName rr) as Hnm by (by apply (Hnames pm pr)).
  assert (hRules h1 !! pr = Some rr') as Hpr1.
  { rewrite HR1, Hr. by rewrite lookup_insert_eq. }
  assert (forall p, p <> pr -> hRules h1 !! p = hRules h !! p) as Hother.
  { intros p Hp. rewrite HR1, Hr. by rewrite lookup_insert_ne. }
  assert (forall x, x ∈ l1 ++ l2 -> x ∈ rules /\ x <> pr /\ x <> pm) as Hl12_in.
  { intros x Hx. rewrite Hl12 in Hx. unfold rules.
    destruct Hrole as [(_ & -> & -> & _)|(_ & _ & -> & -> & _)]; set_solver. }
  destruct (SetPolicy_first rc policy others (set_Rules policy sA) Hpols eq_refl eq_refl)
    as (Hpols1 & Hname1 & _).
  set (rc1 := SetPolicy rc (set_Rules policy sA)) in *.
  assert (hArrays h1 !! sArr (Rules policy) = Some arr1) as Harr1'.
  { rewrite Harr1. by rewrite lookup_insert_eq. }
  assert (sLen sA = length (l1 ++ pr :: l2)) as HlenA.
  { rewrite <- Hview1. symmetry. apply viewArr_length. simpl. lia. }
  rewrite length_app in HlenA. simpl in HlenA.
  (* the search for the merger *)
  assert (findRuleNamed (rName rr) 0 (l1 ++ pr :: l2) h1
          = Some (Some (length l1), h1)) as Hfind.
  { rewrite (findRuleNamed_spec h1 (rName rr) 0 l1 pr l2 rr' Hpr1 eq_refl); [done|].
    apply Forall_forall. intros q Hq.
    destruct (Hl12_in q) as (Hq_in & Hq_pr & _); [set_solver|].
    unfold rulesAllocated in Halloc. rewrite Forall_forall in Halloc.
    destruct (Halloc q Hq_in) as [rq Hrq].
    exists rq. split; [by rewrite Hother|]. by apply (Hnames q pr). }
  (* taking the merger out *)
  set (sB := mkSlice (sArr sA) (sOff sA) (sLen sA - 1) (sCap sA)).
  set (arr2 := moveDown arr1 (sOff sA + length l1) (sOff sA + sLen sA)).
  set (h2a := mkHeap (hRules h1) (hActions h1) (hConds h1)
                     (<[sArr sA := arr2]> (hArrays h1)) (hMaps h1)).
  assert (sliceDeleteAt sA (length l1) h1 = Some (sB, h2a)) as Hdel.
  { unfold sliceDeleteAt.
    destruct (Nat.leb_spec (length l1 + 1) (sLen sA)) as [_|?]; [|simpl in *; lia].
    simpl. by rewrite Harr1'. }
  assert (viewArr arr2 sB = l1 ++ l2) as Hview2.
  { unfold arr2, sB.
    rewrite (proj2 (viewArr_moveDown arr1 sA (length l1) 0
                      ltac:(simpl; lia) ltac:(simpl in *; lia))).
    rewrite Hview1. apply delete_middle. }
  (* putting the mergee back *)
  set (sC := mkSlice (sArr sB) (sOff sB) (sLen sB + 1) (sCap sB)).
  set (arr3 := <[(sOff sB + sLen sB)%nat := pm]> arr2).
  set (h3 := mkHeap (hRules h1) (hActions h1) (hConds h1)
                    (<[sArr sB := arr3]> (hArrays h2a)) (hMaps h1)).
  assert (sliceAppend growCap sB pm h2a = Some (sC, h3)) as Happ.
  { unfold sliceAppend.
    destruct (Nat.ltb_spec (sLen sB) (sCap sB)) as [_|Hge]; [|simpl in *; lia].
    simpl. by rewrite lookup_insert_eq. }
  assert (length arr2 = length arr) as Hlen2.
  { unfold arr2. rewrite moveDown_length; [done|simpl in *; lia]. }
  assert (viewArr arr3 sC = pre ++ mid ++ post ++ [pm]) as Hview3.
  { unfold arr3, sC.
    rewrite (viewArr_snoc arr2 sB pm ltac:(simpl in *; lia)), Hview2, Hl12.
    by rewrite <- !app_assoc. }
  set (p3 := set_Rules (set_Rules policy sA) sC).
  destruct (SetPolicy_first rc1 (set_Rules policy sA) others p3 Hpols1 eq_refl eq_refl)
    as (Hpols2 & Hname2 & _).
  set (rc2 := SetPolicy rc1 p3) in *.
  assert (hArrays h3 !! sArr (Rules p3) = Some arr3) as Harr3.
  { simpl. by rewrite lookup_insert_eq. }
  assert (view h3 (Rules p3) = pre ++ mid ++ post ++ [pm]) as Hv3.
  { unfold view. rewrite Harr3. simpl. exact Hview3. }
  assert (sameShape h h3) as Hshape.
  { split; [simpl; congruence|]. intros p r Hp. simpl. rewrite HR1, Hr.
    destruct (decide (p = pr)) as [->|Hp'].
    - rewrite lookup_insert_eq. exists rr'. split; [done|].
      assert (r = rr) as -> by congruence. done.
    - rewrite lookup_insert_ne by done. by exists r. }
  (* the second pass finds nothing to merge *)
  set (m2 := <[key := delete (rName rr) (delete (rName rm) inner)]> m1).
  assert (MergeRules rc2 m2 h3 = Some ((SetPolicy rc2 p3, m2), h3)) as Hmerge2.
  { apply (MergeRules_quiet rc2 p3 others m2 h3 Hpols2 Hctl); rewrite Hv3.
    - apply rulesAllocated_shape; [done|].
      apply Forall_forall. intros x Hx.
      unfold rulesAllocated in Halloc. rewrite Forall_forall in Halloc. apply Halloc.
      rewrite !app_assoc, elem_of_app, list_elem_of_singleton in Hx.
      destruct Hx as [Hx| ->]; [|done].
      rewrite <- app_assoc, <- Hl12 in Hx. by apply Hl12_in.
    - apply (quiet_pairs h3); [done| | |].
      + rewrite !app_assoc. apply NoDup_app. split; [by rewrite <- app_assoc|].
        split; [|apply NoDup_singleton].
        intros x Hx ->%list_elem_of_singleton.
        rewrite <- app_assoc, <- Hl12 in Hx. by destruct (Hl12_in _ Hx) as (_ & _ & ?).
      + intros x Hx. rewrite !app_assoc, elem_of_app, list_elem_of_singleton in Hx.
        destruct Hx as [Hx| ->]; [|done].
        rewrite <- app_assoc, <- Hl12 in Hx. by apply Hl12_in.
      + assert (pr ∉ pre ++ mid ++ post ++ [pm]) as Hnot.
        { intros Hx. rewrite !app_assoc, elem_of_app, list_elem_of_singleton in Hx.
          destruct Hx as [Hx|Hx]; [|congruence].
          rewrite <- app_assoc, <- Hl12 in Hx. by destruct (Hl12_in _ Hx) as (_ & ? & _). }
        destruct Hrole as [(_ & _ & -> & _)|(_ & _ & _ & -> & _)]; [by right|by left]. }
  exists rc1, m1, h1, (SetPolicy rc2 p3), h3, p3.
  split; [exact Hrun|]. split.
  - unfold UnmergeRule. rewrite Hname1, Hname, Hm1.
    rewrite lookup_insert_eq. fold inner.
    assert (inner !! rName rr = Some eR) as ->.
    { unfold inner. rewrite lookup_insert_ne by done. by rewrite lookup_insert_eq. }
    simpl. destruct (Nat.eqb_spec mp nil_ptr) as [?|_]; [done|]. simpl.
    unfold bind at 1. unfold unmergeMerger.
    rewrite (FindPolicy_first rc1 (set_Rules policy sA) others "forwarding" Hpols1 Hctl).
    unfold bind at 1, liftOpt at 1. unfold bind at 1, readSlice at 1.
    unfold view. simpl. rewrite Harr1'. simpl. rewrite Hview1.
    unfold bind at 1. rewrite Hfind. unfold bind at 1. rewrite Hdel.
    cbn [foldM]. unfold bind at 1. unfold bind at 1. unfold bind at 1.
    assert (inner !! rName rm = Some eM) as -> by (unfold inner; by rewrite lookup_insert_eq).
    simpl. rewrite Happ. unfold ret at 1. unfold ret at 1.
    fold inner. fold p3. fold rc2. rewrite <- Hm1. fold m2. rewrite Hmerge2.
    unfold ret. do 2 f_equal. f_equal. f_equal.
    unfold dropEmpty, m2. rewrite lookup_insert_eq. simpl.
    assert (delete (rName rr) (delete (rName rm) inner) = ∅) as ->.
    { unfold inner. rewrite delete_insert_eq, delete_insert_ne by done.
      rewrite delete_empty, delete_insert_eq. apply delete_empty. }
    rewrite map_size_empty. simpl. rewrite delete_insert_eq, Hm1, delete_insert_eq.
    by apply delete_id.
  - destruct (SetPolicy_first rc2 p3 others p3 Hpols2 eq_refl eq_refl) as (Hpols3 & _).
    split; [done|]. split; [unfold p3; by destruct policy|].
    split; [done|]. split; [simpl; by rewrite Hother|].
    split; [intros p Hp; simpl; by apply Hother|]. simpl. split; congruence.
Qed.

End Active.

End MergeFacts.


(** Two elements of a list with the same image are the same element
    when the images are all different. *)
Lemma NoDup_fmap_eq {A B : Type} (f : A -> B) (l : list A) (x y : A) :
  NoDup (f <$> l) -> x ∈ l -> y ∈ l -> f x = f y -> x = y.
Proof.
  intros Hnd Hx Hy Heq.
  apply list_elem_of_lookup in Hx as [i Hi]. apply list_elem_of_lookup in Hy as [j Hj].
  assert (i = j) as ->.
  { apply (NoDup_lookup _ i j (f x) Hnd).
    - by rewrite list_lookup_fmap, Hi.
    - by rewrite list_lookup_fmap, Hj, Heq. }
  congruence.
Qed.



(** * Further properties of the code *)

(** ** Strings *)

Section StringFacts.
Import GoStrings.

Lemma append_cons x (a b : string) : String x a +:+ b = String x (a +:+ b).
Proof. reflexivity. Qed.

Lemma append_assoc (a b c : string) : (a +:+ b) +:+ c = a +:+ b +:+ c.
Proof. induction a as [|x a IH]; [done|]. by rewrite !append_cons, IH. Qed.

Lemma append_nil_r (a : string) : a +:+ "" = a.
Proof. induction a as [|x a IH]; [done|]. by rewrite append_cons, IH. Qed.

Lemma rev_app_append (s t : string) : String.rev_app s t = String.rev s +:+ t.
Proof.
  unfold String.rev. revert t. induction s as [|x s IH]; intros t; simpl; [done|].
  rewrite (IH (String x t)), (IH (String x "")). by rewrite append_assoc.
Qed.

Lemma rev_cons (x : ascii) (s : string) : String.rev (String x s) = String.rev s +:+ String x "".
Proof. unfold String.rev at 1. simpl. apply rev_app_append. Qed.

Lemma hasByte_append c (a b : string) : hasByte c (a +:+ b) = hasByte c a || hasByte c b.
Proof. induction a as [|x a IH]; simpl; [done|]. by rewrite IH, orb_assoc. Qed.

Lemma hasByte_get c (s : string) :
  hasByte c s = false <-> forall i, String.get i s <> Some c.
Proof.
  induction s as [|x s IH]; simpl.
  - split; [by intros _ i|done].
  - rewrite orb_false_iff, IH. split.
    + intros [Hx Hs] [|i]; [|by apply Hs].
      intros [= ->]. by rewrite Ascii.eqb_refl in Hx.
    + intros H. split; [|intros i; apply (H (S i))].
      destruct (Ascii.eqb_spec x c) as [->|]; [|done]. by destruct (H 0%nat).
Qed.

Lemma hasByte_rev c (s : string) : hasByte c (String.rev s) = hasByte c s.
Proof.
  induction s as [|x s IH]; [done|].
  rewrite rev_cons, hasByte_append, IH. simpl. rewrite orb_false_r. apply orb_comm.
Qed.

(** A field without the separator, followed by the separator. *)
Lemma splitGo_field sep (cur a b : string) :
  hasByte sep a = false ->
  splitGo sep cur (a +:+ String sep b) = (String.rev cur +:+ a) :: splitGo sep "" b.
Proof.
  revert cur. induction a as [|x a IH]; intros cur Ha; simpl in *.
  - rewrite Ascii.eqb_refl. by rewrite append_nil_r.
  - apply orb_false_iff in Ha as [Hx Ha]. rewrite Hx.
    rewrite (IH (String x cur) Ha), rev_cons, append_assoc. done.
Qed.

Lemma splitGo_last sep (cur a : string) :
  hasByte sep a = false -> splitGo sep cur a = [String.rev cur +:+ a].
Proof.
  revert cur. induction a as [|x a IH]; intros cur Ha; simpl in *.
  - by rewrite append_nil_r.
  - apply orb_false_iff in Ha as [Hx Ha]. rewrite Hx.
    rewrite (IH (String x cur) Ha), rev_cons, append_assoc. done.
Qed.

(** Splitting what was joined gives the fields back. *)
Lemma Split_concat sep (l : list string) :
  l <> [] -> Forall (fun t => hasByte sep t = false) l ->
  Split (String.concat (String sep "") l) sep = l.
Proof.
  unfold Split. induction l as [|a l IH]; [done|]. intros _ Hall.
  apply Forall_cons in Hall as [Ha Hall]. destruct l as [|b l].
  - simpl. by rewrite splitGo_last.
  - change (String.concat (String sep "") (a :: b :: l))
      with (a +:+ String sep (String.concat (String sep "") (b :: l))).
    rewrite splitGo_field by done. simpl String.rev. f_equal. by apply IH.
Qed.

(** No field of a split holds the separator, and there is at least
    one field. *)
Lemma splitGo_fields sep (cur s : string) :
  hasByte sep cur = false ->
  splitGo sep cur s <> [] /\ Forall (fun t => hasByte sep t = false) (splitGo sep cur s).
Proof.
  revert cur. induction s as [|x s IH]; intros cur Hcur; simpl.
  - split; [done|]. constructor; [|constructor].
    by rewrite hasByte_rev.
  - destruct (Ascii.eqb_spec x sep) as [->|Hne].
    + split; [done|]. constructor; [by rewrite hasByte_rev|]. by apply IH.
    + apply IH. simpl. rewrite Hcur, orb_false_r. by apply Ascii.eqb_neq.
Qed.

End StringFacts.

(** ** Names and addresses *)

Section NamingFacts.
Import GoStrings Naming Address.

Lemma ReplacerReplace_get_inv pairs name i c :
  String.get i (ReplacerReplace pairs name) = Some c ->
  exists c0, String.get i name = Some c0 /\ c = replaceByte pairs c0.
Proof.
  revert i. induction name as [|x name IH]; intros [|i] Hget; simpl in *; try discriminate.
  - inversion Hget. by exists x.
  - by apply IH.
Qed.

Lemma as3Replacer_range c0 :
  let c := replaceByte as3Replacer c0 in
  c <> ":"%char /\ c <> "/"%char /\ c <> "%"%char /\ c <> "-"%char /\ c <> "="%char.
Proof.
  destruct c0 as [[] [] [] [] [] [] [] []]; vm_compute; repeat split; discriminate.
Qed.

Lemma as3Replacer_other c0 :
  c0 ∉ ["."; ":"; "/"; "%"; "-"; "="]%char -> replaceByte as3Replacer c0 = c0.
Proof.
  intros Hc. rewrite !not_elem_of_cons in Hc.
  destruct Hc as (H1 & H2 & H3 & H4 & H5 & H6 & _).
  destruct c0 as [[] [] [] [] [] [] [] []];
    first [ reflexivity | by destruct H1 | by destruct H2 | by destruct H3
          | by destruct H4 | by destruct H5 | by destruct H6 ].
Qed.

End NamingFacts.

(** [AS3NameFormatter] keeps the length of the name, leaves every
    byte other than the six it replaces where it is, and its result
    holds no colon, slash, percent sign, hyphen or equals sign. *)
Theorem X_AS3NameFormatter_bytes (name : string) :
  String.length (Naming.AS3NameFormatter name) = String.length name
  /\ (forall i c, String.get i (Naming.AS3NameFormatter name) = Some c ->
                  c <> ":"%char /\ c <> "/"%char /\ c <> "%"%char
                  /\ c <> "-"%char /\ c <> "="%char)
  /\ (forall i c, String.get i name = Some c ->
                  c ∉ ["."; ":"; "/"; "%"; "-"; "="]%char ->
                  String.get i (Naming.AS3NameFormatter name) = Some c).
Proof.
  unfold Naming.AS3NameFormatter. split; [apply ReplacerReplace_length|]. split.
  - intros i c Hget. apply ReplacerReplace_get_inv in Hget as (c0 & _ & ->).
    apply as3Replacer_range.
  - intros i c Hget Hc. rewrite (ReplacerReplace_get _ _ _ _ Hget).
    by rewrite as3Replacer_other.
Qed.

Lemma X_AS3NameFormatter_bytes_witness :
  String.get 3 (Naming.AS3NameFormatter "ns1/svc:8080") = Some "_"%char
  /\ "_"%char <> "/"%char
  /\ String.get 4 (Naming.AS3NameFormatter "ns1/svc:8080") = Some "s"%char.
Proof.
  pose proof (X_AS3NameFormatter_bytes "ns1/svc:8080") as (_ & Hno & Hkeep).
  split; [reflexivity|]. split.
  - apply (Hno 3%nat "_"%char). reflexivity.
  - apply (Hkeep 4%nat "s"%char); [reflexivity|].
    rewrite !not_elem_of_cons. repeat split; try discriminate. apply not_elem_of_nil.
Defined.

Section AddressFacts.
Import GoStrings Naming Address.

Lemma cutPercent_spec (s a b : string) :
  cutPercent s = Some (a, b) -> s = a +:+ String "%" b /\ hasByte "%" a = false.
Proof.
  revert a. induction s as [|x s IH]; intros a; simpl; [done|].
  destruct (Ascii.eqb_spec x "%"%char) as [->|Hne].
  - intros [= <- <-]. done.
  - destruct (cutPercent s) as [[a' b']|]; [|done]. intros [= <- <-].
    destruct (IH a' eq_refl) as [-> Ha]. split; [done|]. simpl.
    rewrite Ha, orb_false_r. by apply Ascii.eqb_neq.
Qed.

End AddressFacts.

Section SplitFacts.
Import GoStrings Address.

Lemma split_ip_shape (address : string) :
  split_ip_with_route_domain address = (address, "")
  \/ exists ip x rd,
       split_ip_with_route_domain address = (ip, String x rd)
       /\ address = ip +:+ "%" +:+ String x rd
       /\ allDigits (String x rd) = true
       /\ hasByte "%" ip = false.
Proof.
  unfold split_ip_with_route_domain.
  destruct (cutPercent address) as [[ip rd]|] eqn:Hcut; [|by left].
  destruct (negb (String.eqb rd "") && allDigits rd) eqn:Hrd; [|by left].
  apply andb_true_iff in Hrd as [Hne Hd].
  apply cutPercent_spec in Hcut as [-> Hip].
  destruct rd as [|x rd]; [done|]. right. by exists ip, x, rd.
Qed.

End SplitFacts.

(** [split_ip_with_route_domain] loses nothing: the address is the
    IP part, followed - when there is a route domain - by a percent
    sign and the route domain, which is the way [SetVirtualAddress]
    puts the two together again.  The route domain is a run of
    digits, and when there is one the IP part holds no percent sign. *)
Theorem X_split_ip_with_route_domain_joins (address : string) :
  let '(ip, rd) := Address.split_ip_with_route_domain address in
  address = ip +:+ (if (0 <? String.length rd)%nat then "%" +:+ rd else rd)
  /\ Address.allDigits rd = true
  /\ (rd = "" -> ip = address)
  /\ (rd <> "" -> GoStrings.hasByte "%" ip = false).
Proof.
  destruct (split_ip_shape address) as [->|(ip & x & rd & -> & Hjoin & Hd & Hip)].
  - simpl. by rewrite append_nil_r.
  - split; [exact Hjoin|]. split; [exact Hd|]. split; [discriminate|done].
Qed.

Lemma X_split_ip_with_route_domain_joins_witness :
  GoStrings.hasByte "%" (fst (Address.split_ip_with_route_domain "10.1.1.1%20")) = false.
Proof.
  pose proof (X_split_ip_with_route_domain_joins "10.1.1.1%20") as H.
  change (Address.split_ip_with_route_domain "10.1.1.1%20") with ("10.1.1.1", "20") in *.
  destruct H as (_ & _ & _ & H). apply H. discriminate.
Defined.

(** Whenever [net.ParseIP] accepts the IP part of a bind address,
    [SetVirtualAddress] records the bind address and the port, and the
    destination is the partition, the bind address as it was given -
    route domain included - and the port, joined by a colon for an
    IPv4 address and by a dot otherwise; no other field of the virtual
    changes. *)
Theorem X_SetVirtualAddress_destination
        (IP : Type) (ParseIP : string -> option IP) (To4 : IP -> option IP)
        (v : Virtual) (bindAddr : string) (port : Z) (addr : IP) :
  String.eqb bindAddr "" && (port =? 0)%Z = false ->
  ParseIP (fst (Address.split_ip_with_route_domain bindAddr)) = Some addr ->
  let v' := Address.SetVirtualAddress IP ParseIP To4 v bindAddr port in
  Destination v'
  = "/" +:+ vPartition v +:+ "/" +:+ bindAddr
        +:+ match To4 addr with Some _ => ":" | None => "." end
        +:+ GoStrings.formatInt port
  /\ VirtualAddress v' = Some (mkVirtualAddress bindAddr port)
  /\ v' = set_address v (Destination v') (VirtualAddress v').
Proof.
  intros Hne Hparse. unfold Address.SetVirtualAddress. rewrite Hne.
  destruct (split_ip_shape bindAddr) as [Hs|(ip & x & rd & Hs & Hjoin & _)];
    rewrite Hs in Hparse |- *; simpl in Hparse; rewrite Hparse;
    cbn [Destination VirtualAddress set_address]; (split; [|done]).
  - reflexivity.
  - rewrite Hjoin. by rewrite append_assoc.
Qed.

Lemma X_SetVirtualAddress_destination_witness :
  Destination (Address.SetVirtualAddress (list nat) Address.dottedQuad Some
                 Examples.exampleVirtual "10.1.1.1%20" 80)
  = "/test/10.1.1.1%20:80".
Proof.
  apply (proj1 (X_SetVirtualAddress_destination (list nat) Address.dottedQuad Some
                  Examples.exampleVirtual "10.1.1.1%20" 80 [10; 1; 1; 1]%nat
                  eq_refl eq_refl)).
Defined.

(** ** Joining conflicting values *)

Section ConcatFacts.
Import GoStrings DataGroups.

Lemma Split_fields (s : string) :
  Split s "|"%char <> [] /\ Forall (fun t => hasByte "|" t = false) (Split s "|"%char).
Proof. by apply splitGo_fields. Qed.

Lemma tokenSet_fields oldVal newVal t :
  t ∈ DataGroups.tokenSet oldVal newVal -> hasByte "|" t = false.
Proof.
  unfold DataGroups.tokenSet. rewrite elem_of_union, !elem_of_list_to_set.
  intros [Ht|Ht]; [destruct (Split_fields oldVal) as [_ H]|destruct (Split_fields newVal) as [_ H]];
    rewrite Forall_forall in H; by apply H.
Qed.

Lemma tokenSet_nonempty oldVal newVal : elements (DataGroups.tokenSet oldVal newVal) <> [].
Proof.
  intros Hnil. apply elements_empty_inv in Hnil.
  destruct (Split_fields oldVal) as [Hne _].
  destruct (Split oldVal "|"%char) as [|t l] eqn:E; [done|].
  assert (t ∈ DataGroups.tokenSet oldVal newVal) as Hin.
  { unfold DataGroups.tokenSet. rewrite E. set_solver. }
  set_solver.
Qed.

(** Splitting the result gives the sorted tokens back. *)
Lemma flattenConflictConcat_Split key oldVal newVal :
  Split (flattenConflictConcat key oldVal newVal) "|"%char
  = merge_sort String.le (elements (DataGroups.tokenSet oldVal newVal)).
Proof.
  unfold flattenConflictConcat. fold (DataGroups.tokenSet oldVal newVal).
  apply (Split_concat "|"%char).
  - intros Hnil. apply (tokenSet_nonempty oldVal newVal).
    apply Permutation_nil_r. rewrite <- Hnil. by rewrite merge_sort_Permutation.
  - apply Forall_forall. intros t Ht. rewrite merge_sort_Permutation in Ht.
    apply elem_of_elements in Ht. by eapply tokenSet_fields.
Qed.

Lemma flattenConflictConcat_tokenSet key oldVal newVal :
  (list_to_set (Split (flattenConflictConcat key oldVal newVal) "|"%char) : gset string)
  = DataGroups.tokenSet oldVal newVal.
Proof.
  rewrite flattenConflictConcat_Split. apply set_eq. intros t.
  by rewrite elem_of_list_to_set, merge_sort_Permutation, elem_of_elements.
Qed.

Lemma StronglySorted_strict (l : list string) :
  StronglySorted String.le l -> NoDup l ->
  StronglySorted (fun a b => String.ltb a b = true) l.
Proof.
  induction 1 as [|a l Hs IH Hall]; intros Hnd; [constructor|].
  apply NoDup_cons in Hnd as [Ha Hnd]. constructor; [by apply IH|].
  rewrite Forall_forall in *. intros b Hb. apply ltb_le. split; [by apply Hall|].
  by intros ->.
Qed.

End ConcatFacts.

(** The value [flattenConflictConcat] returns, split at the
    delimiter, is the list of the tokens of both values, each once, in
    strictly ascending order. *)
Theorem X_flattenConflictConcat_tokens (key oldVal newVal : string) :
  let out := GoStrings.Split (DataGroups.flattenConflictConcat key oldVal newVal) "|"%char in
  StronglySorted (fun a b => String.ltb a b = true) out
  /\ forall t, t ∈ out <-> t ∈ GoStrings.Split oldVal "|"%char
                           \/ t ∈ GoStrings.Split newVal "|"%char.
Proof.
  simpl. rewrite flattenConflictConcat_Split. split.
  - apply StronglySorted_strict.
    + apply (StronglySorted_merge_sort _).
    + rewrite merge_sort_Permutation. apply NoDup_elements.
  - intros t. rewrite merge_sort_Permutation, elem_of_elements.
    unfold DataGroups.tokenSet. by rewrite elem_of_union, !elem_of_list_to_set.
Qed.

(** [flattenConflictConcat] does not depend on the order in which the
    values reach it: it is commutative and associative, joining a value
    that is already in changes nothing, and the key plays no part. *)
Theorem X_flattenConflictConcat_order_free (k1 k2 k3 k4 a b c : string) :
  DataGroups.flattenConflictConcat k1 a b = DataGroups.flattenConflictConcat k2 b a
  /\ DataGroups.flattenConflictConcat k1 (DataGroups.flattenConflictConcat k2 a b) c
     = DataGroups.flattenConflictConcat k3 a (DataGroups.flattenConflictConcat k4 b c)
  /\ DataGroups.flattenConflictConcat k1 (DataGroups.flattenConflictConcat k2 a b) b
     = DataGroups.flattenConflictConcat k3 a b.
Proof.
  assert (forall k k' x y x' y', DataGroups.tokenSet x y = DataGroups.tokenSet x' y' ->
            DataGroups.flattenConflictConcat k x y = DataGroups.flattenConflictConcat k' x' y')
    as Hset.
  { intros k k' x y x' y' Heq. unfold DataGroups.flattenConflictConcat.
    fold (DataGroups.tokenSet x y). fold (DataGroups.tokenSet x' y'). by rewrite Heq. }
  split; [|split]; apply Hset.
  - unfold DataGroups.tokenSet. apply (comm_L (∪)).
  - unfold DataGroups.tokenSet. rewrite !flattenConflictConcat_tokenSet.
    unfold DataGroups.tokenSet. by rewrite (assoc_L (∪)).
  - unfold DataGroups.tokenSet. rewrite flattenConflictConcat_tokenSet.
    unfold DataGroups.tokenSet. set_solver.
Qed.

(** ** Records of a data group *)

Section RecordFacts.
Import DataGroups.

Lemma sorted_names_differ recs i j a b :
  StronglySorted recLt recs -> recs !! i = Some a -> recs !! j = Some b ->
  recName a = recName b -> i = j.
Proof.
  intros Hs Ha Hb Hab.
  destruct (Nat.lt_trichotomy i j) as [Hlt|[->|Hlt]]; [|done|].
  - pose proof (StronglySorted_lookup _ _ _ _ _ _ Hs Ha Hb Hlt) as H.
    unfold recLt in H. by rewrite Hab, ltb_irrefl in H.
  - pose proof (StronglySorted_lookup _ _ _ _ _ _ Hs Hb Ha Hlt) as H.
    unfold recLt in H. by rewrite Hab, ltb_irrefl in H.
Qed.

Lemma sorted_names_NoDup recs :
  StronglySorted recLt recs -> NoDup (recPair <$> recs).*1.
Proof.
  intros Hs. apply NoDup_alt. intros i j k Hi Hj.
  rewrite !list_lookup_fmap in Hi, Hj.
  destruct (recs !! i) as [a|] eqn:Ha; [|done].
  destruct (recs !! j) as [b|] eqn:Hb; [|done].
  simpl in *. apply (sorted_names_differ recs i j a b Hs Ha Hb). congruence.
Qed.

(** A sorted record list read as a map holds each record under its
    name. *)
Lemma recordsMap_lookup recs i x :
  StronglySorted recLt recs -> recs !! i = Some x ->
  recordsMap recs !! recName x = Some (recData x).
Proof.
  intros Hs Hx. unfold recordsMap.
  apply elem_of_list_to_map_1; [by apply sorted_names_NoDup|].
  apply list_elem_of_fmap. exists x. split; [done|]. by eapply list_elem_of_lookup_2.
Qed.

Lemma recordsMap_None recs name :
  (forall y, y ∈ recs -> recName y <> name) -> recordsMap recs !! name = None.
Proof.
  intros Hno. unfold recordsMap. apply not_elem_of_list_to_map_1.
  intros Hin. apply list_elem_of_fmap in Hin as ([k d] & -> & Hin).
  apply list_elem_of_fmap in Hin as (y & Heq & Hy). apply (Hno y Hy).
  unfold recPair in Heq. by inversion Heq.
Qed.

(** When the binary search does not land on the name, no record has
    it. *)
Lemma Search_records_absent recs name :
  StronglySorted recLt recs ->
  (forall x, recs !! ProfileList.Search (length recs) (nameKeyFunc recs name) = Some x ->
             recName x <> name) ->
  forall y, y ∈ recs -> recName y <> name.
Proof.
  intros Hs Hr y Hy Hname. pose proof (Search_records _ name Hs) as (Hle & Hlo & Hhi).
  set (r := ProfileList.Search (length recs) (nameKeyFunc recs name)) in *.
  apply list_elem_of_lookup in Hy as [k Hk].
  destruct (Nat.lt_trichotomy k r) as [Hlt|[->|Hgt]].
  - pose proof (Hlo k y Hlt Hk) as H. by rewrite Hname, ltb_irrefl in H.
  - by apply (Hr y).
  - destruct (lookup_lt_is_Some_2 recs r) as [x Hx].
    { apply lookup_lt_Some in Hk. lia. }
    pose proof (StronglySorted_lookup _ _ _ _ _ _ Hs Hx Hk Hgt) as H.
    unfold recLt in H. rewrite Hname in H.
    by rewrite (Hhi r x ltac:(lia) Hx) in H.
Qed.

Lemma StronglySorted_delete {A} (R : relation A) (l : list A) i :
  StronglySorted R l -> StronglySorted R (delete i l).
Proof.
  intros Hs. revert i. induction Hs as [|a l Hs IH Hall]; intros [|i]; simpl;
    [constructor|constructor|done|].
  constructor; [apply IH|]. apply Forall_forall. intros x Hx.
  rewrite Forall_forall in Hall. apply Hall. eapply elem_of_sublist; [exact Hx|].
  apply sublist_delete.
Qed.

Lemma recordsMap_delete recs r x :
  StronglySorted recLt recs -> recs !! r = Some x ->
  recordsMap (delete r recs) = delete (recName x) (recordsMap recs).
Proof.
  intros Hs Hx.
  assert (Hsplit : recs = take r recs ++ x :: drop (S r) recs).
  { by rewrite <- (drop_S _ _ _ Hx), take_drop. }
  assert (Hno : forall y, y ∈ delete r recs -> recName y <> recName x).
  { intros y Hy Hname. apply list_elem_of_lookup in Hy as [k Hk].
    rewrite list_lookup_delete in Hk. destruct (decide (k < r)%nat) as [Hlt|Hge].
    - pose proof (sorted_names_differ recs k r y x Hs Hk Hx Hname). lia.
    - pose proof (sorted_names_differ recs (S k) r y x Hs Hk Hx Hname). lia. }
  apply recordsMap_None in Hno.
  unfold recordsMap in *. rewrite Hsplit at 2.
  rewrite fmap_app, fmap_cons. unfold recPair at 3.
  rewrite list_to_map_middle.
  2:{ intros Hin. apply list_elem_of_fmap in Hin as ([k d] & Hk & Hin). simpl in Hk.
      apply list_elem_of_fmap in Hin as (y & Heq & Hy).
      apply list_elem_of_lookup in Hy as [j Hj]. apply lookup_take_Some in Hj as [Hj Hjr].
      assert (recName y = recName x) as Hyx
          by (unfold recPair in Heq; inversion Heq; congruence).
      pose proof (sorted_names_differ recs j r y x Hs Hj Hx Hyx). lia. }
  rewrite delete_insert_eq, <- fmap_app, <- delete_take_drop. by rewrite delete_id.
Qed.

End RecordFacts.

(** [AddOrUpdateRecord] on a record list sorted by name without
    repeats: the list stays so, the name now stands for the data and
    every other name for what it stood for; the result is false exactly
    when the name already stood for that data, and then the list is
    the old one; the list grows by one record exactly when the name
    was new. *)
Theorem X_AddOrUpdateRecord (recs : list DataGroups.InternalDataGroupRecord)
        (name data : string) :
  StronglySorted DataGroups.recLt recs ->
  let '(recs', changed) := DataGroups.AddOrUpdateRecord recs name data in
  StronglySorted DataGroups.recLt recs'
  /\ DataGroups.recordsMap recs' = <[name := data]> (DataGroups.recordsMap recs)
  /\ (changed = false <-> DataGroups.recordsMap recs !! name = Some data)
  /\ (changed = false -> recs' = recs)
  /\ length recs' = match DataGroups.recordsMap recs !! name with
                    | Some _ => length recs
                    | None => S (length recs)
                    end.
Proof.
  intros Hs. pose proof (AddOrUpdateRecord_spec recs name data Hs) as [Hs' Hmap].
  pose proof (Search_records_absent recs name Hs) as Habsent.
  pose proof (Search_records recs name Hs) as (Hle & _).
  revert Hs' Hmap. unfold DataGroups.AddOrUpdateRecord.
  set (r := ProfileList.Search (length recs) (DataGroups.nameKeyFunc recs name)) in *.
  destruct (recs !! r) as [x|] eqn:Hx.
  - destruct (String.eqb_spec (DataGroups.recName x) name) as [Hname|Hname].
    + pose proof (recordsMap_lookup recs r x Hs Hx) as Hlook. rewrite Hname in Hlook.
      destruct (String.eqb_spec (DataGroups.recData x) data) as [Hdata|Hdata]; simpl;
        intros Hs' Hmap; rewrite Hlook.
      * repeat split; try done. by rewrite Hdata.
      * repeat split; try done.
        -- intros [= ?]. done.
        -- by rewrite length_insert.
    + simpl. intros Hs' Hmap.
      rewrite (recordsMap_None recs name)
        by (apply Habsent; intros y [= <-]; done).
      repeat split; try done.
      rewrite length_app. simpl. rewrite length_take, length_drop. lia.
  - simpl. intros Hs' Hmap.
    rewrite (recordsMap_None recs name) by (by apply Habsent).
    repeat split; try done.
    rewrite length_app. simpl. rewrite length_take, length_drop. lia.
Qed.

Lemma X_AddOrUpdateRecord_witness :
  DataGroups.AddOrUpdateRecord
    [DataGroups.mkRecord "a.com" "/x"; DataGroups.mkRecord "c.com" "/z"] "b.com" "/y"
  = ([DataGroups.mkRecord "a.com" "/x"; DataGroups.mkRecord "b.com" "/y";
      DataGroups.mkRecord "c.com" "/z"], true)
  /\ StronglySorted DataGroups.recLt
       [DataGroups.mkRecord "a.com" "/x"; DataGroups.mkRecord "b.com" "/y";
        DataGroups.mkRecord "c.com" "/z"].
Proof.
  split; [reflexivity|].
  assert (StronglySorted DataGroups.recLt
            [DataGroups.mkRecord "a.com" "/x"; DataGroups.mkRecord "c.com" "/z"]) as Hs.
  { refine (bool_decide_unpack _ _). vm_compute. exact I. }
  exact (proj1 (X_AddOrUpdateRecord
                  [DataGroups.mkRecord "a.com" "/x"; DataGroups.mkRecord "c.com" "/z"]
                  "b.com" "/y" Hs)).
Defined.

(** [RemoveRecord] on a record list sorted by name without repeats:
    the list stays so, the name stands for nothing any more and every
    other name for what it stood for; the result is true exactly when
    the name was there, and then the list is one record shorter;
    otherwise the list is the old one. *)
Theorem X_RemoveRecord (recs : list DataGroups.InternalDataGroupRecord) (name : string) :
  StronglySorted DataGroups.recLt recs ->
  let '(recs', removed) := DataGroups.RemoveRecord recs name in
  StronglySorted DataGroups.recLt recs'
  /\ DataGroups.recordsMap recs' = delete name (DataGroups.recordsMap recs)
  /\ (removed = true <-> is_Some (DataGroups.recordsMap recs !! name))
  /\ (removed = true -> S (length recs') = length recs)
  /\ (removed = false -> recs' = recs).
Proof.
  intros Hs. pose proof (Search_records_absent recs name Hs) as Habsent.
  unfold DataGroups.RemoveRecord.
  set (r := ProfileList.Search (length recs) (DataGroups.nameKeyFunc recs name)) in *.
  assert ((forall x, recs !! r = Some x -> DataGroups.recName x <> name) ->
          DataGroups.recordsMap recs !! name = None) as Hmiss.
  { intros Hr. by apply recordsMap_None, Habsent. }
  destruct (recs !! r) as [x|] eqn:Hx.
  - destruct (String.eqb_spec (DataGroups.recName x) name) as [Hname|Hname].
    + pose proof (recordsMap_lookup recs r x Hs Hx) as Hlook. rewrite Hname in Hlook.
      split; [by apply StronglySorted_delete|].
      split; [rewrite <- Hname; by apply recordsMap_delete|].
      split; [by rewrite Hlook|]. split; [|done].
      intros _. rewrite length_delete by done. apply lookup_lt_Some in Hx. lia.
    + rewrite Hmiss by (intros y [= <-]; done).
      split; [done|]. split; [by rewrite delete_id by (apply Hmiss; intros y [= <-]; done)|].
      split; [split; [done|by intros [? ?]]|]. done.
  - rewrite Hmiss by done.
    split; [done|]. split; [by rewrite delete_id by (by apply Hmiss)|].
    split; [split; [done|by intros [? ?]]|]. done.
Qed.

Lemma X_RemoveRecord_witness :
  DataGroups.RemoveRecord
    [DataGroups.mkRecord "a.com" "/x"; DataGroups.mkRecord "b.com" "/y";
     DataGroups.mkRecord "c.com" "/z"] "b.com"
  = ([DataGroups.mkRecord "a.com" "/x"; DataGroups.mkRecord "c.com" "/z"], true)
  /\ StronglySorted DataGroups.recLt
       [DataGroups.mkRecord "a.com" "/x"; DataGroups.mkRecord "c.com" "/z"].
Proof.
  split; [reflexivity|].
  assert (StronglySorted DataGroups.recLt
            [DataGroups.mkRecord "a.com" "/x"; DataGroups.mkRecord "b.com" "/y";
             DataGroups.mkRecord "c.com" "/z"]) as Hs.
  { refine (bool_decide_unpack _ _). vm_compute. exact I. }
  exact (proj1 (X_RemoveRecord
                  [DataGroups.mkRecord "a.com" "/x"; DataGroups.mkRecord "b.com" "/y";
                   DataGroups.mkRecord "c.com" "/z"] "b.com" Hs)).
Defined.

Section RecordRoundTrip.
Import DataGroups.

(** Where the search lands in a sorted list that holds the name. *)
Lemma Search_records_at recs name i x :
  StronglySorted recLt recs -> recs !! i = Some x -> recName x = name ->
  ProfileList.Search (length recs) (nameKeyFunc recs name) = i.
Proof.
  intros Hs Hx Hname. pose proof (Search_records _ name Hs) as (Hle & Hlo & Hhi).
  set (r := ProfileList.Search (length recs) (nameKeyFunc recs name)) in *.
  destruct (Nat.lt_trichotomy i r) as [Hlt|[->|Hgt]]; [|done|].
  - pose proof (Hlo i x Hlt Hx) as H. by rewrite Hname, ltb_irrefl in H.
  - destruct (lookup_lt_is_Some_2 recs r) as [y Hy].
    { apply lookup_lt_Some in Hx. lia. }
    pose proof (StronglySorted_lookup _ _ _ _ _ _ Hs Hy Hx Hgt) as H.
    unfold recLt in H. rewrite Hname in H.
    by rewrite (Hhi r y ltac:(lia) Hy) in H.
Qed.

Lemma AddOrUpdateRecord_new recs name data :
  StronglySorted recLt recs -> recordsMap recs !! name = None ->
  exists i, (i <= length recs)%nat
            /\ AddOrUpdateRecord recs name data
               = (take i recs ++ mkRecord name data :: drop i recs, true).
Proof.
  intros Hs Hnone. pose proof (Search_records _ name Hs) as (Hle & _).
  unfold AddOrUpdateRecord.
  set (r := ProfileList.Search (length recs) (nameKeyFunc recs name)) in *.
  exists r. split; [done|].
  destruct (recs !! r) as [x|] eqn:Hx; [|done].
  destruct (String.eqb_spec (recName x) name) as [Hname|Hname]; [|done].
  pose proof (recordsMap_lookup recs r x Hs Hx) as Hlook. congruence.
Qed.

End RecordRoundTrip.

(** Adding a record under a new name and removing that name again
    gives the record list back; adding a record makes a later removal
    of its name succeed. *)
Theorem X_AddOrUpdateRecord_then_RemoveRecord
        (recs : list DataGroups.InternalDataGroupRecord) (name data : string) :
  StronglySorted DataGroups.recLt recs ->
  (DataGroups.RemoveRecord (DataGroups.AddOrUpdateRecord recs name data).1 name).2 = true
  /\ (DataGroups.recordsMap recs !! name = None ->
      DataGroups.RemoveRecord (DataGroups.AddOrUpdateRecord recs name data).1 name
      = (recs, true)).
Proof.
  intros Hs.
  pose proof (AddOrUpdateRecord_spec recs name data Hs) as [Hs' Hmap].
  assert (exists i, (DataGroups.AddOrUpdateRecord recs name data).1 !! i
                    = Some (DataGroups.mkRecord name data)) as [i Hi].
  { assert (DataGroups.recordsMap (DataGroups.AddOrUpdateRecord recs name data).1 !! name
            = Some data) as Hlook by (by rewrite Hmap, lookup_insert_eq).
    apply elem_of_list_to_map_2 in Hlook.
    apply list_elem_of_fmap in Hlook as ([n d] & Heq & Hin).
    apply list_elem_of_lookup in Hin as [i Hi]. exists i. rewrite Hi.
    unfold DataGroups.recPair in Heq. simpl in Heq. by inversion Heq. }
  assert (forall l j, StronglySorted DataGroups.recLt l ->
                      l !! j = Some (DataGroups.mkRecord name data) ->
                      DataGroups.RemoveRecord l name = (delete j l, true)) as Hrem.
  { intros l j Hl Hj. unfold DataGroups.RemoveRecord.
    rewrite (Search_records_at l name j _ Hl Hj eq_refl), Hj. simpl.
    by rewrite String.eqb_refl. }
  split.
  - by rewrite (Hrem _ i Hs' Hi).
  - intros Hnone. destruct (AddOrUpdateRecord_new recs name data Hs Hnone) as (k & Hk & Heq).
    rewrite Heq in *. simpl in *.
    assert (length (take k recs) = k) as Hlen by (rewrite length_take; lia).
    rewrite (Hrem _ k Hs').
    + rewrite <- Hlen at 1. rewrite delete_middle. by rewrite take_drop.
    + by rewrite lookup_app_r, Hlen, Nat.sub_diag by lia.
Qed.

Lemma X_AddOrUpdateRecord_then_RemoveRecord_witness :
  DataGroups.RemoveRecord
    (DataGroups.AddOrUpdateRecord
       [DataGroups.mkRecord "a.com" "/x"; DataGroups.mkRecord "c.com" "/z"] "b.com" "/y").1
    "b.com"
  = ([DataGroups.mkRecord "a.com" "/x"; DataGroups.mkRecord "c.com" "/z"], true).
Proof.
  assert (StronglySorted DataGroups.recLt
            [DataGroups.mkRecord "a.com" "/x"; DataGroups.mkRecord "c.com" "/z"]) as Hs.
  { refine (bool_decide_unpack _ _). vm_compute. exact I. }
  apply (proj2 (X_AddOrUpdateRecord_then_RemoveRecord
                  [DataGroups.mkRecord "a.com" "/x"; DataGroups.mkRecord "c.com" "/z"]
                  "b.com" "/y" Hs)).
  reflexivity.
Defined.

(** ** BIG-IP paths and iRules *)

(** [JoinBigipPath] gives the empty path exactly for an empty object
    name, and otherwise a path that ends with the object name; with a
    partition, and no slash inside partition or name, splitting the
    path at the slashes gives an empty first field, the partition and
    the name. *)
Theorem X_JoinBigipPath (partition objName : string) :
  (Naming.JoinBigipPath partition objName = "" <-> objName = "")
  /\ (exists front, Naming.JoinBigipPath partition objName = front +:+ objName)
  /\ (partition <> "" -> objName <> "" ->
      GoStrings.hasByte "/" partition = false -> GoStrings.hasByte "/" objName = false ->
      GoStrings.Split (Naming.JoinBigipPath partition objName) "/"%char
      = [""; partition; objName]).
Proof.
  unfold Naming.JoinBigipPath.
  destruct (String.eqb_spec objName "") as [->|Hobj].
  { split; [done|]. split; [by exists ""|done]. }
  destruct (String.eqb_spec partition "") as [->|Hpart].
  { split; [done|]. split; [by exists ""|done]. }
  split; [done|]. split.
  - exists ("/" +:+ partition +:+ "/"). by rewrite !append_assoc.
  - intros _ _ Hp Ho.
    apply (Split_concat "/"%char [""; partition; objName]); [done|].
    by repeat constructor.
Qed.

Lemma X_JoinBigipPath_witness :
  GoStrings.Split (Naming.JoinBigipPath "Common" "clientssl") "/"%char
  = [""; "Common"; "clientssl"].
Proof.
  apply (proj2 (proj2 (X_JoinBigipPath "Common" "clientssl"))); (discriminate || reflexivity).
Defined.

(** [AddIRule] returns true exactly when the name was not among the
    iRules yet; afterwards the name is among them, the rules that were
    there keep their places, a list without repeats stays without
    repeats, a second call with the same name returns false and changes
    nothing, and no other field of the virtual changes. *)
Theorem X_AddIRule (v : Virtual) (ruleName : string) :
  let '(v', added) := AddIRule v ruleName in
  (added = true <-> ruleName ∉ IRules v)
  /\ ruleName ∈ IRules v'
  /\ IRules v `prefix_of` IRules v'
  /\ (NoDup (IRules v) -> NoDup (IRules v'))
  /\ AddIRule v' ruleName = (v', false)
  /\ v' = set_IRules v (IRules v').
Proof.
  unfold AddIRule.
  destruct (existsb (fun irule => String.eqb irule ruleName) (IRules v)) eqn:Hex.
  - pose proof Hex as Hin. apply existsb_exists in Hin as (x & Hx & Heq).
    apply String.eqb_eq in Heq as ->. apply list_elem_of_In in Hx.
    split; [split; [done|by intros []]|]. split; [done|]. split; [done|].
    split; [done|]. rewrite Hex. split; [done|by destruct v].
  - assert (ruleName ∉ IRules v) as Hnot.
    { intros Hin. apply list_elem_of_In in Hin.
      assert (existsb (fun irule => String.eqb irule ruleName) (IRules v) = true) as H.
      { apply existsb_exists. exists ruleName. split; [done|apply String.eqb_refl]. }
      congruence. }
    simpl. split; [done|]. split; [set_solver|]. split; [by apply prefix_app_r|].
    split.
    + intros Hnd. apply NoDup_app. split; [done|]. split; [|apply NoDup_singleton].
      intros x Hx Hx'. apply list_elem_of_singleton in Hx' as ->. done.
    + rewrite existsb_app. simpl. rewrite String.eqb_refl, orb_true_r. done.
Qed.

Lemma X_AddIRule_witness :
  NoDup (IRules (AddIRule (set_IRules Examples.exampleVirtual ["http_redirect_irule"])
                          "tls_irule").1).
Proof.
  pose proof (X_AddIRule (set_IRules Examples.exampleVirtual ["http_redirect_irule"])
                         "tls_irule") as H.
  simpl in H. destruct H as (_ & _ & _ & H & _). apply H.
  refine (bool_decide_unpack _ _). vm_compute. exact I.
Defined.

(** ** The profile list *)

(** [ProfileRefs.Less] is a strict order on (partition, name): no
    profile is less than itself, the order is transitive and one-way,
    and two profiles neither of which is less than the other have the
    same partition and name. *)
Theorem X_ProfileRefs_Less_strict_order (a b c : ProfileRef) :
  ProfileList.Less a a = false
  /\ (ProfileList.Less a b = true -> ProfileList.Less b c = true ->
      ProfileList.Less a c = true)
  /\ (ProfileList.Less a b = true -> ProfileList.Less b a = false)
  /\ (ProfileList.Less a b = false -> ProfileList.Less b a = false ->
      ProfileList.profileKey a = ProfileList.profileKey b).
Proof.
  split; [apply Less_irrefl|]. split; [apply Less_trans|]. split.
  - intros Hab. destruct (ProfileList.Less b a) eqn:Hba; [|done].
    by rewrite <- (Less_irrefl a), <- (Less_trans a b a Hab Hba).
  - intros Hab Hba. apply sameKey_eq. by apply Less_total.
Qed.

Lemma X_ProfileRefs_Less_strict_order_witness :
  ProfileList.Less Examples.profClient Examples.profApp = true.
Proof.
  apply (proj1 (proj2 (X_ProfileRefs_Less_strict_order
                         Examples.profClient Examples.profServer Examples.profApp)));
    reflexivity.
Defined.

(** What the profile list holds after [AddOrUpdateProfile], for a
    list sorted by (partition, name) without repeats: after a call that
    returns true the profile is in the list and is its only profile of
    that partition and name; a call returns false only when a profile
    of that partition, name and context was there, and then nothing
    changes - the namespace of the profile passed in is not looked at;
    profiles of another partition or name are in the list after the
    call exactly when they were before; no other field of the virtual
    changes. *)
Theorem X_AddOrUpdateProfile_contents (v : Virtual) (prof : ProfileRef) :
  ProfileList.sortedProfiles (Profiles v) ->
  NoDup (ProfileList.profileKey <$> Profiles v) ->
  let '(v', changed) := ProfileList.AddOrUpdateProfile v prof in
  (changed = true ->
   prof ∈ Profiles v'
   /\ forall q, q ∈ Profiles v' ->
                ProfileList.profileKey q = ProfileList.profileKey prof -> q = prof)
  /\ (changed = false ->
      v' = v /\ exists p, p ∈ Profiles v
                          /\ ProfileList.profileKey p = ProfileList.profileKey prof
                          /\ prContext p = prContext prof)
  /\ (forall q, ProfileList.profileKey q <> ProfileList.profileKey prof ->
                (q ∈ Profiles v' <-> q ∈ Profiles v))
  /\ v' = set_Profiles v (Profiles v').
Proof.
  intros Hs Hn.
  assert (StronglySorted ProfileList.lessP (Profiles v)) as Hss by (by apply strictly_sorted).
  pose proof (AddOrUpdateProfile_sorted v prof Hss) as Hss'.
  apply strictly_sorted in Hss' as [_ Hn'].
  revert Hn'. unfold ProfileList.AddOrUpdateProfile.
  set (l := Profiles v) in *.
  set (r := ProfileList.Search (length l) (ProfileList.keyFunc l prof)) in *.
  assert (Hunique : forall l', NoDup (ProfileList.profileKey <$> l') -> prof ∈ l' ->
                               forall q, q ∈ l' ->
                                         ProfileList.profileKey q = ProfileList.profileKey prof ->
                                         q = prof).
  { intros l' Hnd Hp q Hq Hk. by apply (NoDup_fmap_eq ProfileList.profileKey l' q prof). }
  assert (Hinsert : forall q, ProfileList.profileKey q <> ProfileList.profileKey prof ->
                              q ∈ ProfileList.insertAt r prof l <-> q ∈ l).
  { intros q Hq. unfold ProfileList.insertAt.
    rewrite <- (take_drop r l) at 3. rewrite !elem_of_app, elem_of_cons.
    split; [intros [?|[->|?]]; [by left|done|by right]|intros [?|?]; [by left|by right; right]]. }
  destruct (l !! r) as [p|] eqn:Hp.
  - destruct (ProfileList.sameKey p prof) eqn:Hk.
    + apply sameKey_eq in Hk.
      destruct (String.eqb_spec (prContext p) (prContext prof)) as [Hc|Hc]; simpl; intros Hn'.
      * split; [done|]. split; [|split; [done|by destruct v]].
        intros _. split; [done|]. exists p. split; [by eapply list_elem_of_lookup_2|done].
      * assert (prof ∈ <[r := prof]> l) as Hin.
        { apply list_elem_of_lookup. exists r.
          apply list_lookup_insert_eq. by eapply lookup_lt_Some. }
        split; [intros _; split; [done|by apply Hunique]|]. split; [done|]. split; [|done].
        intros q Hq. rewrite insert_take_drop by (by eapply lookup_lt_Some).
        rewrite <- (take_drop r l) at 3. rewrite (drop_S _ _ _ Hp).
        rewrite !elem_of_app, !elem_of_cons.
        split; [intros [?|[->|?]]; [by left|done|by right; right]
               |intros [?|[->|?]]; [by left|congruence|by right; right]].
    + simpl. intros Hn'.
      assert (prof ∈ ProfileList.insertAt r prof l) as Hin.
      { unfold ProfileList.insertAt. set_solver. }
      split; [intros _; split; [done|by apply Hunique]|]. split; [done|]. by split.
  - simpl. intros Hn'.
    assert (prof ∈ ProfileList.insertAt r prof l) as Hin.
    { unfold ProfileList.insertAt. set_solver. }
    split; [intros _; split; [done|by apply Hunique]|]. split; [done|]. by split.
Qed.

Lemma X_AddOrUpdateProfile_contents_witness :
  Examples.profClientAll
    ∈ Profiles (ProfileList.AddOrUpdateProfile Examples.virtualWithProfiles
                                               Examples.profClientAll).1.
Proof.
  assert (ProfileList.sortedProfiles (Profiles Examples.virtualWithProfiles)
          /\ NoDup (ProfileList.profileKey <$> Profiles Examples.virtualWithProfiles))
    as [Hs Hn].
  { apply strictly_sorted. refine (bool_decide_unpack _ _). vm_compute. exact I. }
  pose proof (X_AddOrUpdateProfile_contents Examples.virtualWithProfiles
                                            Examples.profClientAll Hs Hn) as H.
  simpl in H. by destruct H as (H & _); destruct H.
Defined.

(** ** Dependencies, continued *)

Section DependencyChanges.
Import Dependencies.

Lemma rangeOf_elem {V} (m : gmap ObjectDependency V) l d :
  rangeOf m l -> d ∈ l <-> d ∈ dom m.
Proof. intros [_ Hl]. by rewrite <- Hl, elem_of_list_to_set. Qed.

Lemma fold_append_all (order added : list ObjectDependency) :
  fold_left (fun (added : list ObjectDependency) newDep => added ++ [newDep]) order added
  = added ++ order.
Proof.
  revert added. induction order as [|d order IH]; intros added; simpl.
  - by rewrite app_nil_r.
  - by rewrite IH, <- app_assoc.
Qed.

Lemma filter_None_elem {V} (m : gmap ObjectDependency V) (l : list ObjectDependency) d :
  d ∈ filter (fun d => m !! d = None) l <-> d ∈ l /\ d ∉ dom m.
Proof. rewrite list_elem_of_filter, not_elem_of_dom. tauto. Qed.

End DependencyChanges.

(** What [UpdateDependencies] reports, whatever order the map loops
    run in: [added] holds, each once, the dependencies of the new set
    that the recorded set lacks, and [removed] holds, each once, the
    recorded dependencies that the new set lacks; with nothing
    recorded for the key, every new dependency is added, in the order
    of the loop, and nothing is removed.  The new set is recorded for
    the key and the sets of the other keys are untouched. *)
Theorem X_UpdateDependencies_changes
        (objDeps : gmap Dependencies.ObjectDependency (gmap Dependencies.ObjectDependency Z))
        (newKey : Dependencies.ObjectDependency)
        (newDeps : gmap Dependencies.ObjectDependency Z)
        (lookupFunc : Dependencies.ObjectDependency -> bool)
        (oldOrder newOrder : list Dependencies.ObjectDependency) :
  rangeOf newDeps newOrder ->
  rangeOf (default ∅ (objDeps !! newKey)) oldOrder ->
  let oldDeps := default ∅ (objDeps !! newKey) in
  let '(objDeps', added, removed) :=
    Dependencies.UpdateDependencies objDeps newKey newDeps lookupFunc oldOrder newOrder in
  objDeps' = <[newKey := newDeps]> objDeps
  /\ NoDup added /\ NoDup removed
  /\ (forall d, d ∈ added <-> d ∈ dom newDeps /\ d ∉ dom oldDeps)
  /\ (forall d, d ∈ removed <-> d ∈ dom oldDeps /\ d ∉ dom newDeps)
  /\ (objDeps !! newKey = None -> added = newOrder /\ removed = []).
Proof.
  intros HrN HrO. unfold Dependencies.UpdateDependencies.
  destruct (objDeps !! newKey) as [oldDeps|] eqn:Hold; simpl in *.
  - rewrite addedStep_filter. simpl.
    pose proof (removedStep_perm newDeps oldOrder []) as Hperm. simpl in Hperm.
    split; [done|]. split; [apply NoDup_filter, HrN|].
    split; [rewrite Hperm; apply NoDup_filter, HrO|]. split; [|split; [|done]].
    + intros d. by rewrite filter_None_elem, (rangeOf_elem _ _ _ HrN).
    + intros d. by rewrite Hperm, filter_None_elem, (rangeOf_elem _ _ _ HrO).
  - rewrite fold_append_all. simpl.
    split; [done|]. split; [apply HrN|]. split; [constructor|].
    split; [|split; [|done]].
    + intros d. rewrite (rangeOf_elem _ _ _ HrN), dom_empty_L. set_solver.
    + intros d. rewrite dom_empty_L. set_solver.
Qed.

Lemma X_UpdateDependencies_changes_witness :
  Dependencies.UpdateDependencies {[Examples.depA := Examples.oldDepsAR1]} Examples.depA
    Examples.newDepsAR2 (fun _ => true)
    [Examples.depR1; Examples.depA] [Examples.depA; Examples.depR2]
  = (<[Examples.depA := Examples.newDepsAR2]> {[Examples.depA := Examples.oldDepsAR1]},
     [Examples.depR2], [Examples.depR1])
  /\ NoDup [Examples.depR2].
Proof.
  split; [reflexivity|].
  assert (rangeOf Examples.newDepsAR2 [Examples.depA; Examples.depR2]) as HrN.
  { refine (bool_decide_unpack _ _). vm_compute. exact I. }
  assert (rangeOf (default ∅ (({[Examples.depA := Examples.oldDepsAR1]}
                               : gmap _ (gmap Dependencies.ObjectDependency Z))
                              !! Examples.depA))
                  [Examples.depR1; Examples.depA]) as HrO.
  { refine (bool_decide_unpack _ _). vm_compute. exact I. }
  exact (proj1 (proj2 (X_UpdateDependencies_changes
                         {[Examples.depA := Examples.oldDepsAR1]} Examples.depA
                         Examples.newDepsAR2 (fun _ => true)
                         [Examples.depR1; Examples.depA] [Examples.depA; Examples.depR2]
                         HrN HrO))).
Defined.

(** A second call of [UpdateDependencies] with the same key and the
    same dependencies reports nothing added and nothing removed, and
    leaves the recorded dependencies as the first call left them. *)
Theorem X_UpdateDependencies_repeat
        (objDeps : gmap Dependencies.ObjectDependency (gmap Dependencies.ObjectDependency Z))
        (newKey : Dependencies.ObjectDependency)
        (newDeps : gmap Dependencies.ObjectDependency Z)
        (lookup1 lookup2 : Dependencies.ObjectDependency -> bool)
        (oldOrder1 newOrder1 oldOrder2 newOrder2 : list Dependencies.ObjectDependency) :
  rangeOf newDeps oldOrder2 -> rangeOf newDeps newOrder2 ->
  let objDeps1 :=
    (Dependencies.UpdateDependencies objDeps newKey newDeps lookup1 oldOrder1 newOrder1).1.1 in
  Dependencies.UpdateDependencies objDeps1 newKey newDeps lookup2 oldOrder2 newOrder2
  = (objDeps1, [], []).
Proof.
  intros HrO HrN. simpl.
  assert ((Dependencies.UpdateDependencies objDeps newKey newDeps lookup1 oldOrder1 newOrder1).1.1
          = <[newKey := newDeps]> objDeps) as ->.
  { unfold Dependencies.UpdateDependencies. by destruct (objDeps !! newKey). }
  unfold Dependencies.UpdateDependencies. rewrite lookup_insert_eq, insert_insert_eq.
  assert (forall order, rangeOf newDeps order ->
                        filter (fun d => newDeps !! d = None) order = []) as Hnone.
  { intros order Hr. apply elem_of_nil_inv. intros d Hd.
    apply filter_None_elem in Hd as [Hd Hnot].
    by apply (rangeOf_elem _ _ _ Hr) in Hd. }
  rewrite addedStep_filter, (Hnone _ HrN). simpl.
  pose proof (removedStep_perm newDeps oldOrder2 []) as Hperm.
  rewrite (Hnone _ HrO) in Hperm. simpl in Hperm.
  apply Permutation_nil_r in Hperm. by rewrite Hperm.
Qed.

Lemma X_UpdateDependencies_repeat_witness :
  Dependencies.UpdateDependencies
    (Dependencies.UpdateDependencies {[Examples.depA := Examples.oldDepsAR1]} Examples.depA
       Examples.newDepsAR2 (fun _ => true)
       [Examples.depR1; Examples.depA] [Examples.depA; Examples.depR2]).1.1
    Examples.depA Examples.newDepsAR2 (fun _ => true)
    [Examples.depR2; Examples.depA] [Examples.depA; Examples.depR2]
  = ((Dependencies.UpdateDependencies {[Examples.depA := Examples.oldDepsAR1]} Examples.depA
        Examples.newDepsAR2 (fun _ => true)
        [Examples.depR1; Examples.depA] [Examples.depA; Examples.depR2]).1.1, [], []).
Proof.
  apply X_UpdateDependencies_repeat;
    refine (bool_decide_unpack _ _); vm_compute; exact I.
Defined.

Section NewDependencies.
Import Dependencies.

Lemma fold_countDep virtual (pools : list vsPool) (deps : ObjectDependencies) d :
  fold_left (fun deps pool => countDep deps (poolDep virtual pool)) pools deps !! d
  = match Dependencies.poolUses virtual d pools with
    | O => deps !! d
    | S n => Some (default 0 (deps !! d) + Z.of_nat (S n))%Z
    end.
Proof.
  unfold Dependencies.poolUses. revert deps.
  induction pools as [|pool pools IH]; intros deps; [done|].
  cbn [fold_left]. rewrite IH, filter_cons. unfold countDep at 1 2.
  destruct (decide (poolDep virtual pool = d)) as [->|Hne].
  - rewrite lookup_insert_eq. cbn [length default].
    destruct (length (filter (fun pool0 => poolDep virtual pool0 = d) pools)); f_equal; unfold id; lia.
  - by rewrite lookup_insert_ne.
Qed.

End NewDependencies.

(** [NewObjectDependencies]: the key is the virtual server itself and
    counts once; every pool counts once for the Rule dependency made of
    the namespace, the host followed by the path of the pool, and the
    service of the pool, so that the use count of such a dependency is
    the number of pools that give it; nothing else is in the map.  The
    kind of the key is taken to differ from the kind Rule. *)
Theorem X_NewObjectDependencies_counts
        (VirtualServer : string) (virtual : Dependencies.virtualServer) :
  VirtualServer <> Dependencies.RuleDep ->
  let '(key, deps) := Dependencies.NewObjectDependencies VirtualServer virtual in
  key = Dependencies.mkDep VirtualServer (Dependencies.vsNamespace virtual)
                           (Dependencies.vsName virtual) ""
  /\ deps !! key = Some 1%Z
  /\ (forall pool, pool ∈ Dependencies.vsPools virtual ->
                   deps !! Dependencies.poolDep virtual pool
                   = Some (Z.of_nat (Dependencies.poolUses virtual (Dependencies.poolDep virtual pool)
                                              (Dependencies.vsPools virtual))))
  /\ (forall d, is_Some (deps !! d) <->
                d = key \/ exists pool, pool ∈ Dependencies.vsPools virtual
                                        /\ d = Dependencies.poolDep virtual pool).
Proof.
  intros Hkind. unfold Dependencies.NewObjectDependencies.
  set (key := Dependencies.mkDep VirtualServer _ _ "").
  assert (forall d, Dependencies.poolUses virtual d (Dependencies.vsPools virtual) <> O <->
                    exists pool, pool ∈ Dependencies.vsPools virtual
                                 /\ d = Dependencies.poolDep virtual pool) as Huses.
  { intros d. unfold Dependencies.poolUses. rewrite length_zero_iff_nil. split.
    - intros Hne. destruct (filter _ _) as [|pool l] eqn:E; [done|].
      assert (pool ∈ filter (fun pool => Dependencies.poolDep virtual pool = d)
                            (Dependencies.vsPools virtual)) as Hin by (rewrite E; set_solver).
      apply list_elem_of_filter in Hin as [<- Hin]. by exists pool.
    - intros (pool & Hin & ->) Hnil.
      assert (pool ∈ filter (fun pool0 => Dependencies.poolDep virtual pool0
                                          = Dependencies.poolDep virtual pool)
                            (Dependencies.vsPools virtual)) as Hin'
          by (by apply list_elem_of_filter).
      rewrite Hnil in Hin'. by apply elem_of_nil in Hin'. }
  assert (Dependencies.poolUses virtual key (Dependencies.vsPools virtual) = O) as Hkey.
  { destruct (Dependencies.poolUses virtual key (Dependencies.vsPools virtual)) eqn:E; [done|].
    destruct (proj1 (Huses key)) as (pool & _ & Heq); [lia|].
    unfold key, Dependencies.poolDep in Heq. by inversion Heq. }
  split; [done|]. split; [|split].
  - by rewrite fold_countDep, Hkey, lookup_insert_eq.
  - intros pool Hin. rewrite fold_countDep.
    destruct (Dependencies.poolUses virtual (Dependencies.poolDep virtual pool)
                       (Dependencies.vsPools virtual)) as [|n] eqn:E.
    + exfalso. apply (proj2 (Huses (Dependencies.poolDep virtual pool))); [by exists pool|done].
    + rewrite lookup_insert_ne, lookup_empty.
      * simpl. f_equal; lia.
      * unfold key, Dependencies.poolDep. intros Heq. by inversion Heq.
  - intros d. rewrite fold_countDep.
    destruct (Dependencies.poolUses virtual d (Dependencies.vsPools virtual)) as [|n] eqn:E.
    + rewrite lookup_insert_is_Some, lookup_empty. split.
      * intros [->|[_ [? ?]]]; [by left|done].
      * intros [->|Hex]; [by left|]. apply Huses in Hex. lia.
    + split; [|done]. intros _. right. apply Huses. lia.
Qed.

Lemma X_NewObjectDependencies_counts_witness :
  (Dependencies.NewObjectDependencies "VirtualServer"
     (Dependencies.mkVirtualServer "vs1" "default" "foo.com"
        [Dependencies.mkVsPool "/a" "svc1"; Dependencies.mkVsPool "/a" "svc1"])).2
  !! Dependencies.mkDep "VirtualServer" "default" "vs1" "" = Some 1%Z.
Proof.
  apply (X_NewObjectDependencies_counts "VirtualServer"
           (Dependencies.mkVirtualServer "vs1" "default" "foo.com"
              [Dependencies.mkVsPool "/a" "svc1"; Dependencies.mkVsPool "/a" "svc1"])).
  discriminate.
Defined.

(** ** Setting and removing policies *)

Section PolicyListFacts.
Import Engine.
Context {Member : Type}.
Implicit Types (rc : @ResourceConfig Member) (pol : Policy).

Lemma samePolicy_key policy pol :
  samePolicy policy pol = true <-> policyKey pol = policyKey policy.
Proof.
  unfold samePolicy, policyKey. rewrite andb_true_iff, !String.eqb_eq.
  split; [by intros [-> ->]|by intros [= -> ->]].
Qed.

Lemma samePolicy_false policy pol :
  samePolicy policy pol = false <-> policyKey pol <> policyKey policy.
Proof. rewrite <- samePolicy_key. by destruct (samePolicy policy pol). Qed.

Lemma replacePolicy_None policy (pols : list Policy) :
  replacePolicy policy pols = None <-> forall q, q ∈ pols -> policyKey q <> policyKey policy.
Proof.
  induction pols as [|pol pols IH]; simpl.
  - split; [by intros _ q Hq%elem_of_nil|done].
  - destruct (samePolicy policy pol) eqn:E.
    + split; [done|]. intros H. apply samePolicy_key in E. destruct (H pol); [left|done].
    + apply samePolicy_false in E.
      destruct (replacePolicy policy pols) as [r|]; simpl.
      * split; [done|]. intros H. exfalso.
        assert (Some r = None) as Hr; [|done].
        apply (proj2 IH). intros q Hq. apply H. by right.
      * split; [|done]. intros _ q Hq. apply elem_of_cons in Hq as [->|Hq]; [done|].
        by apply (proj1 IH).
Qed.

(** A replacement changes the first policy of that key and nothing
    else. *)
Lemma replacePolicy_Some policy (pols pols' : list Policy) :
  replacePolicy policy pols = Some pols' ->
  exists front old back,
    pols = front ++ old :: back /\ pols' = front ++ policy :: back
    /\ policyKey old = policyKey policy
    /\ forall q, q ∈ front -> policyKey q <> policyKey policy.
Proof.
  revert pols'. induction pols as [|pol pols IH]; intros pols'; simpl; [done|].
  destruct (samePolicy policy pol) eqn:E.
  - intros [= <-]. exists [], pol, pols. apply samePolicy_key in E.
    repeat split; try done. by intros q Hq%elem_of_nil.
  - destruct (replacePolicy policy pols) as [r|]; [|done]. simpl. intros [= <-].
    destruct (IH r eq_refl) as (front & old & back & -> & -> & Hold & Hfront).
    exists (pol :: front), old, back. repeat split; try done.
    intros q Hq. apply elem_of_cons in Hq as [->|Hq]; [by apply samePolicy_false|by apply Hfront].
Qed.

Lemma removeFirst_none {A} (f : A -> bool) (l : list A) :
  (forall x, x ∈ l -> f x = false) -> removeFirst f l = l.
Proof.
  induction l as [|a l IH]; intros H; simpl; [done|].
  rewrite (H a) by left. f_equal. apply IH. intros x Hx. apply H. by right.
Qed.

Lemma removeFirst_middle {A} (f : A -> bool) (l1 l2 : list A) a :
  (forall x, x ∈ l1 -> f x = false) -> f a = true ->
  removeFirst f (l1 ++ a :: l2) = l1 ++ l2.
Proof.
  induction l1 as [|b l1 IH]; intros H Ha; simpl; [by rewrite Ha|].
  rewrite (H b) by left. f_equal. apply IH; [|done]. intros x Hx. apply H. by right.
Qed.

Lemma existsb_ref (toFind : nameRef) (l : list nameRef) :
  existsb (fun polName => bool_decide (toFind = polName)) l = true <-> toFind ∈ l.
Proof.
  rewrite existsb_exists. split.
  - intros (x & Hx & Heq). apply bool_decide_eq_true in Heq as <-. by apply list_elem_of_In.
  - intros Hin. exists toFind. split; [by apply list_elem_of_In|by apply bool_decide_eq_true].
Qed.

Lemma SetPolicy_refs rc policy :
  vPolicies (rcVirtual (SetPolicy rc policy))
  = if bool_decide (policyRef policy ∈ vPolicies (rcVirtual rc))
    then vPolicies (rcVirtual rc)
    else vPolicies (rcVirtual rc) ++ [policyRef policy].
Proof.
  unfold SetPolicy. fold (policyRef policy).
  destruct (existsb _ (vPolicies (rcVirtual rc))) eqn:E.
  - apply existsb_ref in E. rewrite bool_decide_eq_true_2 by done.
    by destruct (replacePolicy policy (Policies rc)).
  - rewrite bool_decide_eq_false_2.
    + by destruct (replacePolicy policy (Policies rc)).
    + intros Hin. apply existsb_ref in Hin. congruence.
Qed.

Lemma SetPolicy_fields rc policy :
  MetaData (SetPolicy rc policy) = MetaData rc /\ Pools (SetPolicy rc policy) = Pools rc
  /\ rcVirtual (SetPolicy rc policy)
     = set_vPolicies (rcVirtual rc) (vPolicies (rcVirtual (SetPolicy rc policy))).
Proof.
  unfold SetPolicy.
  destruct (existsb _ (vPolicies (rcVirtual rc))), (replacePolicy policy (Policies rc));
    simpl; repeat split; by destruct (rcVirtual rc).
Qed.

Lemma replacePolicy_at policy (front back : list Policy) old :
  (forall q, q ∈ front -> policyKey q <> policyKey policy) ->
  policyKey old = policyKey policy ->
  replacePolicy policy (front ++ old :: back) = Some (front ++ policy :: back).
Proof.
  intros Hfront Hold. induction front as [|a front IH]; simpl.
  - by rewrite (proj2 (samePolicy_key policy old) Hold).
  - rewrite (proj2 (samePolicy_false policy a)) by (apply Hfront; by left).
    rewrite IH; [done|]. intros q Hq. apply Hfront. by right.
Qed.

Lemma removeFirst_split {A} (f : A -> bool) (l : list A) :
  (removeFirst f l = l /\ forall x, x ∈ l -> f x = false)
  \/ exists l1 a l2, l = l1 ++ a :: l2 /\ removeFirst f l = l1 ++ l2 /\ f a = true
                     /\ forall x, x ∈ l1 -> f x = false.
Proof.
  induction l as [|b l IH]; simpl.
  - left. split; [done|]. by intros x Hx%elem_of_nil.
  - destruct (f b) eqn:E.
    + right. exists [], b, l. repeat split; try done. by intros x Hx%elem_of_nil.
    + destruct IH as [[Heq Hall]|(l1 & a & l2 & -> & Heq & Ha & Hall)].
      * left. rewrite Heq. split; [done|]. intros x Hx.
        apply elem_of_cons in Hx as [->|Hx]; [done|by apply Hall].
      * right. exists (b :: l1), a, l2. rewrite Heq. repeat split; try done.
        intros x Hx. apply elem_of_cons in Hx as [->|Hx]; [done|by apply Hall].
Qed.

(** Taking the first element of a key out of a list in which every
    key occurs at most once. *)
Lemma removeFirst_unique {A B} (g : A -> B) (k : B) (f : A -> bool) (l : list A) :
  (forall x, f x = true <-> g x = k) -> NoDup (g <$> l) ->
  (forall q, q ∈ removeFirst f l <-> q ∈ l /\ g q <> k)
  /\ removeFirst f (removeFirst f l) = removeFirst f l.
Proof.
  intros Hf Hnd.
  assert (forall x, f x = false <-> g x <> k) as Hf'.
  { intros x. rewrite <- Hf. by destruct (f x). }
  destruct (removeFirst_split f l) as [[Heq Hall]|(l1 & a & l2 & -> & Heq & Ha & Hall)].
  - rewrite !Heq. split; [|done]. intros q. split; [|tauto].
    intros Hq. split; [done|]. by apply Hf', Hall.
  - rewrite Heq. rewrite fmap_app, fmap_cons in Hnd.
    apply NoDup_app in Hnd as (Hnd1 & Hdis & Hnd2). apply NoDup_cons in Hnd2 as [Ha2 Hnd2].
    apply Hf in Ha.
    assert (forall x, x ∈ l2 -> g x <> k) as Hall2.
    { intros x Hx Hk. apply Ha2. rewrite Ha, <- Hk. apply list_elem_of_fmap. by exists x. }
    split.
    + intros q. rewrite !elem_of_app, elem_of_cons. split.
      * intros [Hq|Hq]; (split; [tauto|]); [by apply Hf', Hall|by apply Hall2].
      * intros [[Hq|[->|Hq]] Hk]; [by left|done|by right].
    + apply removeFirst_none. intros x Hx. apply Hf'.
      apply elem_of_app in Hx as [Hx|Hx]; [by apply Hf', Hall|by apply Hall2].
Qed.

(** The policy list after [SetPolicy], as a list. *)
Lemma SetPolicy_policies rc policy :
  (exists front old back,
      Policies rc = front ++ old :: back
      /\ Policies (SetPolicy rc policy) = front ++ policy :: back
      /\ policyKey old = policyKey policy
      /\ forall q, q ∈ front -> policyKey q <> policyKey policy)
  \/ (Policies (SetPolicy rc policy) = Policies rc ++ [policy]
      /\ forall q, q ∈ Policies rc -> policyKey q <> policyKey policy).
Proof.
  unfold SetPolicy. destruct (replacePolicy policy (Policies rc)) as [pols|] eqn:E.
  - left. apply replacePolicy_Some in E as (front & old & back & H1 & H2 & H3 & H4).
    by exists front, old, back.
  - right. split; [done|]. by apply replacePolicy_None.
Qed.

End PolicyListFacts.

(** [SetPolicy]: afterwards the policy is in [rc.Policies] and its
    name and partition are among the policy references of the virtual;
    the policies of another name or partition are the ones that were
    there; a policy list, or a reference list, without repeats stays
    without repeats, and then the policy is the only one of its name
    and partition; setting the same policy again changes nothing. *)
Theorem X_SetPolicy {Member : Type} (rc : @Engine.ResourceConfig Member)
        (policy : Engine.Policy) :
  let rc' := Engine.SetPolicy rc policy in
  policy ∈ Engine.Policies rc'
  /\ Engine.policyRef policy ∈ vPolicies (Engine.rcVirtual rc')
  /\ (forall q, Engine.policyKey q <> Engine.policyKey policy ->
                (q ∈ Engine.Policies rc' <-> q ∈ Engine.Policies rc))
  /\ (NoDup (Engine.policyKey <$> Engine.Policies rc) ->
      NoDup (Engine.policyKey <$> Engine.Policies rc')
      /\ forall q, q ∈ Engine.Policies rc' ->
                   Engine.policyKey q = Engine.policyKey policy -> q = policy)
  /\ (NoDup (vPolicies (Engine.rcVirtual rc)) -> NoDup (vPolicies (Engine.rcVirtual rc')))
  /\ Engine.SetPolicy rc' policy = rc'.
Proof.
  simpl. pose proof (SetPolicy_refs rc policy) as Hrefs.
  pose proof (SetPolicy_policies rc policy) as Hpols.
  assert (policy ∈ Engine.Policies (Engine.SetPolicy rc policy)) as Hin
      by apply SetPolicy_elem.
  assert (Engine.policyRef policy ∈ vPolicies (Engine.rcVirtual (Engine.SetPolicy rc policy)))
    as Href.
  { rewrite Hrefs. case_bool_decide; [done|]. set_solver. }
  assert (NoDup (Engine.policyKey <$> Engine.Policies rc) ->
          NoDup (Engine.policyKey <$> Engine.Policies (Engine.SetPolicy rc policy))) as Hnd.
  { intros Hnd. destruct Hpols as [(front & old & back & H1 & H2 & H3 & H4)|[H1 H2]].
    - rewrite H2, fmap_app, fmap_cons, <- H3. by rewrite H1, fmap_app, fmap_cons in Hnd.
    - rewrite H1, fmap_app. apply NoDup_app. split; [done|]. split; [|apply NoDup_singleton].
      intros k Hk Hk'. apply list_elem_of_singleton in Hk' as ->.
      apply list_elem_of_fmap in Hk as (q & Hq & Hqin). by apply (H2 q Hqin). }
  split; [done|]. split; [done|]. split; [|split; [|split]].
  - intros q Hq. destruct Hpols as [(front & old & back & H1 & H2 & H3 & H4)|[H1 H2]].
    + rewrite H1, H2, !elem_of_app, !elem_of_cons.
      split; intros [?|[->|?]]; try congruence; tauto.
    + rewrite H1, elem_of_app, list_elem_of_singleton.
      split; [intros [?| ->]; [done|congruence]|by left].
  - intros Hnd0. split; [by apply Hnd|]. intros q Hq Hk.
    by apply (NoDup_fmap_eq Engine.policyKey _ q policy (Hnd Hnd0)).
  - intros Hnd0. rewrite Hrefs. case_bool_decide; [done|].
    apply NoDup_app. split; [done|]. split; [|apply NoDup_singleton].
    intros x Hx Hx'. apply list_elem_of_singleton in Hx' as ->. done.
  - unfold Engine.SetPolicy at 1. fold (Engine.policyRef policy).
    rewrite (proj2 (existsb_ref _ _) Href).
    assert (Engine.replacePolicy policy (Engine.Policies (Engine.SetPolicy rc policy))
            = Some (Engine.Policies (Engine.SetPolicy rc policy))) as ->.
    { destruct Hpols as [(front & old & back & H1 & H2 & H3 & H4)|[H1 H2]].
      - rewrite H2. by apply replacePolicy_at.
      - rewrite H1. by apply (replacePolicy_at policy (Engine.Policies rc) [] policy). }
    by destruct (Engine.SetPolicy rc policy).
Qed.

Lemma X_SetPolicy_witness :
  NoDup (Engine.policyKey <$> Engine.Policies
                                 (Engine.SetPolicy Examples.config0
                                    (Engine.mkPolicy "other" "test" [] [] Engine.nilSlice))).
Proof.
  apply (proj1 (proj1 (proj2 (proj2 (proj2
           (X_SetPolicy Examples.config0
              (Engine.mkPolicy "other" "test" [] [] Engine.nilSlice)))))
         ltac:(refine (bool_decide_unpack _ _); vm_compute; exact I))).
Defined.

(** [RemovePolicy] takes the first policy of that name and partition
    out of [rc.Policies] and the first such reference out of the
    virtual: on lists without repeats, none of that name and partition
    is left and all others stay; removing once more changes nothing;
    and removing a policy that was set on a config that had none of
    its name and partition, and no reference to it, gives the config
    back. *)
Theorem X_RemovePolicy {Member : Type} (rc : @Engine.ResourceConfig Member)
        (policy : Engine.Policy) :
  let rc' := Engine.RemovePolicy rc policy in
  (NoDup (Engine.policyKey <$> Engine.Policies rc) ->
   NoDup (vPolicies (Engine.rcVirtual rc)) ->
   (forall q, q ∈ Engine.Policies rc' <->
              q ∈ Engine.Policies rc /\ Engine.policyKey q <> Engine.policyKey policy)
   /\ (forall n, n ∈ vPolicies (Engine.rcVirtual rc') <->
                 n ∈ vPolicies (Engine.rcVirtual rc) /\ n <> Engine.policyRef policy)
   /\ Engine.RemovePolicy rc' policy = rc')
  /\ ((forall q, q ∈ Engine.Policies rc -> Engine.policyKey q <> Engine.policyKey policy) ->
      Engine.policyRef policy ∉ vPolicies (Engine.rcVirtual rc) ->
      Engine.RemovePolicy (Engine.SetPolicy rc policy) policy = rc).
Proof.
  simpl. split.
  - intros Hnd Hrefs.
    destruct (removeFirst_unique Engine.policyKey (Engine.policyKey policy)
                (Engine.samePolicy policy) (Engine.Policies rc)
                (fun x => samePolicy_key policy x) Hnd) as [Hp1 Hp2].
    destruct (removeFirst_unique id (Engine.policyRef policy)
                (fun polName => bool_decide (Engine.policyRef policy = polName))
                (vPolicies (Engine.rcVirtual rc))) as [Hr1 Hr2].
    { intros x. rewrite bool_decide_eq_true. unfold id. split; congruence. }
    { by rewrite list_fmap_id. }
    split; [exact Hp1|]. split; [exact Hr1|].
    unfold Engine.RemovePolicy. simpl. fold (Engine.policyRef policy).
    by rewrite Hp2, Hr2.
  - intros Hnone Href. unfold Engine.RemovePolicy, Engine.SetPolicy.
    fold (Engine.policyRef policy).
    assert (existsb (fun polName => bool_decide (Engine.policyRef policy = polName))
                    (vPolicies (Engine.rcVirtual rc)) = false) as ->.
    { destruct (existsb _ _) eqn:E; [|done]. by apply existsb_ref in E. }
    rewrite (proj2 (replacePolicy_None policy (Engine.Policies rc)) Hnone). simpl.
    rewrite (removeFirst_middle _ (vPolicies (Engine.rcVirtual rc)) []).
    + rewrite (removeFirst_middle _ (Engine.Policies rc) []).
      * rewrite !app_nil_r. destruct rc as [md v pools pols]. simpl. by destruct v.
      * intros x Hx. by apply samePolicy_false, Hnone.
      * by apply samePolicy_key.
    + intros x Hx. apply bool_decide_eq_false. by intros <-.
    + by apply bool_decide_eq_true.
Qed.

Lemma X_RemovePolicy_witness :
  Engine.RemovePolicy
    (Engine.SetPolicy Examples.config0 (Engine.mkPolicy "other" "test" [] [] Engine.nilSlice))
    (Engine.mkPolicy "other" "test" [] [] Engine.nilSlice)
  = Examples.config0.
Proof.
  apply (proj2 (X_RemovePolicy Examples.config0
                  (Engine.mkPolicy "other" "test" [] [] Engine.nilSlice))).
  - intros q Hq. apply list_elem_of_singleton in Hq as ->. discriminate.
  - intros Hin. apply list_elem_of_singleton in Hin. discriminate.
Defined.

(** ** Pool members *)

Section PoolMemberFacts.
Import Engine.
Context {Member : Type}.

Lemma fold_members (pools : list (@Pool Member)) (acc : list Member) :
  fold_left (fun all pool => all ++ Members pool) pools acc = acc ++ (pools ≫= Members).
Proof.
  revert acc. induction pools as [|p pools IH]; intros acc; simpl.
  - by rewrite app_nil_r.
  - by rewrite IH, <- app_assoc.
Qed.

End PoolMemberFacts.

(** [GetAllPoolMembers] returns the members of the pools of the
    active configs, config after config and pool after pool; a config
    that is not active gives none. *)
Theorem X_GetAllPoolMembers {Member : Type} (rcs : list (@Engine.ResourceConfig Member)) :
  Engine.GetAllPoolMembers rcs
  = filter (fun cfg => Engine.Active (Engine.MetaData cfg) = true) rcs
      ≫= (fun cfg => Engine.Pools cfg ≫= Engine.Members)
  /\ forall m, m ∈ Engine.GetAllPoolMembers rcs <->
               exists cfg pool, cfg ∈ rcs /\ Engine.Active (Engine.MetaData cfg) = true
                                /\ pool ∈ Engine.Pools cfg /\ m ∈ Engine.Members pool.
Proof.
  assert (forall acc,
             fold_left (fun allPoolMembers (cfg : @Engine.ResourceConfig Member) =>
                          if Engine.Active (Engine.MetaData cfg) then
                            fold_left (fun all pool => all ++ Engine.Members pool)
                                      (Engine.Pools cfg) allPoolMembers
                          else allPoolMembers) rcs acc
             = acc ++ (filter (fun cfg => Engine.Active (Engine.MetaData cfg) = true) rcs
                         ≫= (fun cfg => Engine.Pools cfg ≫= Engine.Members))) as Hfold.
  { induction rcs as [|cfg rcs IH]; intros acc; simpl.
    - by rewrite app_nil_r.
    - rewrite IH, filter_cons. destruct (Engine.Active (Engine.MetaData cfg)) eqn:E.
      + rewrite decide_True by done. rewrite fold_members, bind_cons. by rewrite <- app_assoc.
      + by rewrite decide_False by done. }
  assert (Engine.GetAllPoolMembers rcs
          = filter (fun cfg => Engine.Active (Engine.MetaData cfg) = true) rcs
              ≫= (fun cfg => Engine.Pools cfg ≫= Engine.Members)) as Heq.
  { unfold Engine.GetAllPoolMembers. by rewrite Hfold. }
  split; [exact Heq|]. intros m. rewrite Heq, list_elem_of_bind. split.
  - intros (cfg & Hm & Hcfg). apply list_elem_of_filter in Hcfg as [Hact Hcfg].
    apply list_elem_of_bind in Hm as (pool & Hm & Hpool). by exists cfg, pool.
  - intros (cfg & pool & Hcfg & Hact & Hpool & Hm). exists cfg. split.
    + apply list_elem_of_bind. by exists pool.
    + by apply list_elem_of_filter.
Qed.

(** ** Removing rules, exactly *)

Section RemoveExactly.
Import Engine.
Context {ActionBody CondBody : Type}.
Implicit Types (h : @Heap ActionBody CondBody) (pol : Policy).

Lemma policyOk_length h pol : policyOk h pol -> length (view h (Rules pol)) = sLen (Rules pol).
Proof.
  intros [(arr & Harr & Hb) _]. rewrite (view_array h _ arr Harr). by apply viewArr_length.
Qed.

(** [RemoveRuleAt] at an offset inside the rule list. *)
Lemma RemoveRuleAt_delete h pol (o : nat) :
  policyOk h pol -> (o < sLen (Rules pol))%nat ->
  exists pol' h',
    RemoveRuleAt pol (Z.of_nat o) h = Some ((pol', true), h')
    /\ policyOk h' pol'
    /\ view h' (Rules pol') = delete o (view h (Rules pol))
    /\ pol' = set_Rules pol (mkSlice (sArr (Rules pol)) (sOff (Rules pol))
                                     (sLen (Rules pol) - 1) (sCap (Rules pol)))
    /\ hRules h' = <[freshLoc (hRules h) := zeroRule]> (hRules h)
    /\ hActions h' = hActions h /\ hConds h' = hConds h /\ hMaps h' = hMaps h
    /\ (forall a, a <> sArr (Rules pol) -> hArrays h' !! a = hArrays h !! a).
Proof.
  intros [(arr & Harr & Hlen) [Hall Hnd]] Ho. unfold RemoveRuleAt.
  destruct (Z.geb_spec (Z.of_nat o) (Z.of_nat (sLen (Rules pol)))) as [Hge|Hlt]; [lia|].
  destruct (Z.ltb_spec (Z.of_nat o) 0) as [?|_]; [lia|].
  rewrite Harr. unfold bind, allocRule, writeArray, ret. simpl. rewrite Nat2Z.id.
  set (s := Rules pol) in *. set (z := freshLoc (hRules h)).
  set (moved := <[(sOff s + sLen s - 1)%nat := z]>
                   (moveDown arr (sOff s + o) (sOff s + sLen s))).
  eexists _, _. split; [reflexivity|].
  assert (Hview : viewArr moved (mkSlice (sArr s) (sOff s) (sLen s - 1) (sCap s))
                  = delete o (viewArr arr s)).
  { apply viewArr_moveDown; lia. }
  rewrite (view_array h s arr Harr) in *.
  assert (Hsub : delete o (viewArr arr s) `sublist_of` viewArr arr s) by apply sublist_delete.
  unfold policyOk, view. simpl. rewrite lookup_insert_eq. simpl. rewrite Hview.
  split; [|split; [done|]].
  - split; [|split].
    + exists moved. split; [done|]. unfold moved.
      rewrite length_insert, moveDown_length; lia.
    + apply Forall_forall. intros p Hp. rewrite lookup_insert_is_Some'. right.
      rewrite Forall_forall in Hall. apply Hall. by eapply elem_of_sublist.
    + by eapply sublist_NoDup.
  - repeat split; try done. intros a Ha. by rewrite lookup_insert_ne.
Qed.

Lemma NoDup_delete_elem {A} (l : list A) (o : nat) (p : A) :
  NoDup l -> p ∈ delete o l <-> p ∈ l /\ l !! o <> Some p.
Proof.
  intros Hnd. rewrite !list_elem_of_lookup. split.
  - intros [k Hk]. rewrite list_lookup_delete in Hk. case_decide.
    + split; [by exists k|]. intros Ho.
      pose proof (NoDup_lookup _ _ _ _ Hnd Hk Ho). lia.
    + split; [by exists (S k)|]. intros Ho.
      pose proof (NoDup_lookup _ _ _ _ Hnd Hk Ho). lia.
  - intros [[k Hk] Ho]. destruct (decide (k < o)%nat).
    + exists k. rewrite list_lookup_delete. by rewrite decide_True.
    + destruct k as [|k]; [destruct o; [congruence|lia]|].
      destruct (decide (S k = o)) as [<-|]; [congruence|].
      exists k. rewrite list_lookup_delete. rewrite decide_False by lia. done.
Qed.

(** The calls of [RemoveRuleAt] inside [RemoveRules], for offsets
    that are in range and strictly ascending: the rules at those
    offsets go, the others stay in their order, and no rule that was
    on the heap changes. *)
Lemma removeOne_ascending (offsets : list nat) h pol :
  policyOk h pol -> StronglySorted lt offsets ->
  Forall (fun o => o < sLen (Rules pol))%nat offsets ->
  exists pol' h',
    foldM removeOne (Z.of_nat <$> rev offsets) pol h = Some (pol', h')
    /\ policyOk h' pol'
    /\ view h' (Rules pol') `sublist_of` view h (Rules pol)
    /\ (forall p, p ∈ view h' (Rules pol') <->
                  p ∈ view h (Rules pol)
                  /\ forall o, o ∈ offsets -> view h (Rules pol) !! o <> Some p)
    /\ (sLen (Rules pol') + length offsets = sLen (Rules pol))%nat
    /\ pName pol' = pName pol /\ pPartition pol' = pPartition pol
    /\ Controls pol' = Controls pol /\ Requires pol' = Requires pol
    /\ (forall p r, hRules h !! p = Some r -> hRules h' !! p = Some r)
    /\ hActions h' = hActions h /\ hConds h' = hConds h.
Proof.
  revert h pol. induction offsets as [|o init IH] using rev_ind; intros h pol Hok Hs Hin.
  - exists pol, h. split; [reflexivity|]. split; [done|]. split; [done|].
    split; [|repeat split; try done; simpl; lia].
    intros p. split; [|tauto]. intros Hp. split; [done|]. by intros o Ho%elem_of_nil.
  - rewrite rev_app_distr. simpl.
    apply Forall_app in Hin as [Hinit Ho]. apply Forall_cons in Ho as [Ho _].
    pose proof (StronglySorted_app_1_l _ _ _ Hs) as Hs1.
    assert (forall x, x ∈ init -> (x < o)%nat) as Hlt.
    { intros x Hx. apply (StronglySorted_app_1_elem_of _ _ _ x o Hs Hx). by left. }
    destruct (RemoveRuleAt_delete h pol o Hok Ho)
      as (pol1 & h1 & Hrun & Hok1 & Hview1 & Hpol1 & HR1 & HA1 & HC1 & HM1 & _).
    destruct (IH h1 pol1 Hok1 Hs1) as (pol2 & h2 & Hrun2 & Hok2 & Hsub2 & Hmem2 & Hlen2
                                       & Hn & Hp & Hc & Hr & HR2 & HA2 & HC2).
    { apply Forall_forall. intros x Hx. rewrite Forall_forall in Hinit.
      specialize (Hlt x Hx). rewrite Hpol1. simpl. lia. }
    exists pol2, h2. unfold bind at 1. unfold removeOne at 1. unfold bind at 1.
    rewrite Hrun. simpl. split; [exact Hrun2|]. split; [done|].
    pose proof Hok as (_ & _ & Hnd).
    split; [etrans; [exact Hsub2|]; rewrite Hview1; apply sublist_delete|].
    split; [|split; [|split; [|split; [|split; [|split; [|split]]]]]].
    + intros p. rewrite Hmem2, Hview1, (NoDup_delete_elem _ _ _ Hnd). split.
      * intros [[Hp0 Hpo] Hrest]. split; [done|]. intros x Hx.
        apply elem_of_app in Hx as [Hx|Hx].
        -- specialize (Hrest x Hx). rewrite list_lookup_delete in Hrest.
           by rewrite decide_True in Hrest by (by apply Hlt).
        -- by apply list_elem_of_singleton in Hx as ->.
      * intros [Hp0 Hall]. split; [split; [done|apply Hall; set_solver]|].
        intros x Hx. rewrite list_lookup_delete.
        rewrite decide_True by (by apply Hlt). apply Hall. set_solver.
    + rewrite length_app. simpl. rewrite Hpol1 in Hlen2. simpl in Hlen2. lia.
    + by rewrite Hn, Hpol1.
    + by rewrite Hp, Hpol1.
    + by rewrite Hc, Hpol1.
    + by rewrite Hr, Hpol1.
    + intros p r Hpr. apply HR2. rewrite HR1. rewrite lookup_insert_ne; [done|].
      intros <-. by rewrite (proj1 (freshLoc_fresh (hRules h))) in Hpr.
    + split; congruence.
Qed.

Lemma rev_fmap {A B} (f : A -> B) (l : list A) : rev (f <$> l) = f <$> rev l.
Proof.
  induction l as [|a l IH]; [done|].
  rewrite fmap_cons. cbn [rev]. by rewrite IH, fmap_app.
Qed.

(** The renumbering loop writes ordinals and nothing else. *)
Lemma fixOrdinals_shape (rules : list loc) i h h' :
  fixOrdinals i rules h = Some (tt, h') ->
  hActions h' = hActions h /\ hConds h' = hConds h
  /\ forall p r, hRules h !! p = Some r ->
                 exists z, hRules h' !! p = Some (set_Ordinal r z).
Proof.
  revert i h. induction rules as [|q rules IH]; intros i h; cbn [fixOrdinals].
  - intros [= <-]. repeat split; try done. intros p r Hp. exists (Ordinal r). by destruct r.
  - unfold bind at 1, readRule at 1. destruct (hRules h !! q) as [rq|] eqn:Hq; [|done]. simpl.
    unfold bind at 1, writeRule at 1. rewrite Hq. intros Hrun.
    apply IH in Hrun as (HA & HC & HR). simpl in *. repeat split; try done.
    intros p r Hp. destruct (decide (p = q)) as [->|Hne].
    + destruct (HR q (set_Ordinal rq (Z.of_nat i))) as [z Hz]; [by rewrite lookup_insert_eq|].
      exists z. rewrite Hz. assert (r = rq) as -> by congruence. done.
    + apply HR. by rewrite lookup_insert_ne.
Qed.

End RemoveExactly.

(** [RemoveRuleAt]: an offset at or beyond the length changes
    nothing and gives false; a negative offset panics; an offset inside
    the list gives true and takes the rule at that offset out, the
    other rules keeping their order, and no rule that was on the heap
    changes. *)
Theorem X_RemoveRuleAt {ActionBody CondBody : Type}
        (h : @Engine.Heap ActionBody CondBody) (pol : Engine.Policy) (offset : Z) :
  Engine.policyOk h pol ->
  ((Z.of_nat (Engine.sLen (Engine.Rules pol)) <= offset)%Z ->
   Engine.RemoveRuleAt pol offset h = Some ((pol, false), h))
  /\ ((offset < 0)%Z -> Engine.RemoveRuleAt pol offset h = None)
  /\ ((0 <= offset < Z.of_nat (Engine.sLen (Engine.Rules pol)))%Z ->
      exists pol' h',
        Engine.RemoveRuleAt pol offset h = Some ((pol', true), h')
        /\ Engine.view h' (Engine.Rules pol')
           = delete (Z.to_nat offset) (Engine.view h (Engine.Rules pol))
        /\ Engine.policyOk h' pol'
        /\ pol' = Engine.set_Rules pol (Engine.Rules pol')
        /\ (forall p r, Engine.hRules h !! p = Some r -> Engine.hRules h' !! p = Some r)
        /\ Engine.hActions h' = Engine.hActions h
        /\ Engine.hConds h' = Engine.hConds h).
Proof.
  intros Hok. split; [|split].
  - intros Hge. unfold Engine.RemoveRuleAt.
    by destruct (Z.geb_spec offset (Z.of_nat (Engine.sLen (Engine.Rules pol)))); [|lia].
  - intros Hneg. unfold Engine.RemoveRuleAt.
    destruct (Z.geb_spec offset (Z.of_nat (Engine.sLen (Engine.Rules pol)))); [lia|].
    by destruct (Z.ltb_spec offset 0); [|lia].
  - intros Hin.
    destruct (RemoveRuleAt_delete h pol (Z.to_nat offset) Hok ltac:(lia))
      as (pol' & h' & Hrun & Hok' & Hview & Hpol & HR & HA & HC & _).
    rewrite Z2Nat.id in Hrun by lia.
    exists pol', h'. split; [done|]. split; [done|]. split; [done|].
    split; [rewrite Hpol; reflexivity|]. split; [|done].
    intros p r Hp. rewrite HR, lookup_insert_ne; [done|].
    intros <-. by rewrite (proj1 (freshLoc_fresh (Engine.hRules h))) in Hp.
Qed.

Lemma X_RemoveRuleAt_witness :
  exists pol' h',
    Engine.RemoveRuleAt Examples.policy1 1 Examples.heap1 = Some ((pol', true), h')
    /\ Engine.view h' (Engine.Rules pol') = [1; 3]%nat.
Proof.
  assert (Engine.policyOk Examples.heap1 Examples.policy1) as Hok.
  { split; [|split].
    - exists [1; 2; 3]%nat. split; [reflexivity|simpl; lia].
    - refine (bool_decide_unpack _ _). vm_compute. exact I.
    - refine (bool_decide_unpack _ _). vm_compute. exact I. }
  destruct (proj2 (proj2 (X_RemoveRuleAt Examples.heap1 Examples.policy1 1 Hok)))
    as (pol' & h' & Hrun & Hview & _); [simpl; lia|].
  exists pol', h'. split; [exact Hrun|exact Hview].
Defined.

(** [RemoveRules] with offsets that are in range and strictly
    ascending does not panic and returns true; the rules left are the
    old ones, in their order, less exactly those that stood at the
    offsets; their ordinals are [0 .. N-1]; of the rules that were on
    the heap only the ordinals have changed, and the policy differs
    from the old one in its rule list only. *)
Theorem X_RemoveRules_exact {ActionBody CondBody : Type}
        (h : @Engine.Heap ActionBody CondBody) (pol : Engine.Policy) (offsets : list nat) :
  Engine.policyOk h pol ->
  offsets <> [] ->
  StronglySorted lt offsets ->
  Forall (fun o => o < Engine.sLen (Engine.Rules pol))%nat offsets ->
  exists pol' h',
    Engine.RemoveRules pol (Z.of_nat <$> offsets) h = Some ((pol', true), h')
    /\ Engine.view h' (Engine.Rules pol') `sublist_of` Engine.view h (Engine.Rules pol)
    /\ (forall p, p ∈ Engine.view h' (Engine.Rules pol') <->
                  p ∈ Engine.view h (Engine.Rules pol)
                  /\ forall o, o ∈ offsets -> Engine.view h (Engine.Rules pol) !! o <> Some p)
    /\ (length (Engine.view h' (Engine.Rules pol')) + length offsets
        = length (Engine.view h (Engine.Rules pol)))%nat
    /\ Engine.contiguousOrdinals h' pol'
    /\ pol' = Engine.set_Rules pol (Engine.Rules pol')
    /\ (forall p r, Engine.hRules h !! p = Some r ->
                    exists z, Engine.hRules h' !! p = Some (Engine.set_Ordinal r z))
    /\ Engine.hActions h' = Engine.hActions h
    /\ Engine.hConds h' = Engine.hConds h.
Proof.
  intros Hok Hne Hs Hin. unfold Engine.RemoveRules.
  replace (0 <? length (Z.of_nat <$> offsets))%nat with true
    by (destruct offsets; [done|reflexivity]).
  rewrite rev_fmap.
  destruct (removeOne_ascending offsets h pol Hok Hs Hin)
    as (pol1 & h1 & Hrun & Hok1 & Hsub & Hmem & Hlen & Hn & Hp & Hc & Hr & HR1 & HA1 & HC1).
  pose proof Hok1 as [(arr & Harr & Hb) [Hall Hnd]].
  destruct (fixOrdinals_ok (Engine.view h1 (Engine.Rules pol1)) 0 h1 Hnd Hall)
    as (h2 & Hfix & Harr2 & Hord & _).
  pose proof (fixOrdinals_shape _ _ _ _ Hfix) as (HA2 & HC2 & HR2).
  assert (Engine.view h2 (Engine.Rules pol1) = Engine.view h1 (Engine.Rules pol1)) as Hview.
  { unfold Engine.view. by rewrite Harr2. }
  exists pol1, h2. split.
  { unfold Engine.bind at 1. rewrite Hrun.
    unfold Engine.bind, Engine.readSlice, Engine.ret. by rewrite Hfix. }
  rewrite Hview. split; [done|]. split; [done|]. split.
  { rewrite (policyOk_length h1 pol1 Hok1), (policyOk_length h pol Hok). lia. }
  split; [|split; [|split; [|split]]].
  - unfold Engine.contiguousOrdinals, Engine.ordinals. rewrite Hview.
    apply list_eq. intros k. rewrite !list_lookup_fmap.
    destruct (Engine.view h1 (Engine.Rules pol1) !! k) as [p|] eqn:Hk; simpl.
    + rewrite (Hord k p Hk). rewrite lookup_seq_lt by (by eapply lookup_lt_Some). done.
    + apply lookup_ge_None in Hk. by rewrite lookup_seq_ge.
  - destruct pol, pol1. unfold Engine.set_Rules. simpl in *. congruence.
  - intros p r Hpr. by apply HR2, HR1.
  - congruence.
  - congruence.
Qed.

Lemma X_RemoveRules_exact_witness :
  exists pol' h',
    Engine.RemoveRules Examples.policy1 (Z.of_nat <$> [0; 2]%nat) Examples.heap1
    = Some ((pol', true), h')
    /\ Engine.view h' (Engine.Rules pol') `sublist_of` [1; 2; 3]%nat
    /\ length (Engine.view h' (Engine.Rules pol')) = 1%nat.
Proof.
  assert (Engine.policyOk Examples.heap1 Examples.policy1) as Hok.
  { split; [|split].
    - exists [1; 2; 3]%nat. split; [reflexivity|simpl; lia].
    - refine (bool_decide_unpack _ _). vm_compute. exact I.
    - refine (bool_decide_unpack _ _). vm_compute. exact I. }
  destruct (X_RemoveRules_exact Examples.heap1 Examples.policy1 [0; 2]%nat Hok)
    as (pol' & h' & Hrun & Hsub & _ & Hlen & _).
  - discriminate.
  - repeat constructor.
  - repeat constructor; simpl; lia.
  - exists pol', h'. split; [exact Hrun|]. split; [exact Hsub|].
    change (length (Engine.view Examples.heap1 (Engine.Rules Examples.policy1))) with 3%nat
      in Hlen.
    simpl in Hlen. lia.
Defined.

(** ** Nothing to merge *)

Section QuietFacts.
Import Engine.
Context {ActionBody CondBody Member : Type}.
Context `{!EqDecision ActionBody, !EqDecision CondBody}.
Implicit Types (h : @Heap ActionBody CondBody) (rc : @ResourceConfig Member).

Lemma allQuiet_pairs h (rules : list loc) :
  NoDup rules -> allQuiet h rules ->
  ForallOrdPairs (fun pa pb => quietPair h pa pb = true) rules.
Proof.
  intros Hnd Hq.
  assert (forall pa pb, pa ∈ rules -> pb ∈ rules -> pa <> pb -> quietPair h pa pb = true) as H.
  { intros pa pb Ha Hb Hne. unfold allQuiet in Hq. rewrite Forall_forall in Hq.
    specialize (Hq pa Ha). rewrite Forall_forall in Hq. by destruct (Hq pb Hb). }
  clear Hq. induction rules as [|a rules IH]; [constructor|].
  apply NoDup_cons in Hnd as [Ha Hnd]. constructor.
  - apply Forall_forall. intros b Hb. apply H; [by left|by right|by intros ->].
  - apply IH; [done|]. intros pa pb Hpa Hpb. apply H; by right.
Qed.

Lemma SetPolicy_same rc policy :
  policy ∈ Policies rc -> NoDup (policyKey <$> Policies rc) ->
  policyRef policy ∈ vPolicies (rcVirtual rc) ->
  SetPolicy rc policy = rc.
Proof.
  intros Hin Hnd Href. unfold SetPolicy. fold (policyRef policy).
  rewrite (proj2 (existsb_ref _ _) Href).
  apply list_elem_of_split in Hin as (front & back & Heq).
  rewrite Heq in Hnd. rewrite fmap_app, fmap_cons in Hnd.
  apply NoDup_app in Hnd as (_ & Hdis & _).
  rewrite Heq, (replacePolicy_at policy front back policy); [|  |done].
  - rewrite <- Heq. by destruct rc.
  - intros q Hq Hk. apply (Hdis (policyKey q)); [apply list_elem_of_fmap; by exists q|].
    rewrite Hk. by left.
Qed.

End QuietFacts.

(** [MergeRules] with nothing to merge: without a forwarding policy
    it returns at once; with one in which no two rules merge it reads
    the rules and leaves the heap and the merge records as they are,
    and the config it leaves is the old one with the policy set again -
    the old one itself when the policy keys are all different and the
    virtual already refers to the policy. *)
Theorem X_MergeRules_nothing_to_merge
        {ActionBody CondBody Member : Type}
        `{!EqDecision ActionBody, !EqDecision CondBody}
        (rc : @Engine.ResourceConfig Member)
        (m : gmap string (gmap string Engine.mergedRuleEntry))
        (h : @Engine.Heap ActionBody CondBody) :
  (Engine.FindPolicy rc "forwarding" = None -> Engine.MergeRules rc m h = Some ((rc, m), h))
  /\ (forall policy,
         Engine.FindPolicy rc "forwarding" = Some policy ->
         Engine.policyOk h policy ->
         Engine.allQuiet h (Engine.view h (Engine.Rules policy)) ->
         Engine.MergeRules rc m h = Some ((Engine.SetPolicy rc policy, m), h)
         /\ (NoDup (Engine.policyKey <$> Engine.Policies rc) ->
             Engine.policyRef policy ∈ vPolicies (Engine.rcVirtual rc) ->
             Engine.SetPolicy rc policy = rc)).
Proof.
  split.
  - intros Hnone. unfold Engine.MergeRules. by rewrite Hnone.
  - intros policy Hfind (_ & Hall & Hnd) Hq. split.
    + unfold Engine.MergeRules. rewrite Hfind.
      unfold Engine.bind at 1, Engine.readSlice at 1. unfold Engine.bind at 1.
      rewrite (outerLoop_quiet _ _ 0 _ h Hall (allQuiet_pairs h _ Hnd Hq)). simpl.
      unfold Engine.bind, Engine.ret. simpl. by rewrite set_Rules_id.
    + intros Hkeys Href. apply SetPolicy_same; [|done|done].
      unfold Engine.FindPolicy in Hfind. apply find_first in Hfind as (i & Hi & _).
      by eapply list_elem_of_lookup_2.
Qed.

Lemma X_MergeRules_nothing_to_merge_witness :
  Engine.MergeRules Examples.configTail ∅ Examples.heap1
  = Some ((Examples.configTail, ∅), Examples.heap1).
Proof.
  destruct (proj2 (X_MergeRules_nothing_to_merge Examples.configTail ∅ Examples.heap1)
              Examples.policyTail eq_refl) as [Hrun Hsame].
  - split; [|split].
    + exists [1; 2; 3]%nat. split; [reflexivity|simpl; lia].
    + refine (bool_decide_unpack _ _). vm_compute. exact I.
    + refine (bool_decide_unpack _ _). vm_compute. exact I.
  - refine (bool_decide_unpack _ _). vm_compute. exact I.
  - rewrite Hrun, Hsame; [done| |].
    + refine (bool_decide_unpack _ _). vm_compute. exact I.
    + refine (bool_decide_unpack _ _). vm_compute. exact I.
Defined.

(** ** Adding and deleting one rule *)

Section OneRuleFacts.
Import Engine.
Context {ActionBody CondBody Member : Type}.
Context `{!EqDecision ActionBody, !EqDecision CondBody}.
Implicit Types (h : @Heap ActionBody CondBody) (rc : @ResourceConfig Member).

Lemma findSameRule_found h rule t i (l1 : list loc) p l2 r :
  hRules h !! rule = Some t -> hRules h !! p = Some r -> sameRule r t = true ->
  Forall (fun q => otherRule h t q = true) l1 ->
  findSameRule rule i (l1 ++ p :: l2) h = Some (Some (i + length l1)%nat, h).
Proof.
  intros Ht Hp Hsame. revert i. induction l1 as [|q l1 IH]; intros i Hl1; simpl.
  - unfold bind, readRule. rewrite Hp. simpl. rewrite Ht. simpl.
    unfold sameRule in Hsame. rewrite Hsame. by rewrite Nat.add_0_r.
  - apply Forall_cons in Hl1 as [Hq Hl1]. unfold otherRule in Hq.
    destruct (hRules h !! q) as [rq|] eqn:Hrq; [|done].
    unfold bind, readRule. rewrite Hrq. simpl. rewrite Ht. simpl.
    unfold sameRule in Hq. apply negb_true_iff in Hq. rewrite Hq.
    rewrite IH by done. do 3 f_equal. lia.
Qed.

Lemma findSameRule_none h rule t i (l : list loc) :
  hRules h !! rule = Some t -> Forall (fun q => otherRule h t q = true) l ->
  findSameRule rule i l h = Some (None, h).
Proof.
  intros Ht. revert i. induction l as [|q l IH]; intros i Hl; simpl; [done|].
  apply Forall_cons in Hl as [Hq Hl]. unfold otherRule in Hq.
  destruct (hRules h !! q) as [rq|] eqn:Hrq; [|done].
  unfold bind, readRule. rewrite Hrq. simpl. rewrite Ht. simpl.
  unfold sameRule in Hq. apply negb_true_iff in Hq. rewrite Hq. by apply IH.
Qed.

(** [RemoveRules] with one offset inside the rule list. *)
Lemma RemoveRules_one h pol (i : nat) :
  policyOk h pol -> (i < sLen (Rules pol))%nat ->
  exists pol' h',
    RemoveRules pol [Z.of_nat i] h = Some ((pol', true), h')
    /\ view h' (Rules pol') = delete i (view h (Rules pol))
    /\ contiguousOrdinals h' pol'
    /\ pol' = set_Rules pol (Rules pol')
    /\ (forall p r, hRules h !! p = Some r ->
                    exists z, hRules h' !! p = Some (set_Ordinal r z))
    /\ hActions h' = hActions h /\ hConds h' = hConds h.
Proof.
  intros Hok Hi. unfold RemoveRules. simpl.
  destruct (RemoveRuleAt_delete h pol i Hok Hi)
    as (pol1 & h1 & Hrun & Hok1 & Hview1 & Hpol1 & HR1 & HA1 & HC1 & _).
  pose proof Hok1 as [(arr & Harr & Hb) [Hall Hnd]].
  destruct (fixOrdinals_ok (view h1 (Rules pol1)) 0 h1 Hnd Hall)
    as (h2 & Hfix & Harr2 & Hord & _).
  pose proof (fixOrdinals_shape _ _ _ _ Hfix) as (HA2 & HC2 & HR2).
  assert (view h2 (Rules pol1) = view h1 (Rules pol1)) as Hview.
  { unfold view. by rewrite Harr2. }
  exists pol1, h2. split.
  { assert (removeOne pol (Z.of_nat i) h = Some (pol1, h1)) as Hone.
    { unfold removeOne, bind. by rewrite Hrun. }
    unfold bind at 1. unfold bind at 1. rewrite Hone. unfold ret at 1.
    unfold bind, readSlice, ret. by rewrite Hfix. }
  rewrite Hview. split; [done|]. split; [|split; [|split; [|split]]].
  - unfold contiguousOrdinals, ordinals. rewrite Hview.
    apply list_eq. intros k. rewrite !list_lookup_fmap.
    destruct (view h1 (Rules pol1) !! k) as [p|] eqn:Hk; simpl.
    + rewrite (Hord k p Hk). rewrite lookup_seq_lt by (by eapply lookup_lt_Some). done.
    + apply lookup_ge_None in Hk. by rewrite lookup_seq_ge.
  - rewrite Hpol1. reflexivity.
  - intros p r Hp. apply HR2. rewrite HR1, lookup_insert_ne; [done|].
    intros <-. by rewrite (proj1 (freshLoc_fresh (hRules h))) in Hp.
  - congruence.
  - congruence.
Qed.

End OneRuleFacts.

(** [DeleteRuleFromPolicy] for a rule no merge is recorded for.
    Without a policy of that name, or when no rule of the policy has
    the name and URI of the rule, nothing changes.  When the first
    such rule is the only rule of the policy, the policy is removed
    from the config.  Otherwise that rule leaves the policy, the other
    rules keep their order and are numbered [0 .. N-1], and the policy
    is set again. *)
Theorem X_DeleteRuleFromPolicy
        {ActionBody CondBody Member : Type}
        `{!EqDecision ActionBody, !EqDecision CondBody}
        (growCap : nat -> nat -> nat)
        (rc : @Engine.ResourceConfig Member) (policyName : string) (rule : Engine.loc)
        (m : gmap string (gmap string Engine.mergedRuleEntry))
        (h : @Engine.Heap ActionBody CondBody) (t : Engine.Rule) :
  Engine.hRules h !! rule = Some t ->
  (m !! Engine.GetName rc = None
   \/ exists inner, m !! Engine.GetName rc = Some inner /\ inner !! Engine.rName t = None) ->
  (find (fun pol => String.eqb (Engine.pName pol) policyName) (Engine.Policies rc) = None ->
   Engine.DeleteRuleFromPolicy growCap rc policyName rule m h = Some ((rc, m), h))
  /\ (forall policy,
         find (fun pol => String.eqb (Engine.pName pol) policyName) (Engine.Policies rc)
         = Some policy ->
         Engine.policyOk h policy ->
         (Forall (fun q => Engine.otherRule h t q = true)
                 (Engine.view h (Engine.Rules policy)) ->
          Engine.DeleteRuleFromPolicy growCap rc policyName rule m h = Some ((rc, m), h))
         /\ (forall l1 p l2 r,
                Engine.view h (Engine.Rules policy) = l1 ++ p :: l2 ->
                Engine.hRules h !! p = Some r -> Engine.sameRule r t = true ->
                Forall (fun q => Engine.otherRule h t q = true) l1 ->
                (l1 ++ l2 = [] ->
                 Engine.DeleteRuleFromPolicy growCap rc policyName rule m h
                 = Some ((Engine.RemovePolicy rc policy, m), h))
                /\ (l1 ++ l2 <> [] ->
                    exists policy' h',
                      Engine.DeleteRuleFromPolicy growCap rc policyName rule m h
                      = Some ((Engine.SetPolicy rc policy', m), h')
                      /\ policy' = Engine.set_Rules policy (Engine.Rules policy')
                      /\ Engine.view h' (Engine.Rules policy') = l1 ++ l2
                      /\ Engine.contiguousOrdinals h' policy'
                      /\ (forall q rq, Engine.hRules h !! q = Some rq ->
                                       exists z, Engine.hRules h' !! q
                                                 = Some (Engine.set_Ordinal rq z))
                      /\ Engine.hActions h' = Engine.hActions h
                      /\ Engine.hConds h' = Engine.hConds h))).
Proof.
  intros Ht Hrec.
  assert (Engine.UnmergeRule growCap rc (Engine.rName t) m h = Some ((rc, m, false), h))
    as Hunmerge.
  { unfold Engine.UnmergeRule. destruct Hrec as [->|(inner & -> & ->)]; done. }
  split.
  { intros Hnone. unfold Engine.DeleteRuleFromPolicy. by rewrite Hnone. }
  intros policy Hfind Hok. split.
  { intros Hnone. unfold Engine.DeleteRuleFromPolicy. rewrite Hfind.
    unfold Engine.bind at 1, Engine.readSlice at 1. unfold Engine.bind at 1.
    by rewrite (findSameRule_none h rule t 0 _ Ht Hnone). }
  intros l1 p l2 r Hview Hp Hsame Hl1.
  pose proof (policyOk_length h policy Hok) as Hlen. rewrite Hview in Hlen.
  rewrite length_app in Hlen. simpl in Hlen.
  assert (Engine.DeleteRuleFromPolicy growCap rc policyName rule m h
          = (if (Engine.sLen (Engine.Rules policy) =? 1)%nat && negb false
             then Engine.ret (Engine.RemovePolicy rc policy, m)
             else if negb false
                  then Engine.bind (Engine.RemoveRules policy [Z.of_nat (0 + length l1)])
                         (fun x => match x with
                                   | (policy', _) => Engine.ret (Engine.SetPolicy rc policy', m)
                                   end)
                  else Engine.ret (rc, m)) h) as Hrun.
  { unfold Engine.DeleteRuleFromPolicy. rewrite Hfind.
    unfold Engine.bind at 1, Engine.readSlice at 1. rewrite Hview.
    unfold Engine.bind at 1.
    rewrite (findSameRule_found h rule t 0 l1 p l2 r Ht Hp Hsame Hl1).
    unfold Engine.bind at 1, Engine.readRule at 1. rewrite Ht. simpl.
    unfold Engine.bind at 1. rewrite Hunmerge. done. }
  rewrite Hrun. simpl negb. rewrite andb_true_r. split.
  - intros Hnil. apply app_eq_nil in Hnil as [-> ->]. simpl in Hlen.
    rewrite <- Hlen. done.
  - intros Hne.
    destruct (Nat.eqb_spec (Engine.sLen (Engine.Rules policy)) 1) as [Hone|_].
    { exfalso. apply Hne. destruct l1, l2; simpl in *; try done; lia. }
    destruct (RemoveRules_one h policy (length l1) Hok ltac:(lia))
      as (policy' & h' & Hrem & Hview' & Hord & Hpol & HR & HA & HC).
    exists policy', h'. simpl. unfold Engine.bind. rewrite Hrem.
    split; [done|]. split; [done|]. split; [|done].
    rewrite Hview', Hview. by rewrite delete_middle.
Qed.

Lemma X_DeleteRuleFromPolicy_witness :
  exists policy' h',
    Engine.DeleteRuleFromPolicy Examples.growDouble Examples.config1 "vs_policy" 2 ∅
                                Examples.heap1
    = Some ((Engine.SetPolicy Examples.config1 policy', ∅), h')
    /\ Engine.view h' (Engine.Rules policy') = [1; 3]%nat
    /\ Engine.contiguousOrdinals h' policy'.
Proof.
  assert (Engine.policyOk Examples.heap1 Examples.policy1) as Hok.
  { split; [|split].
    - exists [1; 2; 3]%nat. split; [reflexivity|simpl; lia].
    - refine (bool_decide_unpack _ _). vm_compute. exact I.
    - refine (bool_decide_unpack _ _). vm_compute. exact I. }
  assert ((∅ : gmap string (gmap string Engine.mergedRuleEntry))
          !! Engine.GetName Examples.config1 = None) as Hrec by reflexivity.
  destruct (proj2 (X_DeleteRuleFromPolicy Examples.growDouble Examples.config1 "vs_policy" 2 ∅
                     Examples.heap1 Examples.ruleForward eq_refl (or_introl Hrec))
              Examples.policy1 eq_refl Hok) as [_ H].
  destruct (H [1%nat] 2%nat [3%nat] Examples.ruleForward eq_refl eq_refl eq_refl) as [_ H'].
  { repeat constructor. }
  destruct H' as (policy' & h' & Hrun & _ & Hview & Hord & _); [discriminate|].
  exists policy', h'. split; [exact Hrun|]. split; [exact Hview|exact Hord].
Defined.

Section AddRuleFacts.
Import Engine.
Context {ActionBody CondBody Member : Type}.
Implicit Types (h : @Heap ActionBody CondBody) (rc : @ResourceConfig Member).

Lemma viewArr_insert (arr : list loc) (s : slice) (i : nat) (v : loc) :
  (sOff s + sLen s <= length arr)%nat -> (i < sLen s)%nat ->
  viewArr (<[(sOff s + i)%nat := v]> arr) s = <[i := v]> (viewArr arr s).
Proof.
  intros Hb Hi. unfold viewArr. apply list_eq. intros k.
  destruct (decide (k < sLen s)%nat) as [Hk|Hk].
  - rewrite lookup_take_lt, lookup_drop by done.
    destruct (decide (k = i)) as [->|Hne].
    + rewrite !list_lookup_insert_eq; [done| |lia].
      rewrite length_take, length_drop. lia.
    + rewrite !list_lookup_insert_ne by lia.
      by rewrite lookup_take_lt, lookup_drop by done.
  - rewrite lookup_take_ge by lia. symmetry. apply lookup_ge_None.
    rewrite length_insert, length_take, length_drop. lia.
Qed.

End AddRuleFacts.

(** [AddRuleToPolicy] when the forwarding policy has a rule of the
    name and URI of the new rule: the new rule takes the place of the
    first such rule and is given its ordinal; the other rules, the
    length of the rule list and everything else on the heap stay as
    they are, and the policy is set again. *)
Theorem X_AddRuleToPolicy_replaces
        {ActionBody CondBody Member : Type}
        (growCap : nat -> nat -> nat)
        (createPolicy : Engine.slice -> string -> string -> @Engine.M ActionBody CondBody Engine.Policy)
        (rc : @Engine.ResourceConfig Member) (policyName : string) (rule : Engine.loc)
        (h : @Engine.Heap ActionBody CondBody) (policy : Engine.Policy)
        (t r : Engine.Rule) (l1 l2 : list Engine.loc) (p : Engine.loc) :
  Engine.FindPolicy rc "forwarding" = Some policy ->
  Engine.policyOk h policy ->
  Engine.hRules h !! rule = Some t ->
  Engine.view h (Engine.Rules policy) = l1 ++ p :: l2 ->
  Engine.hRules h !! p = Some r ->
  Engine.sameRule r t = true ->
  Forall (fun q => Engine.otherRule h t q = true) l1 ->
  exists h',
    Engine.AddRuleToPolicy growCap createPolicy rc policyName rule h
    = Some (Engine.SetPolicy rc policy, h')
    /\ Engine.view h' (Engine.Rules policy) = l1 ++ rule :: l2
    /\ Engine.hRules h' = <[rule := Engine.set_Ordinal t (Engine.Ordinal r)]> (Engine.hRules h)
    /\ Engine.hActions h' = Engine.hActions h
    /\ Engine.hConds h' = Engine.hConds h.
Proof.
  intros Hfind Hok Ht Hview Hp Hsame Hl1.
  pose proof (policyOk_length h policy Hok) as Hlen. rewrite Hview in Hlen.
  rewrite length_app in Hlen. simpl in Hlen.
  destruct Hok as [(arr & Harr & Hb) _].
  unfold Engine.AddRuleToPolicy. rewrite Hfind.
  unfold Engine.bind at 1, Engine.readSlice at 1. rewrite Hview.
  unfold Engine.bind at 1.
  rewrite (findSameRule_found h rule t 0 l1 p l2 r Ht Hp Hsame Hl1). simpl.
  unfold Engine.bind at 1. unfold Engine.bind at 1. unfold Engine.liftOpt at 1.
  rewrite list_lookup_middle by done.
  unfold Engine.bind at 1, Engine.readRule at 1. rewrite Hp. simpl.
  unfold Engine.bind at 1, Engine.readRule at 1. rewrite Ht. simpl.
  unfold Engine.bind at 1, Engine.writeRule at 1. rewrite Ht.
  unfold Engine.bind at 1, Engine.sliceSet at 1. simpl.
  destruct (Nat.ltb_spec (length l1) (Engine.sLen (Engine.Rules policy))) as [_|?]; [|lia].
  rewrite Harr. unfold Engine.writeArray, Engine.ret. simpl.
  eexists. split; [reflexivity|]. split; [|done].
  unfold Engine.view. simpl. rewrite lookup_insert_eq. simpl.
  rewrite viewArr_insert by lia.
  rewrite (view_array h _ arr Harr) in Hview. rewrite Hview.
  by rewrite insert_app_r_alt, Nat.sub_diag by lia.
Qed.

Lemma X_AddRuleToPolicy_replaces_witness :
  exists h',
    Engine.AddRuleToPolicy Examples.growDouble Examples.noCreatePolicy Examples.config1
                           "vs_policy" 4 Examples.heapNew
    = Some (Engine.SetPolicy Examples.config1 Examples.policy1, h')
    /\ Engine.view h' (Engine.Rules Examples.policy1) = [1; 4; 3]%nat
    /\ Engine.Ordinal <$> Engine.hRules h' !! 4%nat = Some 1%Z.
Proof.
  destruct (X_AddRuleToPolicy_replaces Examples.growDouble Examples.noCreatePolicy
              Examples.config1 "vs_policy" 4 Examples.heapNew Examples.policy1
              Examples.ruleForwardNew Examples.ruleForward [1%nat] [3%nat] 2%nat)
    as (h' & Hrun & Hview & HR & _); try reflexivity.
  - split; [|split].
    + exists [1; 2; 3]%nat. split; [reflexivity|simpl; lia].
    + refine (bool_decide_unpack _ _). vm_compute. exact I.
    + refine (bool_decide_unpack _ _). vm_compute. exact I.
  - repeat constructor.
  - exists h'. split; [exact Hrun|]. split; [exact Hview|]. rewrite HR. reflexivity.
Defined.

(** [AddRuleToPolicy] when the forwarding policy has no rule of the
    name and URI of the new rule: the new rule goes to the end of the
    rule list, the rules that were there keep their places, and no
    rule on the heap changes - the new rule keeps the ordinal it came
    with; the policy is set again with the longer list. *)
Theorem X_AddRuleToPolicy_appends
        {ActionBody CondBody Member : Type}
        (growCap : nat -> nat -> nat)
        (createPolicy : Engine.slice -> string -> string -> @Engine.M ActionBody CondBody Engine.Policy)
        (rc : @Engine.ResourceConfig Member) (policyName : string) (rule : Engine.loc)
        (h : @Engine.Heap ActionBody CondBody) (policy : Engine.Policy)
        (t : Engine.Rule) (arr : list Engine.loc) :
  Engine.FindPolicy rc "forwarding" = Some policy ->
  Engine.hArrays h !! Engine.sArr (Engine.Rules policy) = Some arr ->
  (Engine.sLen (Engine.Rules policy) <= Engine.sCap (Engine.Rules policy))%nat ->
  (Engine.sOff (Engine.Rules policy) + Engine.sCap (Engine.Rules policy) <= length arr)%nat ->
  Engine.hRules h !! rule = Some t ->
  Forall (fun q => Engine.otherRule h t q = true) (Engine.view h (Engine.Rules policy)) ->
  exists policy' h',
    Engine.AddRuleToPolicy growCap createPolicy rc policyName rule h
    = Some (Engine.SetPolicy rc policy', h')
    /\ policy' = Engine.set_Rules policy (Engine.Rules policy')
    /\ Engine.view h' (Engine.Rules policy') = Engine.view h (Engine.Rules policy) ++ [rule]
    /\ Engine.hRules h' = Engine.hRules h
    /\ Engine.hActions h' = Engine.hActions h
    /\ Engine.hConds h' = Engine.hConds h.
Proof.
  intros Hfind Harr Hcap Hb Ht Hall.
  unfold Engine.AddRuleToPolicy. rewrite Hfind.
  unfold Engine.bind at 1, Engine.readSlice at 1. unfold Engine.bind at 1.
  rewrite (findSameRule_none h rule t 0 _ Ht Hall). simpl.
  unfold Engine.bind at 1. unfold Engine.bind at 1. unfold Engine.sliceAppend.
  destruct (Nat.ltb_spec (Engine.sLen (Engine.Rules policy))
                         (Engine.sCap (Engine.Rules policy))) as [Hlt|Hge].
  - rewrite Harr. unfold Engine.ret. simpl. eexists _, _. split; [reflexivity|].
    split; [reflexivity|]. split; [|done].
    unfold Engine.view. simpl. rewrite lookup_insert_eq, Harr. simpl.
    apply viewArr_snoc. lia.
  - unfold Engine.ret. simpl. eexists _, _. split; [reflexivity|].
    split; [reflexivity|]. split; [|done].
    unfold Engine.view at 1. simpl. rewrite lookup_insert_eq. simpl.
    unfold Engine.viewArr at 1. simpl. rewrite drop_0.
    assert (length (Engine.view h (Engine.Rules policy)) = Engine.sLen (Engine.Rules policy))
      as Hlen.
    { rewrite (view_array h _ arr Harr). apply viewArr_length. lia. }
    rewrite take_app_ge by lia. rewrite Hlen.
    replace (Engine.sLen (Engine.Rules policy) + 1 - Engine.sLen (Engine.Rules policy))%nat
      with 1%nat by lia.
    done.
Qed.

Lemma X_AddRuleToPolicy_appends_witness :
  exists policy' h',
    Engine.AddRuleToPolicy Examples.growDouble Examples.noCreatePolicy Examples.configTail
                           "vs_policy" 1 Examples.heap1
    = Some (Engine.SetPolicy Examples.configTail policy', h')
    /\ Engine.view h' (Engine.Rules policy') = [2; 3; 1]%nat.
Proof.
  destruct (X_AddRuleToPolicy_appends Examples.growDouble Examples.noCreatePolicy
              Examples.configTail "vs_policy" 1 Examples.heap1 Examples.policyTail
              Examples.ruleRewrite [1; 2; 3]%nat)
    as (policy' & h' & Hrun & _ & Hview & _);
    [reflexivity|reflexivity|simpl; lia|simpl; lia|reflexivity|repeat constructor|].
  exists policy', h'. split; [exact Hrun|exact Hview].
Defined.

(** ** The snapshot at the time it is taken *)

Section SnapshotFacts.
Import Engine.
Context {ActionBody CondBody Member : Type} `{!Inhabited CondBody}.
Implicit Types (h : @Heap ActionBody CondBody) (pol : Policy).

Lemma heapGrows_refl h : heapGrows h h.
Proof. by repeat split. Qed.

Lemma heapGrows_trans h1 h2 h3 : heapGrows h1 h2 -> heapGrows h2 h3 -> heapGrows h1 h3.
Proof.
  intros (R1 & A1 & C1 & Ar1 & M1) (R2 & A2 & C2 & Ar2 & M2).
  repeat split; try congruence; by etrans.
Qed.

Lemma ruleReadable_spec h p :
  ruleReadable h p = true <->
  exists r, hRules h !! p = Some r /\ Forall (fun c => is_Some (hConds h !! c)) (Conditions r).
Proof.
  unfold ruleReadable. destruct (hRules h !! p) as [r|].
  - rewrite forallb_forall. split.
    + intros H. exists r. split; [done|]. apply Forall_forall. intros c Hc.
      apply list_elem_of_In in Hc. specialize (H c Hc).
      by apply bool_decide_eq_true in H.
    + intros (r' & [= <-] & H) c Hc. rewrite Forall_forall in H.
      apply bool_decide_eq_true_2, H. by apply list_elem_of_In.
  - split; [done|]. by intros (r & ? & _).
Qed.

Lemma ruleReadable_grows h h' p :
  heapGrows h h' -> ruleReadable h p = true -> ruleReadable h' p = true.
Proof.
  intros (HR & _ & HC & _) Hp. apply ruleReadable_spec in Hp as (r & Hr & Hall).
  apply ruleReadable_spec. exists r. split; [by eapply lookup_weaken|].
  eapply Forall_impl; [exact Hall|]. intros c [x Hx]. exists x. by eapply lookup_weaken.
Qed.

Lemma ruleContents_grows h h' p :
  heapGrows h h' -> ruleReadable h p = true -> ruleContents h' p = ruleContents h p.
Proof.
  intros (HR & HA & HC & _) Hp. apply ruleReadable_spec in Hp as (r & Hr & Hall).
  unfold ruleContents. rewrite Hr, (lookup_weaken _ _ _ _ Hr HR). simpl. rewrite HA.
  do 2 f_equal. apply map_ext_in. intros c Hc. apply list_elem_of_In in Hc.
  rewrite Forall_forall in Hall. destruct (Hall c Hc) as [x Hx].
  by rewrite Hx, (lookup_weaken _ _ _ _ Hx HC).
Qed.

Lemma view_grows h h' pol :
  heapGrows h h' -> policyReadable h pol = true -> view h' (Rules pol) = view h (Rules pol).
Proof.
  intros (_ & _ & _ & HA & _) Hp. unfold policyReadable in Hp.
  apply andb_true_iff in Hp as [Hp _]. apply orb_true_iff in Hp as [Hz|Harr].
  - apply Nat.eqb_eq in Hz. unfold view, viewArr. by rewrite Hz.
  - apply bool_decide_eq_true in Harr as [arr Harr].
    unfold view. by rewrite Harr, (lookup_weaken _ _ _ _ Harr HA).
Qed.

Lemma policyReadable_grows h h' pol :
  heapGrows h h' -> policyReadable h pol = true -> policyReadable h' pol = true.
Proof.
  intros Hg Hp. pose proof (view_grows h h' pol Hg Hp) as Hview.
  unfold policyReadable in *. rewrite Hview.
  apply andb_true_iff in Hp as [Ha Hall]. apply andb_true_iff. split.
  - apply orb_true_iff in Ha as [Hz|Harr]; apply orb_true_iff; [by left|right].
    apply bool_decide_eq_true in Harr as [arr Harr]. apply bool_decide_eq_true.
    exists arr. destruct Hg as (_ & _ & _ & HA & _). by eapply lookup_weaken.
  - rewrite forallb_forall in *. intros p Hp. by apply (ruleReadable_grows h h'), Hall.
Qed.

Lemma policyContents_grows h h' pol :
  heapGrows h h' -> policyReadable h pol = true ->
  policyContents h' pol = policyContents h pol.
Proof.
  intros Hg Hp. unfold policyContents. rewrite (view_grows h h' pol Hg Hp). f_equal.
  apply map_ext_in. intros p Hin. apply ruleContents_grows; [done|].
  unfold policyReadable in Hp. apply andb_true_iff in Hp as [_ Hall].
  rewrite forallb_forall in Hall. by apply Hall.
Qed.

(** The new conditions made for one rule. *)
Lemma forM_newConds (conds : list loc) h :
  Forall (fun c => is_Some (hConds h !! c)) conds ->
  exists cs h',
    forM (fun c => bind (readCond c)
                     (fun cd => allocCond (mkCondition ""
                                    (Some (replicate (length (default [] (cValues cd))) ""))
                                    inhabitant)))
         conds h = Some (cs, h')
    /\ heapGrows h h' /\ hRules h' = hRules h /\ hArrays h' = hArrays h.
Proof.
  set (f := fun c => bind (readCond c) _).
  revert h. induction conds as [|c conds IH]; intros h Hall.
  - exists [], h. split; [done|]. split; [apply heapGrows_refl|done].
  - apply Forall_cons in Hall as [[x Hx] Hall].
    set (h1 := mkHeap (hRules h) (hActions h)
                      (<[freshLoc (hConds h) :=
                           mkCondition "" (Some (replicate (length (default [] (cValues x))) ""))
                                       inhabitant]> (hConds h))
                      (hArrays h) (hMaps h)).
    assert (f c h = Some (freshLoc (hConds h), h1)) as Hf.
    { unfold f, bind, readCond. rewrite Hx. done. }
    assert (heapGrows h h1) as Hg1.
    { repeat split; try done. simpl. apply insert_subseteq, freshLoc_fresh. }
    destruct (IH h1) as (cs & h2 & Hrun & Hg2 & HR2 & HA2).
    { eapply Forall_impl; [exact Hall|]. intros c' [y Hy]. exists y.
      destruct Hg1 as (_ & _ & HC & _). by eapply lookup_weaken. }
    exists (freshLoc (hConds h) :: cs), h2. cbn [forM].
    unfold bind at 1. rewrite Hf. unfold bind at 1. rewrite Hrun.
    split; [done|]. split; [by eapply heapGrows_trans|]. split; [by rewrite HR2|by rewrite HA2].
Qed.

Lemma bind_run {A B} (c : @M ActionBody CondBody A) (k : A -> @M ActionBody CondBody B)
      h a h1 :
  c h = Some (a, h1) -> bind c k h = k a h1.
Proof. intros H. unfold bind. by rewrite H. Qed.

Lemma freshRuleFor_ok p h :
  ruleReadable h p = true ->
  exists z h', freshRuleFor p h = Some (z, h') /\ heapGrows h h' /\ hArrays h' = hArrays h.
Proof.
  intros Hp. apply ruleReadable_spec in Hp as (r & Hr & Hall).
  set (z := freshLoc (hRules h)).
  assert (hRules h !! z = None) as Hz by apply freshLoc_fresh.
  assert (p <> z) as Hpz by congruence.
  set (h1 := mkHeap (<[z := zeroRule]> (hRules h)) (hActions h) (hConds h)
                    (hArrays h) (hMaps h)).
  set (r2 := set_Actions zeroRule (replicate (length (Actions r)) nil_ptr)).
  set (h2 := mkHeap (<[z := r2]> (hRules h1)) (hActions h) (hConds h) (hArrays h) (hMaps h)).
  destruct (forM_newConds (Conditions r) h2 Hall) as (cs & h3 & Hrun & Hg3 & HR3 & HA3).
  set (r4 := mkRule "" "" 0 (replicate (length (Actions r)) nil_ptr) cs).
  set (h4 := mkHeap (<[z := r4]> (hRules h3)) (hActions h3) (hConds h3) (hArrays h3) (hMaps h3)).
  exists z, h4. split.
  - unfold freshRuleFor.
    rewrite (bind_run (allocRule zeroRule) _ h z h1 eq_refl).
    rewrite (bind_run (readRule p) _ h1 r h1).
    2:{ unfold readRule. simpl. by rewrite lookup_insert_ne, Hr by done. }
    rewrite (bind_run (writeRule z r2) _ h1 tt h2).
    2:{ unfold writeRule. simpl. by rewrite lookup_insert_eq. }
    rewrite (bind_run _ _ h2 cs h3 Hrun).
    rewrite (bind_run (writeRule z r4) _ h3 tt h4).
    2:{ assert (hRules h3 !! z = Some r2) as Hz3
          by (rewrite HR3; simpl; by rewrite lookup_insert_eq).
        unfold writeRule. by rewrite Hz3. }
    done.
  - destruct Hg3 as (_ & HAc & HC & _ & HM). simpl in *. split; [|done].
    repeat split; try done; simpl.
    + rewrite HR3. simpl. rewrite !insert_insert_eq. by apply insert_subseteq.
    + by rewrite HA3.
Qed.

Lemma forM_freshRuleFor (src : list loc) h :
  forallb (ruleReadable h) src = true ->
  exists news h', forM freshRuleFor src h = Some (news, h')
                  /\ heapGrows h h' /\ hArrays h' = hArrays h.
Proof.
  revert h. induction src as [|p src IH]; intros h Hall.
  - exists [], h. split; [done|]. split; [apply heapGrows_refl|done].
  - simpl in Hall. apply andb_true_iff in Hall as [Hp Hall].
    destruct (freshRuleFor_ok p h Hp) as (z & h1 & Hrun1 & Hg1 & HA1).
    destruct (IH h1) as (news & h2 & Hrun2 & Hg2 & HA2).
    { rewrite forallb_forall in *. intros q Hq. by apply (ruleReadable_grows h h1), Hall. }
    exists (z :: news), h2. cbn [forM]. unfold bind at 1. rewrite Hrun1.
    unfold bind at 1. rewrite Hrun2. split; [done|].
    split; [by eapply heapGrows_trans|congruence].
Qed.

(** The last loops of [copyConfig] only read. *)
Lemma forM_readConds (conds : list loc) h :
  Forall (fun c => is_Some (hConds h !! c)) conds ->
  exists cs, forM readCond conds h = Some (cs, h).
Proof.
  induction conds as [|c conds IH]; intros Hall; [by exists []|].
  apply Forall_cons in Hall as [[x Hx] Hall]. destruct (IH Hall) as [cs Hcs].
  exists (x :: cs). cbn [forM]. unfold bind at 1, readCond at 1. rewrite Hx. simpl.
  unfold bind at 1. by rewrite Hcs.
Qed.

Lemma forM_readRules (src : list loc) h :
  forallb (ruleReadable h) src = true ->
  exists x, forM (fun p => bind (readRule p) (fun r => forM readCond (Conditions r))) src h
            = Some (x, h).
Proof.
  induction src as [|p src IH]; intros Hall; [by exists []|].
  simpl in Hall. apply andb_true_iff in Hall as [Hp Hall].
  apply ruleReadable_spec in Hp as (r & Hr & Hconds).
  destruct (forM_readConds _ h Hconds) as [cs Hcs]. destruct (IH Hall) as [x Hx].
  exists (cs :: x). cbn [forM]. unfold bind at 1. unfold bind at 1, readRule at 1.
  rewrite Hr. simpl. rewrite Hcs. unfold bind at 1. by rewrite Hx.
Qed.

Lemma copyPolicy_ok pol h :
  policyReadable h pol = true ->
  exists pol' h',
    copyPolicy pol h = Some (pol', h')
    /\ heapGrows h h'
    /\ view h' (Rules pol') = view h (Rules pol)
    /\ is_Some (hArrays h' !! sArr (Rules pol'))
    /\ hArrays h !! sArr (Rules pol') = None
    /\ pName pol' = pName pol /\ pPartition pol' = pPartition pol
    /\ Controls pol' = Controls pol /\ Requires pol' = Requires pol.
Proof.
  intros Hp. pose proof Hp as Hp0. unfold policyReadable in Hp.
  apply andb_true_iff in Hp as [_ Hall].
  set (src := view h (Rules pol)) in *.
  set (arr := freshLoc (hArrays h)).
  assert (hArrays h !! arr = None) as Harr by apply freshLoc_fresh.
  set (h1 := mkHeap (hRules h) (hActions h) (hConds h)
                    (<[arr := replicate (length src) nil_ptr]> (hArrays h)) (hMaps h)).
  assert (heapGrows h h1) as Hg1.
  { repeat split; try done. simpl. by apply insert_subseteq. }
  destruct (forM_freshRuleFor src h1) as (news & h2 & Hrun2 & Hg2 & HA2).
  { rewrite forallb_forall in *. intros q Hq. by apply (ruleReadable_grows h h1), Hall. }
  set (h3 := mkHeap (hRules h2) (hActions h2) (hConds h2) (<[arr := news]> (hArrays h2))
                    (hMaps h2)).
  set (h4 := mkHeap (hRules h3) (hActions h3) (hConds h3) (<[arr := src]> (hArrays h3))
                    (hMaps h3)).
  assert (heapGrows h h4) as Hg.
  { pose proof (heapGrows_trans _ _ _ Hg1 Hg2) as (HR & HA & HC & _ & HM).
    unfold h4, h3. repeat split; try done. simpl. rewrite insert_insert_eq, HA2. simpl.
    rewrite insert_insert_eq. by apply insert_subseteq. }
  destruct (forM_readRules src h4) as [x Hx].
  { rewrite forallb_forall in *. intros q Hq. by apply (ruleReadable_grows h h4), Hall. }
  eexists _, h4. split.
  - unfold copyPolicy.
    rewrite (bind_run (readSlice (Rules pol)) _ h src h eq_refl).
    rewrite (bind_run (allocArray _) _ h arr h1 eq_refl).
    rewrite (bind_run _ _ h1 news h2 Hrun2).
    rewrite (bind_run (writeArray arr news) _ h2 tt h3 eq_refl).
    rewrite (bind_run (writeArray arr src) _ h3 tt h4 eq_refl).
    rewrite (bind_run _ _ h4 x h4 Hx).
    reflexivity.
  - split; [done|]. simpl. split; [|split; [by rewrite lookup_insert_eq|done]].
    unfold view at 1. simpl. rewrite lookup_insert_eq. simpl.
    unfold viewArr. simpl. by rewrite drop_0, firstn_all.
Qed.

(** The policies of [copyConfig], one after the other. *)
Lemma forM_copyPolicy (pols : list Policy) h :
  Forall (fun pol => policyReadable h pol = true) pols ->
  exists pols' h',
    forM copyPolicy pols h = Some (pols', h')
    /\ heapGrows h h'
    /\ Forall2 (fun pol pol' =>
                  view h' (Rules pol') = view h (Rules pol)
                  /\ is_Some (hArrays h' !! sArr (Rules pol'))
                  /\ hArrays h !! sArr (Rules pol') = None
                  /\ pName pol' = pName pol /\ pPartition pol' = pPartition pol
                  /\ Controls pol' = Controls pol /\ Requires pol' = Requires pol)
               pols pols'.
Proof.
  revert h. induction pols as [|pol pols IH]; intros h Hall.
  - exists [], h. split; [done|]. split; [apply heapGrows_refl|constructor].
  - apply Forall_cons in Hall as [Hp Hall].
    destruct (copyPolicy_ok pol h Hp)
      as (pol' & h1 & Hrun1 & Hg1 & Hview1 & [l Hl] & Hfresh1 & Hf1).
    destruct (IH h1) as (pols' & h2 & Hrun2 & Hg2 & Hall2).
    { eapply Forall_impl; [exact Hall|]. intros q Hq. by apply (policyReadable_grows h h1). }
    exists (pol' :: pols'), h2. cbn [forM].
    rewrite (bind_run _ _ h pol' h1 Hrun1), (bind_run _ _ h1 pols' h2 Hrun2).
    split; [done|]. split; [by eapply heapGrows_trans|]. constructor.
    + destruct Hg2 as (_ & _ & _ & HA & _).
      split; [|split; [|split; [done|done]]].
      * rewrite <- Hview1. unfold view. by rewrite Hl, (lookup_weaken _ _ _ _ Hl HA).
      * exists l. by eapply lookup_weaken.
    + apply Forall2_same_length_lookup_2; [by eapply Forall2_length|].
      intros i q q' Hq Hq'.
      destruct (Forall2_lookup_lr _ _ _ _ _ _ Hall2 Hq Hq') as (Hv & Hsome & Hfr & Hrest).
      rewrite Forall_lookup in Hall. specialize (Hall i q Hq).
      split; [|split; [done|split; [|done]]].
      * rewrite Hv. by apply view_grows.
      * destruct (hArrays h !! sArr (Rules q')) eqn:E; [|done].
        destruct Hg1 as (_ & _ & _ & HA & _). apply (lookup_weaken _ _ _ _ E) in HA. congruence.
Qed.

Lemma copyConfig_ok (cfg : @ResourceConfig Member) h :
  Forall (fun pol => policyReadable h pol = true) (Policies cfg) ->
  exists c h',
    copyConfig cfg h = Some (c, h')
    /\ heapGrows h h'
    /\ configContents h' c = configContents h cfg
    /\ Forall (fun pol' => policyReadable h' pol' = true) (Policies c)
    /\ Forall (fun pol' => hArrays h !! sArr (Rules pol') = None) (Policies c).
Proof.
  intros Hall. destruct (forM_copyPolicy (Policies cfg) h Hall) as (pols' & h' & Hrun & Hg & H2).
  exists (mkResourceConfig (MetaData cfg) (rcVirtual cfg) (Pools cfg) pols'), h'.
  split; [unfold copyConfig; by rewrite (bind_run _ _ h pols' h' Hrun)|].
  split; [done|]. simpl.
  assert (forall i pol pol', Policies cfg !! i = Some pol -> pols' !! i = Some pol' ->
                             forallb (ruleReadable h') (view h' (Rules pol')) = true) as Hread.
  { intros i pol pol' Hi Hi'.
    destruct (Forall2_lookup_lr _ _ _ _ _ _ H2 Hi Hi') as (Hv & _).
    rewrite Forall_lookup in Hall. specialize (Hall i pol Hi).
    rewrite Hv. unfold policyReadable in Hall. apply andb_true_iff in Hall as [_ Hall].
    rewrite forallb_forall in *. intros p Hp. by apply (ruleReadable_grows h h'), Hall. }
  split; [|split].
  - unfold configContents. simpl. f_equal.
    apply list_eq. intros i. rewrite !list_lookup_fmap.
    destruct (Policies cfg !! i) as [pol|] eqn:Hi.
    + destruct (Forall2_lookup_l _ _ _ _ _ H2 Hi) as (pol' & Hi' & Hv & _ & _ & Hn & Hp & Hc & Hr).
      rewrite Hi'. simpl. f_equal. unfold policyContents. rewrite Hv, Hn, Hp, Hc, Hr. f_equal.
      apply map_ext_in. intros p Hin. apply ruleContents_grows; [done|].
      rewrite Forall_lookup in Hall. specialize (Hall i pol Hi).
      unfold policyReadable in Hall. apply andb_true_iff in Hall as [_ Hall].
      rewrite forallb_forall in Hall. by apply Hall.
    + apply Forall2_length in H2. apply lookup_ge_None in Hi.
      rewrite (proj2 (lookup_ge_None pols' i)) by lia. done.
  - apply Forall_lookup. intros i pol' Hi'.
    destruct (Forall2_lookup_r _ _ _ _ _ H2 Hi') as (pol & Hi & Hv & Hsome & _).
    unfold policyReadable. apply andb_true_iff. split.
    + apply orb_true_iff. right. by apply bool_decide_eq_true.
    + by eapply Hread.
  - apply Forall_lookup. intros i pol' Hi'.
    by destruct (Forall2_lookup_r _ _ _ _ _ H2 Hi') as (pol & Hi & _ & _ & Hfresh & _).
Qed.

Lemma configContents_grows (cfg : @ResourceConfig Member) h h' :
  heapGrows h h' -> Forall (fun pol => policyReadable h pol = true) (Policies cfg) ->
  configContents h' cfg = configContents h cfg.
Proof.
  intros Hg Hall. unfold configContents. f_equal. apply map_ext_in. intros pol Hin.
  apply policyContents_grows; [done|]. rewrite Forall_forall in Hall.
  by apply Hall, list_elem_of_In.
Qed.

End SnapshotFacts.

(** What [copyConfig] gives at the time of the copy, for a config
    whose rule pointers and condition pointers are all valid: it does
    not panic, the copy reads exactly as the config it was copied from,
    the config itself reads as before, nothing that was on the heap has
    changed, and the rule list of every policy of the copy sits in an
    array of its own. *)
Theorem X_copyConfig_contents
        {ActionBody CondBody Member : Type} `{!Inhabited CondBody}
        (cfg : @Engine.ResourceConfig Member) (h : @Engine.Heap ActionBody CondBody) :
  Forall (fun pol => Engine.policyReadable h pol = true) (Engine.Policies cfg) ->
  exists c h',
    Engine.copyConfig cfg h = Some (c, h')
    /\ Engine.configContents h' c = Engine.configContents h cfg
    /\ Engine.configContents h' cfg = Engine.configContents h cfg
    /\ Engine.heapGrows h h'
    /\ Forall (fun pol' => Engine.hArrays h !! Engine.sArr (Engine.Rules pol') = None)
              (Engine.Policies c).
Proof.
  intros Hall. destruct (copyConfig_ok cfg h Hall) as (c & h' & Hrun & Hg & Hc & _ & Hfresh).
  exists c, h'. split; [done|]. split; [done|]. split; [|done].
  by apply configContents_grows.
Qed.

Lemma X_copyConfig_contents_witness :
  exists c h',
    Engine.copyConfig Examples.config0 Examples.heap0 = Some (c, h')
    /\ Engine.configContents h' c = Engine.configContents Examples.heap0 Examples.config0.
Proof.
  destruct (X_copyConfig_contents Examples.config0 Examples.heap0)
    as (c & h' & Hrun & Hc & _).
  - repeat constructor.
  - exists c, h'. split; [exact Hrun|exact Hc].
Defined.

Section UpdateOldConfigFacts.
Import Engine.
Context {ActionBody CondBody Member : Type} `{!Inhabited CondBody}.
Implicit Types (h : @Heap ActionBody CondBody) (rs : @Resources Member).

Lemma readable_grows (cfg : @ResourceConfig Member) h h' :
  heapGrows h h' -> Forall (fun pol => policyReadable h pol = true) (Policies cfg) ->
  Forall (fun pol => policyReadable h' pol = true) (Policies cfg).
Proof.
  intros Hg Hall. eapply Forall_impl; [exact Hall|]. intros pol Hp.
  by apply (policyReadable_grows h h').
Qed.

(** The loop of [updateOldConfig]. *)
Lemma fold_copyConfig rs h0 (order : list string) (acc : gmap string ResourceConfig) h :
  heapGrows h0 h ->
  (forall k cfg, rsMap rs !! k = Some cfg ->
                 Forall (fun pol => policyReadable h0 pol = true) (Policies cfg)) ->
  (forall k, k ∈ order -> is_Some (rsMap rs !! k)) ->
  (forall k old, acc !! k = Some old ->
                 Forall (fun pol => policyReadable h pol = true) (Policies old)
                 /\ exists cfg, rsMap rs !! k = Some cfg
                                /\ configContents h old = configContents h0 cfg) ->
  exists acc' h',
    foldM (fun old k => bind (liftOpt (rsMap rs !! k))
                         (fun v => bind (copyConfig v) (fun c => ret (<[k := c]> old))))
          order acc h = Some (acc', h')
    /\ heapGrows h0 h'
    /\ dom acc' = dom acc ∪ list_to_set order
    /\ (forall k old, acc' !! k = Some old ->
                      Forall (fun pol => policyReadable h' pol = true) (Policies old)
                      /\ exists cfg, rsMap rs !! k = Some cfg
                                     /\ configContents h' old = configContents h0 cfg).
Proof.
  intros Hg Hread. revert acc h Hg.
  induction order as [|k order IH]; intros acc h Hg Hkeys Hacc.
  - exists acc, h. split; [done|]. split; [done|]. split; [set_solver|done].
  - destruct (Hkeys k ltac:(left)) as [cfg Hcfg].
    pose proof (readable_grows cfg h0 h Hg (Hread k cfg Hcfg)) as Hcfg_h.
    destruct (copyConfig_ok cfg h Hcfg_h) as (c & h1 & Hrun & Hg1 & Hc & Hcread & _).
    destruct (IH (<[k := c]> acc) h1) as (acc' & h' & Hfold & Hg' & Hdom & Hinv).
    + by eapply heapGrows_trans.
    + intros k' Hk'. apply Hkeys. by right.
    + intros k' old Hk'. destruct (decide (k' = k)) as [->|Hne].
      * rewrite lookup_insert_eq in Hk'. inversion Hk'; subst old. split; [done|].
        exists cfg. split; [done|]. rewrite Hc.
        apply configContents_grows; [done|]. by eapply Hread.
      * rewrite lookup_insert_ne in Hk' by done.
        destruct (Hacc k' old Hk') as (Hold & cfg' & Hcfg' & Hcont).
        split; [by eapply readable_grows|]. exists cfg'. split; [done|].
        rewrite <- Hcont. by apply configContents_grows.
    + exists acc', h'. cbn [foldM].
      rewrite (bind_run _ _ h (<[k := c]> acc) h1).
      2:{ unfold bind, liftOpt. rewrite Hcfg. by rewrite Hrun. }
      split; [done|]. split; [done|]. split; [|done].
      rewrite Hdom, dom_insert_L. set_solver.
Qed.

End UpdateOldConfigFacts.

(** [updateOldConfig] on a store whose configs have valid rule and
    condition pointers: it does not panic; the live map is untouched;
    the snapshot holds a config under exactly the names of the live
    map, whatever it held before; each of them reads, at that time, as
    the live config of its name, and the live configs read as before. *)
Theorem X_updateOldConfig_snapshot
        {ActionBody CondBody Member : Type} `{!Inhabited CondBody}
        (rs : @Engine.Resources Member) (order : list string)
        (h : @Engine.Heap ActionBody CondBody) :
  rangeOf (Engine.rsMap rs) order ->
  (forall k cfg, Engine.rsMap rs !! k = Some cfg ->
                 Forall (fun pol => Engine.policyReadable h pol = true) (Engine.Policies cfg)) ->
  exists rs' h',
    Engine.updateOldConfig rs order h = Some (rs', h')
    /\ Engine.rsMap rs' = Engine.rsMap rs
    /\ dom (Engine.oldRsMap rs') = dom (Engine.rsMap rs)
    /\ (forall k cfg, Engine.rsMap rs !! k = Some cfg ->
                      Engine.configContents h' cfg = Engine.configContents h cfg
                      /\ exists old, Engine.oldRsMap rs' !! k = Some old
                                     /\ Engine.configContents h' old
                                        = Engine.configContents h cfg).
Proof.
  intros [Hnd Hdom] Hread.
  destruct (fold_copyConfig rs h order ∅ h (heapGrows_refl h) Hread)
    as (acc' & h' & Hfold & Hg & Hdom' & Hinv).
  { intros k Hk. apply elem_of_dom. rewrite <- Hdom. by apply elem_of_list_to_set. }
  { intros k old Hk. by rewrite lookup_empty in Hk. }
  exists (Engine.mkResources (Engine.rsMap rs) acc'), h'. split.
  { unfold Engine.updateOldConfig. by rewrite (bind_run _ _ h acc' h' Hfold). }
  split; [done|]. simpl.
  assert (dom acc' = dom (Engine.rsMap rs)) as Hd.
  { rewrite Hdom', dom_empty_L, Hdom. set_solver. }
  split; [done|]. intros k cfg Hcfg. split.
  - apply configContents_grows; [done|]. by eapply Hread.
  - assert (is_Some (acc' !! k)) as [old Hold].
    { apply elem_of_dom. rewrite Hd. apply elem_of_dom. by exists cfg. }
    exists old. split; [done|].
    destruct (Hinv k old Hold) as (_ & cfg' & Hcfg' & Hcont). congruence.
Qed.

Lemma X_updateOldConfig_snapshot_witness :
  exists rs' h',
    Engine.updateOldConfig Examples.resources0 ["vs"] Examples.heap0 = Some (rs', h')
    /\ dom (Engine.oldRsMap rs') = dom (Engine.rsMap Examples.resources0).
Proof.
  destruct (X_updateOldConfig_snapshot Examples.resources0 ["vs"] Examples.heap0)
    as (rs' & h' & Hrun & _ & Hdom & _).
  - refine (bool_decide_unpack _ _). vm_compute. exact I.
  - intros k cfg Hk.
    assert (cfg = Examples.config0) as ->.
    { destruct (decide (k = "vs")) as [->|Hne].
      - by inversion Hk.
      - unfold Examples.resources0 in Hk. simpl in Hk.
        by rewrite lookup_singleton_ne in Hk. }
    repeat constructor.
  - exists rs', h'. split; [exact Hrun|exact Hdom].
Defined.
